(** * YouTubeLiveClipper: the clip pipeline of [app.py], embedded and verified

    The development follows [src/app.py]: the time codec ([format_time] and
    the timecode pattern of [extract_segments]), the caption cleaner
    ([clean_text]), the two transcript loops of
    [download_video_and_subtitles], [extract_video_id],
    [filter_subtitles_by_time] and the segment loop of [extract_segments].

    Python strings are sequences of Unicode code points, so a string is a
    list of code points here.  Calls into libraries whose result the
    program only inspects (urlparse, parse_qs, json.loads, float on a
    string, str on a non-string, yt-dlp, ffmpeg, reading the transcript
    file, writing an excerpt file) are the fields of the class
    [External]. *)

From Stdlib Require Import ZArith NArith QArith List Bool Lia String Ascii.
From stdpp Require Import base option list gmap.

Local Open Scope Z_scope.

(** ** Strings *)

Module Str.

Definition char := N.
Definition str := list N.

(** An ASCII literal as a Python string. *)
Definition u (s : string) : str :=
  map N_of_ascii (list_ascii_of_string s).

Definition eqb (a b : str) : bool := bool_decide (a = b).

(** [str.isspace] on one code point; [\s] of [re] on a str pattern uses the
    same table. *)
Definition is_space (c : N) : bool :=
  ((9 <=? c) && (c <=? 13) || (28 <=? c) && (c <=? 32) || (c =? 133)
   || (c =? 160) || (c =? 5760) || (8192 <=? c) && (c <=? 8202)
   || (c =? 8232) || (c =? 8233) || (c =? 8239) || (c =? 8287)
   || (c =? 12288))%N.

(** First code points of the runs of decimal digits (category Nd, Unicode
    14.0); every run holds the digits 0 to 9 in order, the last entry is a
    run of fifty (five times 0 to 9). *)
Definition digit_runs : list (N * N) :=
  map (fun b => (b, 10%N))
    [0x30; 0x660; 0x6f0; 0x7c0; 0x966; 0x9e6; 0xa66; 0xae6; 0xb66; 0xbe6;
     0xc66; 0xce6; 0xd66; 0xde6; 0xe50; 0xed0; 0xf20; 0x1040; 0x1090;
     0x17e0; 0x1810; 0x1946; 0x19d0; 0x1a80; 0x1a90; 0x1b50; 0x1bb0;
     0x1c40; 0x1c50; 0xa620; 0xa8d0; 0xa900; 0xa9d0; 0xa9f0; 0xaa50;
     0xabf0; 0xff10; 0x104a0; 0x10d30; 0x11066; 0x110f0; 0x11136; 0x111d0;
     0x112f0; 0x11450; 0x114d0; 0x11650; 0x116c0; 0x11730; 0x118e0;
     0x11950; 0x11c50; 0x11d50; 0x11da0; 0x16a60; 0x16ac0; 0x16b50;
     0x1e140; 0x1e2f0; 0x1e950; 0x1fbf0]%N
  ++ [(0x1d7ce, 50)]%N.

Fixpoint digit_in (runs : list (N * N)) (c : N) : option N :=
  match runs with
  | [] => None
  | (b, n) :: rest =>
      if ((b <=? c) && (c <? b + n))%N then Some ((c - b) mod 10)%N
      else digit_in rest c
  end.

(** The decimal value of a code point that [\d] matches. *)
Definition digit_value (c : N) : option N := digit_in digit_runs c.

Definition is_digit (c : N) : bool :=
  match digit_value c with Some _ => true | None => false end.

(** [str.strip()] *)
Fixpoint lstrip (s : str) : str :=
  match s with
  | c :: t => if is_space c then lstrip t else s
  | [] => []
  end.

Definition rstrip (s : str) : str := rev (lstrip (rev s)).

Definition strip (s : str) : str := rstrip (lstrip s).

(** [sep.join(parts)] *)
Fixpoint join (sep : str) (parts : list str) : str :=
  match parts with
  | [] => []
  | [p] => p
  | p :: rest => p ++ sep ++ join sep rest
  end.

(** [s.split(c)] for a separator of one code point. *)
Fixpoint split_on (c : N) (s : str) : list str :=
  match s with
  | [] => [[]]
  | x :: t =>
      if (x =? c)%N then [] :: split_on c t
      else match split_on c t with
           | p :: ps => (x :: p) :: ps
           | [] => [[x]]
           end
  end.

(** [s.startswith(p)] *)
Fixpoint startswith (p s : str) : bool :=
  match p, s with
  | [], _ => true
  | a :: p', b :: s' => (a =? b)%N && startswith p' s'
  | _ :: _, [] => false
  end.

(** [p in s] for two strs: [p] occurs in [s]. *)
Fixpoint contains (p s : str) : bool :=
  startswith p s || match s with
                    | [] => false
                    | _ :: t => contains p t
                    end.

(** [s.replace(old, new)] for a non-empty [old]: occurrences are replaced
    from the left and do not overlap; [skip] counts the code points of the
    occurrence being consumed. *)
Fixpoint replace_from (skip : nat) (old new s : str) : str :=
  match s with
  | [] => []
  | c :: t =>
      match skip with
      | S k => replace_from k old new t
      | O =>
          if startswith old s
          then new ++ replace_from (Nat.pred (length old)) old new t
          else c :: replace_from O old new t
      end
  end.

Definition replace (old new s : str) : str := replace_from O old new s.

(** [last (s.split('/'))], that is [s.split('/')[-1]]. *)
Definition last_part (c : N) (s : str) : str :=
  match rev (split_on c s) with
  | p :: _ => p
  | [] => []
  end.

Definition digit_char (d : Z) : N := (48 + Z.to_N d)%N.

Fixpoint chars_of_uint (d : Decimal.uint) : str :=
  match d with
  | Decimal.Nil => []
  | Decimal.D0 r => 48%N :: chars_of_uint r
  | Decimal.D1 r => 49%N :: chars_of_uint r
  | Decimal.D2 r => 50%N :: chars_of_uint r
  | Decimal.D3 r => 51%N :: chars_of_uint r
  | Decimal.D4 r => 52%N :: chars_of_uint r
  | Decimal.D5 r => 53%N :: chars_of_uint r
  | Decimal.D6 r => 54%N :: chars_of_uint r
  | Decimal.D7 r => 55%N :: chars_of_uint r
  | Decimal.D8 r => 56%N :: chars_of_uint r
  | Decimal.D9 r => 57%N :: chars_of_uint r
  end.

(** [str(n)] of an int. *)
Definition of_int (z : Z) : str :=
  if z <? 0 then 45%N :: chars_of_uint (N.to_uint (Z.to_N (- z)))
  else chars_of_uint (N.to_uint (Z.to_N z)).

(** [format(n, '02d')]: at least two characters, padded with zeros; a
    negative number already has two. *)
Definition pad2 (z : Z) : str :=
  if (0 <=? z) && (z <? 10) then 48%N :: of_int z else of_int z.

(** [int(s)] on a run of decimal digits, as the groups of the patterns
    are; [None] where [int] raises ValueError.  (Signs, blanks and
    underscores, which [int] also reads, never reach it here.) *)
Fixpoint digits_value (acc : Z) (s : str) : option Z :=
  match s with
  | [] => Some acc
  | c :: t =>
      match digit_value c with
      | Some d => digits_value (10 * acc + Z.of_N d) t
      | None => None
      end
  end.

Definition int_of_digits (s : str) : option Z :=
  match s with
  | [] => None
  | _ => digits_value 0 s
  end.

End Str.
Export Str.

(** ** Numbers *)

Module Num.

(** A Python float: a finite double is a rational number (every theorem
    below holds for all rationals, the doubles among them), or one of the
    three special values. *)
Inductive pyfloat :=
| Finite (q : Q)
| PosInf
| NegInf
| NaN.

(** The numbers a caption offset can be. *)
Inductive pynum :=
| PInt (z : Z)
| PFloat (x : pyfloat).

(** [float(z)] of an int: the nearest double, ties to the even mantissa;
    [None] is OverflowError (the rounded value would reach 2^1024). *)
Definition float_of_int (z : Z) : option pyfloat :=
  let a := Z.abs z in
  if a <? 2 ^ 53 then Some (Finite (inject_Z z))
  else
    let e := Z.log2 a - 52 in
    let q := a / 2 ^ e in
    let r := a mod 2 ^ e in
    let half := 2 ^ (e - 1) in
    let m := if r <? half then q
             else if half <? r then q + 1
             else if Z.even q then q else q + 1 in
    let v := m * 2 ^ e in
    if 2 ^ 1024 <=? v then None
    else Some (Finite (inject_Z (Z.sgn z * v))).

(** [int(x)] of a float truncates toward zero; it raises on the special
    values ([None]). *)
Definition int_of_float (x : pyfloat) : option Z :=
  match x with
  | Finite q => Some (Z.quot (Qnum q) (Z.pos (Qden q)))
  | PosInf | NegInf | NaN => None
  end.

(** [a < b] and [a <= b] on floats: false as soon as one side is NaN. *)
Definition flt (a b : pyfloat) : bool :=
  match a, b with
  | NaN, _ | _, NaN => false
  | _, NegInf => false
  | NegInf, _ => true
  | PosInf, _ => false
  | _, PosInf => true
  | Finite p, Finite q => negb (Qle_bool q p)
  end.

Definition fle (a b : pyfloat) : bool :=
  match a, b with
  | NaN, _ | _, NaN => false
  | NegInf, _ => true
  | _, NegInf => false
  | _, PosInf => true
  | PosInf, _ => false
  | Finite p, Finite q => Qle_bool p q
  end.

(** [min(a, b)] and [max(a, b)] of two arguments keep the first unless the
    second is strictly smaller (greater). *)
Definition py_min (a b : pyfloat) : pyfloat := if flt b a then b else a.
Definition py_max (a b : pyfloat) : pyfloat := if flt a b then b else a.

(** [round(q)] of a finite number: the nearest integer, a tie goes to the
    even one. *)
Definition round_half_even (q : Q) : Z :=
  let n := Qnum q in
  let d := Z.pos (Qden q) in
  let f := n / d in
  let r := n mod d in
  if 2 * r <? d then f
  else if d <? 2 * r then f + 1
  else if Z.even f then f else f + 1.

(** [int(round(x))]; [None] where [round] raises. *)
Definition py_round (x : pyfloat) : option Z :=
  match x with
  | Finite q => Some (round_half_even q)
  | PosInf | NegInf | NaN => None
  end.

Definition of_Z (z : Z) : pyfloat := Finite (inject_Z z).

End Num.
Export Num.

(** ** Time codec *)

Module TimeCodec.

(** [format_time(seconds)]: [int(float(seconds))], then the three fields;
    [//] and [%] are floor division and its remainder, as [Z.div] and
    [Z.modulo] are.  Any exception gives the literal of zero. *)
Definition total_seconds (seconds : pynum) : option Z :=
  match seconds with
  | PInt z =>
      match float_of_int z with
      | Some x => int_of_float x
      | None => None
      end
  | PFloat x => int_of_float x
  end.

Definition render_time (total : Z) : str :=
  let hours := total / 3600 in
  let minutes := (total mod 3600) / 60 in
  let seconds := total mod 60 in
  u "[" ++ pad2 hours ++ u ":" ++ pad2 minutes ++ u ":" ++ pad2 seconds
    ++ u "]".

Definition format_time (seconds : pynum) : str :=
  match total_seconds seconds with
  | Some total => render_time total
  | None => u "[00:00:00]"
  end.

(** The pattern [^(\d{1,2}):?(\d{2}):?(\d{2})$] of [extract_segments],
    matched as [re] does it: each greedy choice first, the shorter one
    after a failure. *)

(** [$]: the end of the string, or just before a final newline. *)
Definition at_end (s : str) : bool :=
  match s with
  | [] => true
  | [c] => (c =? 10)%N
  | _ => false
  end.

(** [(\d{2})] at the head of [s]: the group and the rest. *)
Definition two_digits (s : str) : option (str * str) :=
  match s with
  | a :: b :: r => if is_digit a && is_digit b then Some ([a; b], r) else None
  | _ => None
  end.

(** [:?]: the rests to try, in order. *)
Definition opt_colon (s : str) : list str :=
  match s with
  | c :: r => if (c =? 58)%N then [r; s] else [s]
  | [] => [s]
  end.

Fixpoint first_match {A B : Type} (f : A -> option B) (l : list A) : option B :=
  match l with
  | [] => None
  | x :: rest =>
      match f x with
      | Some y => Some y
      | None => first_match f rest
      end
  end.

(** [(\d{2})$] *)
Definition match_seconds (s : str) : option str :=
  match two_digits s with
  | Some (g3, r) => if at_end r then Some g3 else None
  | None => None
  end.

(** [(\d{2}):?(\d{2})$] *)
Definition match_minutes (s : str) : option (str * str) :=
  match two_digits s with
  | Some (g2, r) =>
      first_match (fun r' => match match_seconds r' with
                             | Some g3 => Some (g2, g3)
                             | None => None
                             end) (opt_colon r)
  | None => None
  end.

(** [(\d{1,2})] at the head of [s]: two digits first, then one. *)
Definition hour_digits (s : str) : list (str * str) :=
  match s with
  | a :: b :: r =>
      if is_digit a then
        if is_digit b then [([a; b], r); ([a], b :: r)] else [([a], b :: r)]
      else []
  | [a] => if is_digit a then [([a], [])] else []
  | [] => []
  end.

(** [time_pattern.match(s)]: the three groups. *)
Definition time_pattern_match (s : str) : option (str * str * str) :=
  first_match (fun '(g1, r) =>
      first_match (fun r' => match match_minutes r' with
                             | Some (g2, g3) => Some (g1, g2, g3)
                             | None => None
                             end) (opt_colon r))
    (hour_digits s).

(** The local [time_to_seconds]: [h, m, s = map(int, t.split(':'))];
    [None] where it raises (not three parts, or a part [int] rejects).
    The program applies it to the timecodes it has normalized and to the
    groups of a matched line, whose parts are runs of digits. *)
Definition time_to_seconds (time_str : str) : option Z :=
  match split_on 58%N time_str with
  | [h; m; s] =>
      match int_of_digits h, int_of_digits m, int_of_digits s with
      | Some h', Some m', Some s' => Some (h' * 3600 + m' * 60 + s')
      | _, _, _ => None
      end
  | _ => None
  end.

(** The hour of a match rendered again: [f"{int(g1):02d}:{g2}:{g3}"]. *)
Definition normalize_match (g : str * str * str) : option str :=
  let '(g1, g2, g3) := g in
  match int_of_digits g1 with
  | Some h => Some (pad2 h ++ u ":" ++ g2 ++ u ":" ++ g3)
  | None => None
  end.

(** The timecode reader of [extract_segments] on one field: strip, match,
    normalize; the canonical text and its seconds. *)
Definition parse_timecode (raw : str) : option (str * Z) :=
  match time_pattern_match (strip raw) with
  | Some g =>
      match normalize_match g with
      | Some t =>
          match time_to_seconds t with
          | Some secs => Some (t, secs)
          | None => None
          end
      | None => None
      end
  | None => None
  end.

(** Removing the brackets that [format_time] puts around a timecode
    ([s.strip('[]')]). *)
Fixpoint lstrip_brackets (s : str) : str :=
  match s with
  | c :: t => if ((c =? 91) || (c =? 93))%N then lstrip_brackets t else s
  | [] => []
  end.

Definition strip_brackets (s : str) : str :=
  rev (lstrip_brackets (rev (lstrip_brackets s))).

End TimeCodec.
Export TimeCodec.

(** ** Caption cleaning and the transcript loops *)

Module Transcript.

(** [re.sub(r'<[^>]+>', '', text)].  A match starts at a [<] that is
    followed by at least one code point other than [>] and then a [>];
    the greedy class runs to the first [>], so [tag_ahead] decides the
    match and [inside] skips to its end. *)
Fixpoint tag_ahead_from (seen : bool) (s : str) : bool :=
  match s with
  | [] => false
  | c :: t => if (c =? 62)%N then seen else tag_ahead_from true t
  end.

Definition tag_ahead (s : str) : bool := tag_ahead_from false s.

Fixpoint strip_tags_from (inside : bool) (s : str) : str :=
  match s with
  | [] => []
  | c :: t =>
      if inside then
        if (c =? 62)%N then strip_tags_from false t
        else strip_tags_from true t
      else if (c =? 60)%N && tag_ahead t then strip_tags_from true t
      else c :: strip_tags_from false t
  end.

Definition strip_tags (s : str) : str := strip_tags_from false s.

(** [re.sub(r'\s+', ' ', text)]: every maximal run of whitespace becomes
    one space. *)
Fixpoint collapse_from (in_run : bool) (s : str) : str :=
  match s with
  | [] => []
  | c :: t =>
      if is_space c then
        if in_run then collapse_from true t
        else 32%N :: collapse_from true t
      else c :: collapse_from false t
  end.

Definition collapse_spaces (s : str) : str := collapse_from false s.

Definition ZWSP : N := 0x200b%N.
Definition BOM : N := 0xfeff%N.

(** [text.replace(ZWSP, '').replace(BOM, '')], with the two escapes
    U+200B and U+FEFF of the source. *)
Definition drop_zero_width (s : str) : str :=
  replace [BOM] [] (replace [ZWSP] [] s).

(** [clean_text(text)] on a str, in the order of the source: tags,
    whitespace, zero-width characters, strip. *)
Definition clean_text (text : str) : str :=
  strip (drop_zero_width (collapse_spaces (strip_tags text))).

(** A raw caption item of the transcript API: [item['start']] and
    [item['text']]. *)
Record caption_item := {
  item_start : pynum;
  item_text : str
}.

(** The state of the first loop: [formatted_subtitles], [current_time]
    and [current_text]. *)
Record merge_state := {
  formatted_subtitles : list str;
  current_time : option str;
  current_text : list str
}.

(** [f"{current_time} {' '.join(current_text)}"] *)
Definition render_line (time : str) (texts : list str) : str :=
  time ++ u " " ++ join (u " ") texts.

(** [if current_time and current_text: formatted_subtitles.append(...)] *)
Definition flush (st : merge_state) : list str :=
  match current_time st, current_text st with
  | Some (c :: t), _ :: _ =>
      formatted_subtitles st ++ [render_line (c :: t) (current_text st)]
  | _, _ => formatted_subtitles st
  end.

(** One turn of the loop over the transcript of the API. *)
Definition merge_step (st : merge_state) (item : caption_item) : merge_state :=
  let time := format_time (item_start item) in
  let text := clean_text (item_text item) in
  match text with
  | [] => st
  | _ :: _ =>
      if bool_decide (current_time st = Some time) then
        {| formatted_subtitles := formatted_subtitles st;
           current_time := current_time st;
           current_text := current_text st ++ [text] |}
      else
        {| formatted_subtitles := flush st;
           current_time := Some time;
           current_text := [text] |}
  end.

(** The transcript built from the items of the transcript API (lines 170
    to 192). *)
Definition normalize_api (transcript : list caption_item) : list str :=
  flush (fold_left merge_step transcript
           {| formatted_subtitles := []; current_time := None;
              current_text := [] |}).

(** An item of the caption track of yt-dlp, read with
    [item.get('start', 0)] and [item.get('text', '')]. *)
Record track_item := {
  track_start : option pynum;
  track_text : option str
}.

(** The transcript built from the caption track (lines 205 to 210): one
    line per item whose cleaned text is not empty. *)
Fixpoint normalize_track (transcript : list track_item) : list str :=
  match transcript with
  | [] => []
  | item :: rest =>
      let time := format_time (default (PInt 0) (track_start item)) in
      let text := clean_text (default [] (track_text item)) in
      match text with
      | [] => normalize_track rest
      | _ :: _ => (time ++ u " " ++ text) :: normalize_track rest
      end
  end.

End Transcript.
Export Transcript.

(** ** Values of the model reply, and the outside world *)

Module World.

(** What [json.loads] returns. *)
#[local] Unset Elimination Schemes.
Inductive json :=
| JNull
| JBool (b : bool)
| JInt (z : Z)
| JFloat (x : pyfloat)
| JStr (s : str)
| JArr (items : list json)
| JObj (fields : list (str * json)).
#[local] Set Elimination Schemes.

(** The parts of [urlparse(url)] that the program reads. *)
Record parsed_url := {
  hostname : option str;
  path : str;
  query : str
}.

(** The arguments of the trim command that vary: [-i], [-ss], [-t] and the
    output file. *)
Record ffmpeg_cmd := {
  ff_input : str;
  ff_ss : Z;
  ff_t : Z;
  ff_output : str
}.

(** How [ydl.download] ends: it returns with the file written, or raises,
    with or without a file left behind. *)
Inductive download_outcome :=
| Downloaded
| DownloadError (file_left : bool).

(** A file of the working directory. *)
Inductive file :=
| Text (content : str)
| Video.

(** The library calls and external commands, by their results. [None] is
    a raised exception. *)
Class External := {
  (** [urllib.parse.urlparse] *)
  urlparse : str -> option parsed_url;
  (** [urllib.parse.parse_qs], the items of the dict it returns *)
  parse_qs : str -> list (str * list str);
  (** [json.loads] *)
  json_loads : str -> option json;
  (** [float(s)] on a str; [None] is ValueError *)
  float_of_str : str -> option pyfloat;
  (** [str(v)] on a value that is not a str *)
  repr : json -> str;
  (** [open(path).read().splitlines()] *)
  read_lines : str -> option (list str);
  (** [ydl.download] of a video id *)
  download : str -> download_outcome;
  (** [subprocess.run(ffmpeg_cmd).returncode]; the command is taken to
      touch no file but its output, which is there after a status of 0 *)
  run_ffmpeg : ffmpeg_cmd -> Z;
  (** [open(path, 'w')] and the write that follows succeed; otherwise
      they raise (the directory of the path is missing, the name is
      refused by the system, ...) and no file is made *)
  can_write : str -> bool
}.

(** [d.get(k)] on the items of a dict (its keys are distinct). *)
Fixpoint obj_get {A : Type} (o : list (str * A)) (k : str) : option A :=
  match o with
  | [] => None
  | (k', v) :: rest => if Str.eqb k' k then Some v else obj_get rest k
  end.

Definition DOWNLOADS_DIR : str := u "downloads".

(** The parts of a path that pathlib keeps: the runs between slashes,
    without the empty ones and the single dots. *)
Definition path_parts (name : str) : list str :=
  List.filter (fun p => negb (Str.eqb p []) && negb (Str.eqb p (u ".")))
    (split_on 47%N name).

(** [str(DOWNLOADS_DIR / name)] with the paths of POSIX: the kept parts
    of [name] follow the directory, joined by single slashes; a [name]
    that starts with a slash is absolute and replaces the directory (a
    root of exactly two slashes stays doubled). *)
Definition in_downloads (name : str) : str :=
  if startswith (u "///") name then u "/" ++ join (u "/") (path_parts name)
  else if startswith (u "//") name then u "//" ++ join (u "/") (path_parts name)
  else if startswith (u "/") name then u "/" ++ join (u "/") (path_parts name)
  else join (u "/") (DOWNLOADS_DIR :: path_parts name).

End World.
Export World.

(** ** extract_video_id *)

Module VideoId.
Section VideoId.
Context `{External}.

(** The body of the [try]: [None] when an exception leaves it, otherwise
    the value returned (an id, or Python's None). *)
Definition video_id_of (url : str) : option (option str) :=
  match urlparse url with
  | None => None
  | Some parsed =>
      if bool_decide (hostname parsed = Some (u "www.youtube.com"))
         || bool_decide (hostname parsed = Some (u "youtube.com"))
      then
        if Str.eqb (path parsed) (u "/watch") then
          match obj_get (parse_qs (query parsed)) (u "v") with
          | Some (v :: _) => Some (Some v)
          | Some [] => None
          | None => Some None
          end
        else if startswith (u "/live/") (path parsed)
                || startswith (u "/shorts/") (path parsed)
        then Some (Some (last_part 47%N (path parsed)))
        else Some None
      else if bool_decide (hostname parsed = Some (u "youtu.be"))
      then Some (Some (tail (path parsed)))
      else Some None
  end.

(** [extract_video_id(url)]: the handler turns every exception into
    None. *)
Definition extract_video_id (url : str) : option str :=
  match video_id_of url with
  | Some result => result
  | None => None
  end.

End VideoId.
End VideoId.
Export VideoId.

(** ** filter_subtitles_by_time *)

Module Excerpt.

(** [re.match] of the line pattern: an opening bracket, three groups
    [(\d{2})] separated by colons, a closing bracket; its last group takes
    whatever follows on the line, so it never fails.  The three groups. *)
Definition line_match (line : str) : option (str * str * str) :=
  match line with
  | 91%N :: r0 =>
      match two_digits r0 with
      | Some (h, 58%N :: r1) =>
          match two_digits r1 with
          | Some (m, 58%N :: r2) =>
              match two_digits r2 with
              | Some (s, 93%N :: _) => Some (h, m, s)
              | _ => None
              end
          | _ => None
          end
      | _ => None
      end
  | _ => None
  end.

(** The seconds of a transcript line, as the loop computes them:
    [time_to_seconds(f"{h}:{m}:{s}")]. *)
Definition line_seconds (line : str) : option (option Z) :=
  match line_match line with
  | Some (h, m, s) => Some (time_to_seconds (h ++ u ":" ++ m ++ u ":" ++ s))
  | None => None
  end.

(** The loop over the lines; [None] when an exception leaves it. *)
Fixpoint filter_loop (start_seconds end_seconds : Z) (subtitles : list str)
    (filtered : list str) : option (list str) :=
  match subtitles with
  | [] => Some filtered
  | line :: rest =>
      match strip line with
      | [] => filter_loop start_seconds end_seconds rest filtered
      | _ :: _ =>
          match line_seconds line with
          | Some (Some subtitle_seconds) =>
              if (start_seconds <=? subtitle_seconds)
                 && (subtitle_seconds <=? end_seconds)
              then filter_loop start_seconds end_seconds rest
                     (filtered ++ [line])
              else filter_loop start_seconds end_seconds rest filtered
          | Some None => None
          | None => filter_loop start_seconds end_seconds rest filtered
          end
      end
  end.

(** [filter_subtitles_by_time(subtitles, start_time, end_time)]: the
    handler returns the empty list. *)
Definition filter_subtitles_by_time (subtitles : list str)
    (start_time end_time : str) : list str :=
  match time_to_seconds start_time, time_to_seconds end_time with
  | Some start_seconds, Some end_seconds =>
      match filter_loop start_seconds end_seconds subtitles [] with
      | Some filtered => filtered
      | None => []
      end
  | _, _ => []
  end.

End Excerpt.
Export Excerpt.

(** ** extract_segments *)

Module Segments.

(** One entry of [results]. *)
Record clip_record := {
  start_time : str;
  end_time : str;
  video_title : str;
  subtitle_file : str;
  video_file : str;
  title : json;
  impact : Z;
  uniqueness : Z;
  timeliness : Z;
  entertainment : Z;
  reason : str
}.

(** The working directory: the files that exist, by path. *)
Abbreviation files := (gmap str file).

(** The variables the segment loop updates. *)
Record loop_state := {
  results : list clip_record;
  disk : files
}.

(** Why a segment is left out: the four [continue] statements of the loop
    body and the two handlers around it. *)
Inductive skip_reason :=
| MissingField      (* a required field is absent *)
| SegmentError      (* an exception reached the outer handler *)
| BadTimecode       (* the pattern rejected start or end *)
| TimeError         (* an exception reached the inner handler *)
| TrimFailed.       (* the trim command returned a non-zero status *)

Inductive verdict :=
| Skip (why : skip_reason)
| Emit (r : clip_record).

Definition required_fields : list str :=
  [u "start"; u "end"; u "impact"; u "uniqueness"; u "timeliness";
   u "entertainment"; u "reason"].

Definition score_fields : list str :=
  [u "impact"; u "uniqueness"; u "timeliness"; u "entertainment"].

(** [all(field in segment for field in required_fields)] on a dict. *)
Definition has_required (o : list (str * json)) : bool :=
  forallb (fun field => bool_decide (is_Some (obj_get o field)))
    required_fields.

(** How [float(value)] ends. *)
Inductive coercion :=
| Coerced (x : pyfloat)
| Rejected          (* ValueError or TypeError *)
| Overflow.         (* OverflowError *)

(** The fallback of the reason, and the prefix of the default title. *)
Definition REASON_FALLBACK : str :=
  [0x7406; 0x7531; 0x304c; 0x5341; 0x5206; 0x306b; 0x8aac; 0x660e; 0x3055;
   0x308c; 0x3066; 0x3044; 0x307e; 0x305b; 0x3093; 0x3002]%N.

Definition TITLE_PREFIX : str := [0x5207; 0x308a; 0x629c; 0x304d; 0x20]%N.

Definition SUBTITLES_SUFFIX : str := u "_subtitles.txt".

(** [score = max(1, min(10, score))] when [1 <= score <= 10] fails. *)
Definition clamp (score : pyfloat) : pyfloat :=
  if fle (of_Z 1) score && fle score (of_Z 10) then score
  else py_max (of_Z 1) (py_min (of_Z 10) score).

(** [field in segment] when the segment is a list: some element is a str
    equal to the field. *)
Definition str_member (field : str) (items : list json) : bool :=
  existsb (fun v => match v with
                    | JStr s => Str.eqb s field
                    | _ => false
                    end) items.

Section Segments.
Context `{External}.

Definition py_float (value : json) : coercion :=
  match value with
  | JInt z =>
      match float_of_int z with
      | Some x => Coerced x
      | None => Overflow
      end
  | JFloat x => Coerced x
  | JBool b => Coerced (of_Z (if b then 1 else 0))
  | JStr s =>
      match float_of_str s with
      | Some x => Coerced x
      | None => Rejected
      end
  | JNull | JArr _ | JObj _ => Rejected
  end.

(** The body of the loop over [score_fields] for one field; [None] when an
    exception other than ValueError and TypeError leaves it.  ([round]
    itself never raises here: [clamp] leaves a finite number.) *)
Definition normalize_score (value : json) : option Z :=
  match py_float value with
  | Coerced score => py_round (clamp score)
  | Rejected => Some 5
  | Overflow => None
  end.

(** [str(value)] *)
Definition py_str (value : json) : str :=
  match value with
  | JStr s => s
  | _ => repr value
  end.

(** [value.strip()]: only a str has the method. *)
Definition strip_field (value : json) : option str :=
  match value with
  | JStr s => Some (strip s)
  | _ => None
  end.

Definition clip_name (video_id start_time end_time : str) : str :=
  u "clip_" ++ video_id ++ u "_" ++ replace (u ":") (u "_") start_time
    ++ u "_" ++ replace (u ":") (u "_") end_time.

Definition temp_path (video_id : str) : str :=
  in_downloads (u "temp_" ++ video_id ++ u ".mp4").

(** The [ffmpeg_cmd] list of a segment. *)
Definition trim_command (video_id : str) (start_seconds duration : Z)
    (output_path : str) : ffmpeg_cmd :=
  {| ff_input := temp_path video_id;
     ff_ss := start_seconds;
     ff_t := duration;
     ff_output := output_path |}.

(** The two files of a segment. *)
Definition excerpt_path (video_id start_time end_time : str) : str :=
  in_downloads (clip_name video_id start_time end_time ++ SUBTITLES_SUFFIX).

Definition clip_path (video_id start_time end_time : str) : str :=
  in_downloads (clip_name video_id start_time end_time ++ u ".mp4").

(** ['\n'.join(lines)] *)
Definition join_lines (lines : list str) : str := join [10%N] lines.

(** [os.path.basename(str(subtitle_file)).replace('_subtitles.txt', '')] *)
Definition title_of_file (subtitle_file : str) : str :=
  replace SUBTITLES_SUFFIX [] (last_part 47%N subtitle_file).

Definition reason_of (value : json) : str :=
  let r := strip (py_str value) in
  if (10 <=? length r)%nat then r else REASON_FALLBACK.

(** The body of the loop for a segment that is a dict: the verdict and
    the working directory afterwards.  [count] is [len(results)].  A
    write of the excerpt file that raises reaches the inner handler, as
    the other exceptions of the time block do. *)
Definition process_dict (video_id subtitle_path : str)
    (all_subtitles : list str) (count : nat) (d : files)
    (o : list (str * json)) : verdict * files :=
  if negb (has_required o) then (Skip MissingField, d) else
  match normalize_score (default JNull (obj_get o (u "impact"))),
        normalize_score (default JNull (obj_get o (u "uniqueness"))),
        normalize_score (default JNull (obj_get o (u "timeliness"))),
        normalize_score (default JNull (obj_get o (u "entertainment"))) with
  | Some s_impact, Some s_uniqueness, Some s_timeliness, Some s_entertainment =>
      match strip_field (default JNull (obj_get o (u "start"))),
            strip_field (default JNull (obj_get o (u "end"))) with
      | Some raw_start, Some raw_end =>
          match time_pattern_match raw_start, time_pattern_match raw_end with
          | Some start_match, Some end_match =>
              match normalize_match start_match, normalize_match end_match with
              | Some start_t, Some end_t =>
                  match time_to_seconds start_t, time_to_seconds end_t with
                  | Some start_seconds, Some end_seconds =>
                      let duration := end_seconds - start_seconds in
                      let segment_subtitles :=
                        filter_subtitles_by_time all_subtitles start_t end_t in
                      let segment_subtitle_path :=
                        excerpt_path video_id start_t end_t in
                      if negb (can_write segment_subtitle_path)
                      then (Skip TimeError, d) else
                      let d1 :=
                        <[segment_subtitle_path :=
                            Text (join_lines segment_subtitles)]> d in
                      let output_path := clip_path video_id start_t end_t in
                      let cmd := trim_command video_id start_seconds
                                   duration output_path in
                      if negb (run_ffmpeg cmd =? 0) then (Skip TrimFailed, d1)
                      else
                        (Emit {| start_time := start_t;
                                 end_time := end_t;
                                 video_title := title_of_file subtitle_path;
                                 subtitle_file := segment_subtitle_path;
                                 video_file := output_path;
                                 title :=
                                   default
                                     (JStr (TITLE_PREFIX
                                            ++ of_int (Z.of_nat count + 1)))
                                     (obj_get o (u "title"));
                                 impact := s_impact;
                                 uniqueness := s_uniqueness;
                                 timeliness := s_timeliness;
                                 entertainment := s_entertainment;
                                 reason :=
                                   reason_of
                                     (default JNull (obj_get o (u "reason"))) |},
                         <[output_path := Video]> d1)
                  | _, _ => (Skip TimeError, d)
                  end
              | _, _ => (Skip TimeError, d)
              end
          | _, _ => (Skip BadTimecode, d)
          end
      | _, _ => (Skip TimeError, d)
      end
  | _, _, _, _ => (Skip SegmentError, d)
  end.

(** The body of the loop for any element of the array.  An element that
    is not a dict never gets through: [field in segment] raises on a
    number, a boolean or null, and on a list or a str that holds every
    field name [segment[field]] raises in the score handler, whose own
    message reads [segment[field]] again; the outer handler skips it. *)
Definition process_segment (video_id subtitle_path : str)
    (all_subtitles : list str) (count : nat) (d : files)
    (segment : json) : verdict * files :=
  match segment with
  | JObj o => process_dict video_id subtitle_path all_subtitles count d o
  | JArr items =>
      if forallb (fun field => str_member field items) required_fields
      then (Skip SegmentError, d) else (Skip MissingField, d)
  | JStr s =>
      if forallb (fun field => contains field s) required_fields
      then (Skip SegmentError, d) else (Skip MissingField, d)
  | JNull | JBool _ | JInt _ | JFloat _ => (Skip SegmentError, d)
  end.

(** One turn of [for i, segment in enumerate(segments, 1)]. *)
Definition loop_step (video_id subtitle_path : str)
    (all_subtitles : list str) (st : loop_state) (segment : json)
    : loop_state :=
  match process_segment video_id subtitle_path all_subtitles
          (length (results st)) (disk st) segment with
  | (Emit r, d) => {| results := results st ++ [r]; disk := d |}
  | (Skip _, d) => {| results := results st; disk := d |}
  end.

Definition run_loop (video_id subtitle_path : str)
    (all_subtitles : list str) (segments : list json) (st : loop_state)
    : loop_state :=
  fold_left (loop_step video_id subtitle_path all_subtitles) segments st.

(** [if not temp_path.exists(): ydl.download(...)]: the working directory
    afterwards, or [None] with what the failed download left. *)
Definition ensure_source (video_id : str) (d : files) : files + files :=
  match d !! temp_path video_id with
  | Some _ => inl d
  | None =>
      match download video_id with
      | Downloaded => inl (<[temp_path video_id := Video]> d)
      | DownloadError true => inr (<[temp_path video_id := Video]> d)
      | DownloadError false => inr d
      end
  end.

(** [extract_segments(gpt_response, subtitle_file, video_url)] started in
    the working directory [d]: what it returns ([None] is Python's None)
    and the working directory it leaves. *)
Definition extract_segments (gpt_response subtitle_path video_url : str)
    (d : files) : option (list clip_record) * files :=
  match json_loads gpt_response with
  | None => (None, d)
  | Some (JArr (first :: others)) =>
      match extract_video_id video_url with
      | Some (c :: rest) =>
          let video_id := c :: rest in
          match read_lines subtitle_path with
          | None => (None, d)
          | Some all_subtitles =>
              match ensure_source video_id d with
              | inr d' => (None, delete (temp_path video_id) d')
              | inl d1 =>
                  let st :=
                    run_loop video_id subtitle_path all_subtitles
                      (first :: others) {| results := []; disk := d1 |} in
                  let d2 := delete (temp_path video_id) (disk st) in
                  match results st with
                  | [] => (None, d2)
                  | _ :: _ => (Some (results st), d2)
                  end
              end
          end
      | Some [] | None => (None, d)
      end
  | Some _ => (None, d)
  end.

End Segments.
End Segments.
Export Segments.

(** ** The notions the statements use *)

Module Notions.

(** The seconds the timecode reader gives. *)
Definition timecode_seconds (raw : str) : option Z :=
  snd <$> parse_timecode raw.

(** [c] is the ASCII digit of value [v]. *)
Definition ascii_digit (c : N) (v : Z) : Prop :=
  0 <= v < 10 /\ c = digit_char v.

(** The text [HH:MM:SS] of six digits. *)
Definition canonical (a b c d e f : N) : str :=
  [a; b; 58%N; c; d; 58%N; e; f].

(** A line of the transcript as the data model has it: a timestamp in
    whole seconds and a text, written [[HH:MM:SS] text]. *)
Record timed_line := {
  timestamp : Z;
  text : str
}.

Definition transcript_line (l : timed_line) : str :=
  format_time (PInt (timestamp l)) ++ u " " ++ text l.

Definition in_segment (start_seconds end_seconds : Z) (l : timed_line) : bool :=
  (start_seconds <=? timestamp l) && (timestamp l <=? end_seconds).

(** The seconds of the two timecodes of a record. *)
Definition record_seconds (r : clip_record) : option (Z * Z) :=
  match time_to_seconds (start_time r), time_to_seconds (end_time r) with
  | Some s, Some e => Some (s, e)
  | _, _ => None
  end.

Definition starts_before_end (r : clip_record) : Prop :=
  exists s e, record_seconds r = Some (s, e) /\ s < e.

(** The timecode of a field of a candidate: the field is there, is a str,
    and the reader accepts it. *)
Definition field_timecode (o : list (str * json)) (k : str) : option (str * Z) :=
  match obj_get o k with
  | Some (JStr s) => parse_timecode s
  | _ => None
  end.

(** The cleaned caption items that are kept, as (time, text). *)
Fixpoint kept (transcript : list caption_item) : list (str * str) :=
  match transcript with
  | [] => []
  | item :: rest =>
      match clean_text (item_text item) with
      | [] => kept rest
      | c :: t => (format_time (item_start item), c :: t) :: kept rest
      end
  end.

(** The group that the first loop is gathering, entry by entry. *)
Definition pending (st : merge_state) : list (str * str) :=
  match current_time st with
  | Some t => map (pair t) (current_text st)
  | None => []
  end.

Definition render_group (g : str * list str) : str :=
  render_line (fst g) (snd g).

(** The states the first loop reaches. *)
Definition merge_inv (st : merge_state) : Prop :=
  match current_time st with
  | Some t => t <> [] /\ current_text st <> []
  | None => current_text st = []
  end.

(** Consecutive entries of equal time, gathered in order. *)
Fixpoint groups (l : list (str * str)) : list (str * list str) :=
  match l with
  | [] => []
  | (t, x) :: rest =>
      match groups rest with
      | (t', xs) :: gs =>
          if bool_decide (t = t') then (t, x :: xs) :: gs
          else (t, [x]) :: (t', xs) :: gs
      | [] => [(t, [x])]
      end
  end.

Section Notions.
Context `{External}.

(** The URLs the claim about [extract_video_id] speaks of. *)
Inductive rejected_url (url : str) : Prop :=
| Unparsed :
    urlparse url = None -> rejected_url url
| ForeignHost (p : parsed_url) :
    urlparse url = Some p ->
    hostname p <> Some (u "www.youtube.com") ->
    hostname p <> Some (u "youtube.com") ->
    hostname p <> Some (u "youtu.be") ->
    rejected_url url
| OtherPath (p : parsed_url) :
    urlparse url = Some p ->
    hostname p = Some (u "www.youtube.com")
      \/ hostname p = Some (u "youtube.com") ->
    path p <> u "/watch" ->
    startswith (u "/live/") (path p) = false ->
    startswith (u "/shorts/") (path p) = false ->
    rejected_url url.

(** The per-segment errors: a required field is missing, the start or the
    end is no timecode, or the trim command fails. *)
Inductive segment_error (video_id : str) : json -> Prop :=
| FieldMissing (o : list (str * json)) (field : str) :
    field ∈ required_fields ->
    obj_get o field = None ->
    segment_error video_id (JObj o)
| TimecodeRejected (o : list (str * json)) :
    field_timecode o (u "start") = None
      \/ field_timecode o (u "end") = None ->
    segment_error video_id (JObj o)
| TrimRejected (o : list (str * json)) (st et : str) (ss es : Z) :
    field_timecode o (u "start") = Some (st, ss) ->
    field_timecode o (u "end") = Some (et, es) ->
    run_ffmpeg (trim_command video_id ss (es - ss) (clip_path video_id st et))
      <> 0 ->
    segment_error video_id (JObj o).

(** A candidate that passes every check of the loop body: it has the
    required fields, [float] takes each of its four scores or refuses it
    with ValueError or TypeError, the reader accepts its start and its
    end, the excerpt file can be written and the trim command returns 0.
    Nothing relates the seconds of the start to those of the end. *)
Definition accepted (video_id : str) (o : list (str * json))
    (st : str) (ss : Z) (et : str) (es : Z) : Prop :=
  has_required o = true
  /\ (forall field, In field score_fields ->
        py_float (default JNull (obj_get o field)) <> Overflow)
  /\ field_timecode o (u "start") = Some (st, ss)
  /\ field_timecode o (u "end") = Some (et, es)
  /\ can_write (excerpt_path video_id st et) = true
  /\ run_ffmpeg (trim_command video_id ss (es - ss)
                   (clip_path video_id st et)) = 0.

(** The segment loop started with no result in the working directory
    [d]. *)
Definition loop_from (video_id subtitle_path : str)
    (all_subtitles : list str) (segments : list json) (d : files)
    : loop_state :=
  run_loop video_id subtitle_path all_subtitles segments
    {| results := []; disk := d |}.

(** The causes of an overall failure of a run. *)
Inductive run_failure (gpt_response subtitle_path video_url : str)
    (d : files) : Prop :=
| InvalidJson :
    json_loads gpt_response = None ->
    run_failure gpt_response subtitle_path video_url d
| InvalidArray (v : json) :
    json_loads gpt_response = Some v ->
    (forall first others, v <> JArr (first :: others)) ->
    run_failure gpt_response subtitle_path video_url d
| InvalidUrl :
    extract_video_id video_url = None
      \/ extract_video_id video_url = Some [] ->
    run_failure gpt_response subtitle_path video_url d
| TranscriptUnreadable :
    read_lines subtitle_path = None ->
    run_failure gpt_response subtitle_path video_url d
| DownloadFailed (video_id : str) (d' : files) :
    extract_video_id video_url = Some video_id ->
    ensure_source video_id d = inr d' ->
    run_failure gpt_response subtitle_path video_url d
| NoSegmentLeft (segments : list json) (video_id : str)
    (all_subtitles : list str) (d1 : files) :
    json_loads gpt_response = Some (JArr segments) ->
    extract_video_id video_url = Some video_id ->
    read_lines subtitle_path = Some all_subtitles ->
    ensure_source video_id d = inl d1 ->
    results (loop_from video_id subtitle_path all_subtitles segments d1) = [] ->
    run_failure gpt_response subtitle_path video_url d.

End Notions.
End Notions.
Export Notions.

(** ** What a cleaned text is *)

Module Cleaned.

(** [re.search(r'<[^>]+>', s) is not None]: some tag is left in [s]. *)
Fixpoint has_tag (s : str) : bool :=
  match s with
  | [] => false
  | c :: t => ((c =? 60)%N && tag_ahead t) || has_tag t
  end.

Definition angle (c : N) : bool := ((c =? 60) || (c =? 62))%N.

(** [out] is [s] with some code points other than the angle brackets
    removed, or replaced by code points other than the angle brackets. *)
Inductive thinned : str -> str -> Prop :=
| thinned_nil : thinned [] []
| thinned_keep c s out : thinned s out -> thinned (c :: s) (c :: out)
| thinned_drop c s out : angle c = false -> thinned s out -> thinned (c :: s) out
| thinned_swap c c' s out :
    angle c = false -> angle c' = false -> thinned s out ->
    thinned (c :: s) (c' :: out).

(** [s.strip() == s] *)
Definition stripped (s : str) : Prop := lstrip s = s /\ rstrip s = s.

(** No [>] in [s]. *)
Definition no_gt (s : str) : bool := forallb (fun c => negb (c =? 62)%N) s.

End Cleaned.
Export Cleaned.

(** ** Sample worlds and inputs *)

Module Samples.

Definition youtu_be_url : str := u "https://youtu.be/abc".
Definition other_host_url : str := u "https://example.com/watch?v=abc".
Definition embed_url : str := u "https://www.youtube.com/embed/abc".

(** What urlparse gives on the three sample URLs. *)
Definition sample_urlparse (url : str) : option parsed_url :=
  if Str.eqb url youtu_be_url then
    Some {| hostname := Some (u "youtu.be"); path := u "/abc"; query := [] |}
  else if Str.eqb url other_host_url then
    Some {| hostname := Some (u "example.com"); path := u "/watch";
            query := u "v=abc" |}
  else if Str.eqb url embed_url then
    Some {| hostname := Some (u "www.youtube.com"); path := u "/embed/abc";
            query := [] |}
  else None.

(** A world: the decoded reply, the lines of the transcript file, how the
    download ends and the status of the trim command. *)
Definition sample_world (reply : option json) (lines : option (list str))
    (fetched : download_outcome) (status : ffmpeg_cmd -> Z) : External :=
  {| urlparse := sample_urlparse;
     parse_qs := fun _ => [];
     json_loads := fun _ => reply;
     float_of_str := fun _ => None;
     repr := fun _ => [];
     read_lines := fun _ => lines;
     download := fun _ => fetched;
     run_ffmpeg := status;
     can_write := fun _ => true |}.

(** A candidate with every required field. *)
Definition candidate (start_field end_field : str) (impact_field : json) : json :=
  JObj [(u "start", JStr start_field); (u "end", JStr end_field);
        (u "impact", impact_field); (u "uniqueness", JInt 5);
        (u "timeliness", JInt 5); (u "entertainment", JInt 5);
        (u "reason", JStr (u "a sufficiently long reason text"))].

(** The same without its [end]. *)
Definition candidate_without_end : json :=
  JObj [(u "start", JStr (u "00:00:00")); (u "impact", JInt 5);
        (u "uniqueness", JInt 5); (u "timeliness", JInt 5);
        (u "entertainment", JInt 5);
        (u "reason", JStr (u "a sufficiently long reason text"))].

Definition sample_transcript : list str :=
  [u "[00:00:05] hello"; u "[00:00:10] world"].

Definition sample_subtitle_file : str := u "downloads/talk_subtitles.txt".

(** The world in which everything succeeds, for a given reply. *)
Definition fair_world (reply : json) : External :=
  sample_world (Some reply) (Some sample_transcript) Downloaded (fun _ => 0).

End Samples.
Export Samples.

(** ** Sample runs *)

Module SampleRuns.

Definition good_candidate : json :=
  candidate (u "00:00:00") (u "00:00:15") (JInt 5).

Definition later_candidate : json :=
  candidate (u "0:00:10") (u "00:00:20") (JInt 7).

Definition sample_reply : json := JArr [good_candidate].

(** The record of [good_candidate] for the video [abc]. *)
Definition sample_record : clip_record :=
  {| start_time := u "00:00:00";
     end_time := u "00:00:15";
     video_title := u "talk";
     subtitle_file := u "downloads/clip_abc_00_00_00_00_00_15_subtitles.txt";
     video_file := u "downloads/clip_abc_00_00_00_00_00_15.mp4";
     title := JStr (TITLE_PREFIX ++ u "1");
     impact := 5;
     uniqueness := 5;
     timeliness := 5;
     entertainment := 5;
     reason := u "a sufficiently long reason text" |}.

(** The transcript of the samples, line by line. *)
Definition sample_timed_lines : list timed_line :=
  [{| timestamp := 5; text := u "hello" |};
   {| timestamp := 10; text := u "world" |}].

(** A candidate whose start is its end. *)
Definition empty_candidate : json :=
  candidate (u "00:00:10") (u "00:00:10") (JInt 5).

(** A line at one hundred hours, and a candidate whose interval ends
    there. *)
Definition late_lines : list timed_line :=
  [{| timestamp := 360000; text := u "late" |}].

Definition late_candidate : json :=
  candidate (u "99:00:00") (u "99:60:00") (JInt 5).

(** The world in which the download fails. *)
Definition offline_world (reply : json) : External :=
  sample_world (Some reply) (Some sample_transcript) (DownloadError false)
    (fun _ => 0).

(** The world in which the trim command fails. *)
Definition failing_trim_world (reply : json) : External :=
  sample_world (Some reply) (Some sample_transcript) Downloaded (fun _ => 1).

End SampleRuns.
Export SampleRuns.

(** ** More notions: timecodes *)

Module TimecodeShape.

(** A group [(\d{2})] of the timecode pattern, and its group
    [(\d{1,2})]. *)
Definition two_digit_group (g : str) : Prop :=
  exists a b, g = [a; b] /\ is_digit a = true /\ is_digit b = true.

Definition hour_group (g : str) : Prop :=
  (exists a, g = [a] /\ is_digit a = true) \/ two_digit_group g.

(** The largest value three groups can have: 99:99:99. *)
Definition MAX_TIMECODE_SECONDS : Z := 99 * 3600 + 99 * 60 + 99.

End TimecodeShape.
Export TimecodeShape.

(** ** More notions: the files of a run *)

Module RunFiles.

(** The two files of a record are named after the video and its two
    timecodes, and are there: the excerpt as a text, the clip as a
    video. *)
Definition files_in_place (video_id : str) (d : gmap str file)
    (r : clip_record) : Prop :=
  subtitle_file r = excerpt_path video_id (start_time r) (end_time r)
  /\ video_file r = clip_path video_id (start_time r) (end_time r)
  /\ (exists content, d !! subtitle_file r = Some (Text content))
  /\ d !! video_file r = Some Video.

(** The same world with another downloader. *)
Definition with_download (W : External) (fetch : str -> download_outcome)
    : External :=
  {| urlparse := @urlparse W;
     parse_qs := @parse_qs W;
     json_loads := @json_loads W;
     float_of_str := @float_of_str W;
     repr := @repr W;
     read_lines := @read_lines W;
     download := fetch;
     run_ffmpeg := @run_ffmpeg W;
     can_write := @can_write W |}.

End RunFiles.
Export RunFiles.

(** ** More notions: titles *)

Module Titles.

(** The titles of the records so far: the record at position [i] carries
    the default title of number [i + 1], or the title of a candidate of
    [all]. *)
Definition titles_numbered (all : list json) (rs : list clip_record) : Prop :=
  forall (i : nat) (r : clip_record),
    rs !! i = Some r ->
    title r = JStr (TITLE_PREFIX ++ of_int (Z.of_nat i + 1))
    \/ exists o, JObj o ∈ all /\ obj_get o (u "title") = Some (title r).

End Titles.
Export Titles.

(** ** More notions: the lines an excerpt takes *)

Module Selection.

(** The test of the loop of [filter_subtitles_by_time] on one line. *)
Definition selected (start_seconds end_seconds : Z) (line : str) : bool :=
  match line_seconds line with
  | Some (Some t) => (start_seconds <=? t) && (t <=? end_seconds)
  | _ => false
  end.

End Selection.
Export Selection.

(** ** The literals of the other functions, as code points *)

Module Literals.

(** The head of the error of [get_subtitles_from_youtube_transcript_api]. *)
Definition FETCH_FAILED : str :=
  [23383; 24149; 12398; 21462; 24471; 12395; 22833; 25943; 12375; 12414;
   12375; 12383; 58; 32]%N.

(** The error of [get_subtitles_from_yt_dlp] when no track is found. *)
Definition TRACK_NOT_FOUND : str :=
  [23383; 24149; 12364; 35211; 12388; 12363; 12426; 12414; 12379; 12435;
   12391; 12375; 12383]%N.

(** The three errors of [download_video_and_subtitles]. *)
Definition INVALID_URL : str :=
  [28961; 21177; 12394; 89; 111; 117; 84; 117; 98; 101; 32; 85; 82; 76;
   12391; 12377; 12290]%N.

(** No line was left. *)
Definition NO_CONTENT : str :=
  [23383; 24149; 12398; 20869; 23481; 12434; 25277; 20986; 12391; 12365;
   12414; 12379; 12435; 12391; 12375; 12383; 12290]%N.

(** Both methods failed: the head of the message. *)
Definition METHODS_FAILED : str :=
  [23383; 24149; 12398; 21462; 24471; 12395; 22833; 25943; 12375; 12414;
   12375; 12383; 12290; 10; 77; 101; 116; 104; 111; 100; 32; 49; 58;
   32]%N.

(** The [json_format] of [create_gpt_prompt]. *)
Definition json_format : str :=
  [91; 10; 32; 32; 32; 32; 123; 10; 32; 32; 32; 32; 32; 32; 32; 32; 34;
   116; 105; 116; 108; 101; 34; 58; 32; 34; 12475; 12464; 12513; 12531;
   12488; 12398; 12479; 12452; 12488; 12523; 34; 44; 10; 32; 32; 32; 32;
   32; 32; 32; 32; 34; 115; 116; 97; 114; 116; 34; 58; 32; 34; 72; 72; 58;
   77; 77; 58; 83; 83; 34; 44; 10; 32; 32; 32; 32; 32; 32; 32; 32; 34;
   101; 110; 100; 34; 58; 32; 34; 72; 72; 58; 77; 77; 58; 83; 83; 34; 44;
   10; 32; 32; 32; 32; 32; 32; 32; 32; 34; 105; 109; 112; 97; 99; 116; 34;
   58; 32; 25972; 25968; 20516; 40; 49; 45; 49; 48; 41; 44; 10; 32; 32;
   32; 32; 32; 32; 32; 32; 34; 117; 110; 105; 113; 117; 101; 110; 101;
   115; 115; 34; 58; 32; 25972; 25968; 20516; 40; 49; 45; 49; 48; 41; 44;
   10; 32; 32; 32; 32; 32; 32; 32; 32; 34; 116; 105; 109; 101; 108; 105;
   110; 101; 115; 115; 34; 58; 32; 25972; 25968; 20516; 40; 49; 45; 49;
   48; 41; 44; 10; 32; 32; 32; 32; 32; 32; 32; 32; 34; 101; 110; 116; 101;
   114; 116; 97; 105; 110; 109; 101; 110; 116; 34; 58; 32; 25972; 25968;
   20516; 40; 49; 45; 49; 48; 41; 44; 10; 32; 32; 32; 32; 32; 32; 32; 32;
   34; 114; 101; 97; 115; 111; 110; 34; 58; 32; 34; 36984; 25246; 29702;
   30001; 65288; 49; 48; 48; 45; 53; 48; 48; 25991; 23383; 65289; 34; 10;
   32; 32; 32; 32; 125; 10; 93]%N.

(** The four constant parts of [base_prompt], in order. *)
Definition PROMPT_HEAD : str :=
  [12354; 12394; 12383; 12398; 22238; 31572; 12399; 24517; 12378; 74; 83;
   79; 78; 12501; 12457; 12540; 12510; 12483; 12488; 12391; 20986; 21147;
   12375; 12390; 12367; 12384; 12373; 12356; 12290; 35500; 26126; 25991;
   12420; 36861; 21152; 12398; 12467; 12513; 12531; 12488; 12399; 19968;
   20999; 21547; 12417; 12394; 12356; 12391; 12367; 12384; 12373; 12356;
   12290; 10; 10; 20197; 19979; 12398; 21205; 30011; 12300]%N.

(** From the end of the title to the opening [##] line. *)
Definition PROMPT_BEFORE_LINES : str :=
  [12301; 12398; 23383; 24149; 12487; 12540; 12479; 12363; 12425; 12289;
   20999; 12426; 25244; 12365; 12395; 36969; 12375; 12383; 38754; 30333;
   12356; 37096; 20998; 12434; 29305; 23450; 12375; 12289; 74; 83; 79; 78;
   12391; 20986; 21147; 12375; 12390; 12367; 12384; 12373; 12356; 12290;
   10; 10; 35413; 20385; 22522; 28310; 58; 10; 49; 46; 32; 12452; 12531;
   12497; 12463; 12488; 32; 40; 49; 45; 49; 48; 41; 58; 10; 32; 32; 32;
   45; 32; 35222; 32884; 32773; 12398; 24863; 24773; 12434; 24375; 12367;
   25594; 12373; 12406; 12427; 22580; 38754; 10; 32; 32; 32; 45; 32;
   20104; 24819; 22806; 12398; 23637; 38283; 12420; 39514; 12365; 12398;
   12354; 12427; 30636; 38291; 10; 32; 32; 32; 45; 32; 24375; 12356;
   21360; 35937; 12434; 27531; 12377; 30330; 35328; 12420; 34892; 21205;
   10; 10; 50; 46; 32; 29420; 33258; 24615; 32; 40; 49; 45; 49; 48; 41;
   58; 10; 32; 32; 32; 45; 32; 19968; 33324; 30340; 12394; 24847; 35211;
   12420; 24120; 35672; 12392; 12399; 30064; 12394; 12427; 35222; 28857;
   10; 32; 32; 32; 45; 32; 12518; 12491; 12540; 12463; 12394; 20307;
   39443; 12420; 29420; 29305; 12394; 35299; 37320; 10; 32; 32; 32; 45;
   32; 12458; 12522; 12472; 12490; 12522; 12486; 12451; 12398; 12354;
   12427; 34920; 29694; 12420; 35500; 26126; 26041; 27861; 10; 10; 51; 46;
   32; 26178; 20107; 24615; 32; 40; 49; 45; 49; 48; 41; 58; 10; 32; 32;
   32; 45; 32; 29694; 22312; 12398; 12488; 12524; 12531; 12489; 12420;
   35441; 38988; 12392; 12398; 38306; 36899; 24615; 10; 32; 32; 32; 45;
   32; 26368; 26032; 12398; 12491; 12517; 12540; 12473; 12420; 20986;
   26469; 20107; 12408; 12398; 35328; 21450; 10; 32; 32; 32; 45; 32;
   31038; 20250; 30340; 12394; 35696; 35542; 12420; 38306; 24515; 20107;
   12392; 12398; 25509; 28857; 10; 10; 52; 46; 32; 12456; 12531; 12479;
   12540; 12486; 12452; 12513; 12531; 12488; 24615; 32; 40; 49; 45; 49;
   48; 41; 58; 10; 32; 32; 32; 45; 32; 31505; 12356; 12434; 35480; 12358;
   35201; 32032; 10; 32; 32; 32; 45; 32; 12489; 12521; 12510; 12481;
   12483; 12463; 12394; 23637; 38283; 10; 32; 32; 32; 45; 32; 35222;
   32884; 32773; 12398; 33288; 21619; 12434; 24341; 12367; 35441; 38988;
   24615; 10; 10; 35; 35; 10]%N.

(** From the closing [##] line to the format. *)
Definition PROMPT_AFTER_LINES : str :=
  [10; 35; 35; 10; 10; 20986; 21147; 24418; 24335; 58; 32; 24517; 12378;
   74; 83; 79; 78; 12391; 20986; 21147; 12375; 12390; 12367; 12384; 12373;
   12356; 12290; 20197; 19979; 12398; 24418; 24335; 20197; 22806; 12398;
   25991; 31456; 12399; 21547; 12417; 12394; 12356; 12391; 12367; 12384;
   12373; 12356; 12290; 10]%N.

(** The constraints. *)
Definition PROMPT_TAIL : str :=
  [10; 10; 21046; 32004; 26465; 20214; 58; 10; 49; 46; 32; 24517; 12378;
   74; 83; 79; 78; 12392; 12375; 12390; 26377; 21177; 12394; 24418; 24335;
   12391; 20986; 21147; 12377; 12427; 12371; 12392; 10; 50; 46; 32; 21508;
   12475; 12464; 12513; 12531; 12488; 12399; 51; 48; 31186; 20197; 19978;
   12289; 49; 48; 20998; 20197; 20869; 12395; 21454; 12417; 12427; 12371;
   12392; 10; 51; 46; 32; 26368; 22823; 53; 12388; 12398; 12475; 12464;
   12513; 12531; 12488; 12414; 12391; 36984; 25246; 21487; 33021; 10; 52;
   46; 32; 21508; 35413; 20385; 22522; 28310; 12399; 24517; 12378; 49;
   12363; 12425; 49; 48; 12414; 12391; 12398; 25972; 25968; 20516; 12391;
   35413; 20385; 12377; 12427; 12371; 12392; 10; 53; 46; 32; 12475; 12464;
   12513; 12531; 12488; 12398; 38283; 22987; 12539; 32066; 20102; 26178;
   38291; 12399; 23383; 24149; 12398; 12479; 12452; 12511; 12531; 12464;
   12395; 21512; 12431; 12379; 12427; 12371; 12392; 10; 54; 46; 32; 74;
   83; 79; 78; 20197; 22806; 12398; 35500; 26126; 25991; 12420; 12467;
   12513; 12531; 12488; 12434; 21547; 12417; 12394; 12356; 12371; 12392;
   10; 55; 46; 32; 29702; 30001; 12399; 49; 48; 48; 25991; 23383; 20197;
   19978; 12289; 53; 48; 48; 25991; 23383; 20197; 20869; 12391; 35500;
   26126; 12377; 12427; 12371; 12392; 10; 56; 46; 32; 12479; 12452; 12488;
   12523; 12399; 31777; 28500; 12391; 20869; 23481; 12434; 34920; 12377;
   12418; 12398; 12395; 12377; 12427; 12371; 12392; 10; 10; 26368; 24460;
   12398; 27880; 24847; 58; 32; 22238; 31572; 12399; 19978; 35352; 12398;
   74; 83; 79; 78; 12501; 12457; 12540; 12510; 12483; 12488; 12398; 12415;
   12392; 12375; 12289; 12381; 12428; 20197; 22806; 12398; 25991; 31456;
   12399; 19968; 20999; 21547; 12417; 12394; 12356; 12391; 12367; 12384;
   12373; 12356; 12290]%N.

End Literals.
Export Literals.

(** ** The subtitle sources *)

Module Resolver.

(** How [YouTubeTranscriptApi.get_transcript] ends for one language: the
    entries, NoTranscriptFound or TranscriptsDisabled, or another
    exception; the two failures with [str(e)]. *)
Inductive fetch_outcome :=
| Fetched (transcript : list caption_item)
| Unavailable (message : str)
| Unexpected (message : str).

(** The two dicts that [get_subtitles_from_yt_dlp] reads in the info of
    yt-dlp, by their items; [None] is an absent key. *)
Record caption_info := {
  subtitles : option (list (str * list track_item));
  automatic_captions : option (list (str * list track_item))
}.

(** The calls of the subtitle functions into their libraries. *)
Class Sources := {
  (** [YouTubeTranscriptApi.get_transcript(video_id, languages=[lang])] *)
  get_transcript : str -> str -> fetch_outcome;
  (** [ydl.extract_info] of [get_subtitles_from_yt_dlp]; [inl] is an
      exception with its [str(e)] *)
  caption_tracks : str -> str + caption_info;
  (** [ydl.extract_info] of [get_video_info]: [None] is an exception,
      [Some None] an info without title *)
  title_info : str -> option (option str)
}.

Definition LANG_PRIORITY : list str := [u "ja"; u "ja-JP"; u "en"].

Section Resolver.
Context `{Sources}.

(** [get_video_info(video_id)] *)
Definition get_video_info (video_id : str) : str :=
  match title_info video_id with
  | Some (Some video_title) => video_title
  | Some None | None => u "video_" ++ video_id
  end.

(** The loop over [lang_priority]: the transcript of the first language
    whose call returns, or the [errors] gathered. *)
Fixpoint try_languages (video_id : str) (langs : list str)
    (errors : list str) : list caption_item + list str :=
  match langs with
  | [] => inr errors
  | lang :: rest =>
      match get_transcript video_id lang with
      | Fetched transcript => inl transcript
      | Unavailable message =>
          try_languages video_id rest (errors ++ [lang ++ u ": " ++ message])
      | Unexpected message =>
          try_languages video_id rest
            (errors ++ [lang ++ u ": Unexpected error - " ++ message])
      end
  end.

(** [get_subtitles_from_youtube_transcript_api(video_id)]: the pair it
    returns. *)
Definition get_subtitles_from_youtube_transcript_api (video_id : str)
    : option (list caption_item) * option str :=
  match try_languages video_id LANG_PRIORITY [] with
  | inl transcript => (Some transcript, None)
  | inr errors => (None, Some (FETCH_FAILED ++ join (u "; ") errors))
  end.

(** The loop of [get_subtitles_from_yt_dlp] over the languages. *)
Fixpoint first_track (authored automatic : list (str * list track_item))
    (langs : list str) : option (list track_item) :=
  match langs with
  | [] => None
  | lang :: rest =>
      match obj_get authored lang with
      | Some track => Some track
      | None =>
          match obj_get automatic lang with
          | Some track => Some track
          | None => first_track authored automatic rest
          end
      end
  end.

(** [get_subtitles_from_yt_dlp(video_id)] *)
Definition get_subtitles_from_yt_dlp (video_id : str)
    : option (list track_item) * option str :=
  match caption_tracks video_id with
  | inl message => (None, Some message)
  | inr info =>
      match first_track (default [] (subtitles info))
              (default [] (automatic_captions info)) LANG_PRIORITY with
      | Some track => (Some track, None)
      | None => (None, Some TRACK_NOT_FOUND)
      end
  end.

End Resolver.
End Resolver.
Export Resolver.

(** ** download_video_and_subtitles *)

Module Acquisition.

(** [re.sub] of the title: each of the nine characters of the class (the
    angle brackets, colon, double quote, slash, backslash, bar, question
    mark and star) becomes an underscore. *)
Definition forbidden (c : N) : bool :=
  ((c =? 60) || (c =? 62) || (c =? 58) || (c =? 34) || (c =? 47)
   || (c =? 92) || (c =? 124) || (c =? 63) || (c =? 42))%N.

Definition safe_title (video_title : str) : str :=
  map (fun c => if forbidden c then 95%N else c) video_title.

(** [DOWNLOADS_DIR / f"{safe_title}_subtitles.txt"] *)
Definition subtitle_output (video_title : str) : str :=
  in_downloads (safe_title video_title ++ SUBTITLES_SUFFIX).

(** The four values that [download_video_and_subtitles] returns. *)
Record acquisition := {
  acq_subtitles : option (list str);
  acq_error : option str;
  acq_title : option str;
  acq_file : option str
}.

(** [f"{error}"] of a message that may be None. *)
Definition show_error (e : option str) : str := default (u "None") e.

Section Acquisition.
Context `{External} `{Sources}.

(** The lines of the transcript, by the first method or, when it gives no
    entry, by the second; [inr] is the message when the second gives
    none either. *)
Definition formatted_lines (video_id : str) : list str + str :=
  match get_subtitles_from_youtube_transcript_api video_id with
  | (Some (item :: items), _) => inl (normalize_api (item :: items))
  | (_, error1) =>
      match get_subtitles_from_yt_dlp video_id with
      | (Some (item :: items), _) => inl (normalize_track (item :: items))
      | (_, error2) =>
          inr (METHODS_FAILED ++ show_error error1
               ++ [10%N] ++ u "Method 2: " ++ show_error error2)
      end
  end.

(** [download_video_and_subtitles(url)] started in the working directory
    [d]: the four values and the working directory afterwards (writing
    the file is taken to succeed). *)
Definition download_video_and_subtitles (url : str) (d : gmap str file)
    : acquisition * gmap str file :=
  match extract_video_id url with
  | Some (c :: rest) =>
      let video_id := c :: rest in
      let video_title := get_video_info video_id in
      match formatted_lines video_id with
      | inr error_msg =>
          ({| acq_subtitles := None; acq_error := Some error_msg;
              acq_title := Some video_title; acq_file := None |}, d)
      | inl [] =>
          ({| acq_subtitles := None; acq_error := Some NO_CONTENT;
              acq_title := Some video_title; acq_file := None |}, d)
      | inl (line :: lines) =>
          let formatted := line :: lines in
          ({| acq_subtitles := Some formatted; acq_error := None;
              acq_title := Some video_title;
              acq_file := Some (subtitle_output video_title) |},
           <[subtitle_output video_title := Text (join_lines formatted)]> d)
      end
  | Some [] | None =>
      ({| acq_subtitles := None; acq_error := Some INVALID_URL;
          acq_title := None; acq_file := None |}, d)
  end.

End Acquisition.
End Acquisition.
Export Acquisition.

(** ** Reading a transcript back *)

Module Lines.

(** The line boundaries of [str.splitlines]. *)
Definition is_line_break (c : N) : bool :=
  ((10 <=? c) && (c <=? 13) || (28 <=? c) && (c <=? 30) || (c =? 133)
   || (c =? 8232) || (c =? 8233))%N.

(** [s.splitlines()]: [cur] is the line being read, [after_cr] says that
    the code point before was a carriage return, whose line feed belongs
    to the same boundary. *)
Fixpoint splitlines_from (after_cr : bool) (cur : str) (s : str) : list str :=
  match s with
  | [] => match cur with [] => [] | _ :: _ => [cur] end
  | c :: t =>
      if after_cr && (c =? 10)%N then splitlines_from false cur t
      else if is_line_break c then cur :: splitlines_from (c =? 13)%N [] t
      else splitlines_from false (cur ++ [c]) t
  end.

Definition splitlines (s : str) : list str := splitlines_from false [] s.

(** A line that [splitlines] gives back as it is. *)
Definition one_line (line : str) : Prop :=
  line <> [] /\ forall c, In c line -> is_line_break c = false.

End Lines.
Export Lines.

(** ** create_gpt_prompt *)

Module Prompt.

(** [create_gpt_prompt(subtitles, video_title)] *)
Definition create_gpt_prompt (subtitles : list str) (video_title : str) : str :=
  PROMPT_HEAD ++ video_title ++ PROMPT_BEFORE_LINES ++ join [10%N] subtitles
    ++ PROMPT_AFTER_LINES ++ json_format ++ PROMPT_TAIL.

End Prompt.
Export Prompt.

(** ** The port of the server *)

Module Ports.

(** How [find_available_port] ends: a port, RuntimeError, or the
    OverflowError of [bind] on a port outside 0 to 65535. *)
Inductive port_search :=
| Found (port : Z)
| NoneAvailable
| BindOverflow.

(** [range(start, stop)] *)
Definition py_range (start stop : Z) : list Z :=
  map (fun i => start + Z.of_nat i) (seq 0 (Z.to_nat (stop - start))).

Section Ports.
(** [s.bind(('', port))] succeeds; otherwise it raises OSError. *)
Variable can_bind : Z -> bool.

Fixpoint first_free (ports : list Z) : port_search :=
  match ports with
  | [] => NoneAvailable
  | port :: rest =>
      if (port <? 0) || (65535 <? port) then BindOverflow
      else if can_bind port then Found port
      else first_free rest
  end.

(** [find_available_port(start_port, max_port)] *)
Definition find_available_port (start_port max_port : Z) : port_search :=
  first_free (py_range start_port max_port).

End Ports.

(** A connection as [cleanup_port] sees it: its [laddr] has a port, or is
    the empty tuple, on which [conn.laddr.port] raises AttributeError. *)
Inductive connection :=
| Local (port : Z)
| NoAddress.

(** A process of [psutil.process_iter]: [None] for connections that
    cannot be read (NoSuchProcess, AccessDenied, ZombieProcess). *)
Record process := {
  pid : Z;
  proc_connections : option (list connection)
}.

(** How the loop over the connections of one process ends. *)
Inductive scan_end :=
| Scanned           (* every connection was looked at *)
| Abandoned         (* terminate raised one of the three psutil errors *)
| Aborted.          (* an exception reached the outer handler *)

Section Cleanup.
(** [psutil.Process(pid).terminate()] returns, after the pids terminated
    before; otherwise it raises one of the three psutil errors. *)
Variable terminate : list Z -> Z -> bool.

(** The loop over the connections of a process; [log] lists the pids
    terminated so far. *)
Fixpoint scan_connections (p port : Z) (conns : list connection)
    (log : list Z) : list Z * scan_end :=
  match conns with
  | [] => (log, Scanned)
  | NoAddress :: _ => (log, Aborted)
  | Local q :: rest =>
      if q =? port then
        if terminate log p then scan_connections p port rest (log ++ [p])
        else (log, Abandoned)
      else scan_connections p port rest log
  end.

(** The loop over the processes. *)
Fixpoint cleanup_from (port : Z) (procs : list process) (log : list Z)
    : list Z :=
  match procs with
  | [] => log
  | proc :: rest =>
      match proc_connections proc with
      | None => cleanup_from port rest log
      | Some conns =>
          match scan_connections (pid proc) port conns log with
          | (log', Aborted) => log'
          | (log', _) => cleanup_from port rest log'
          end
      end
  end.

(** [cleanup_port(port)] over the processes of the machine: the pids it
    terminated, in order. *)
Definition cleanup_port (port : Z) (procs : list process) : list Z :=
  cleanup_from port procs [].

End Cleanup.

(** A process that holds the port: one of its connections is bound to
    it. *)
Definition holds_port (port : Z) (proc : process) : Prop :=
  exists conns, proc_connections proc = Some conns /\ In (Local port) conns.

End Ports.
Export Ports.

(** ** More notions: the diagnostics of the first method *)

Module Diagnostics.
Section Diagnostics.
Context `{Sources}.

(** A language fails: its call does not return a transcript. *)
Definition language_fails (video_id lang : str) : Prop :=
  forall transcript, get_transcript video_id lang <> Fetched transcript.

(** The entry of [errors] for a language that fails. *)
Definition diagnostic (video_id lang : str) : str :=
  match get_transcript video_id lang with
  | Fetched _ => []
  | Unavailable message => lang ++ u ": " ++ message
  | Unexpected message => lang ++ u ": Unexpected error - " ++ message
  end.

(** A language has no track of either kind. *)
Definition no_track (info : caption_info) (lang : str) : Prop :=
  obj_get (default [] (subtitles info)) lang = None
  /\ obj_get (default [] (automatic_captions info)) lang = None.

End Diagnostics.
End Diagnostics.
Export Diagnostics.

(** ** More samples *)

Module MoreSamples.

Definition live_url : str := u "https://www.youtube.com/live/abc".

(** What urlparse gives on [live_url]. *)
Definition live_parsed : parsed_url :=
  {| hostname := Some (u "www.youtube.com"); path := u "/live/abc";
     query := [] |}.

(** A world that knows [live_url] only. *)
Definition live_world : External :=
  {| urlparse := fun url => if Str.eqb url live_url then Some live_parsed
                            else None;
     parse_qs := fun _ => [];
     json_loads := fun _ => None;
     float_of_str := fun _ => None;
     repr := fun _ => [];
     read_lines := fun _ => None;
     download := fun _ => DownloadError false;
     run_ffmpeg := fun _ => 1;
     can_write := fun _ => true |}.

(** A transcript of the API and a caption track. *)
Definition sample_items : list caption_item :=
  [{| item_start := PInt 5; item_text := u "hello" |};
   {| item_start := PInt 10; item_text := u "world" |}].

Definition sample_track : list track_item :=
  [{| track_start := Some (PInt 5); track_text := Some (u "hello") |}].

Definition sample_info : caption_info :=
  {| subtitles := None;
     automatic_captions := Some [(u "en", sample_track)] |}.

(** Sources with an English transcript only, for the video [talk]. *)
Definition sample_sources : Sources :=
  {| get_transcript := fun _ lang =>
       if Str.eqb lang (u "en") then Fetched sample_items
       else Unavailable (u "no transcript");
     caption_tracks := fun _ => inr sample_info;
     title_info := fun _ => Some (Some (u "talk")) |}.

(** Ports: every port below [first] is taken. *)
Definition taken_below (first : Z) (port : Z) : bool := first <=? port.

(** Processes: two hold port 8000, one cannot be read. *)
Definition sample_processes : list process :=
  [{| pid := 11; proc_connections := Some [Local 8000] |};
   {| pid := 12; proc_connections := None |};
   {| pid := 13; proc_connections := Some [Local 22; Local 8000] |}].

(** A process with a socket without local address. *)
Definition unbound_process : process :=
  {| pid := 14;
     proc_connections := Some [Local 22; NoAddress; Local 8000] |}.

Definition always_terminates (log : list Z) (p : Z) : bool := true.

End MoreSamples.
Export MoreSamples.

(** * Paths in the downloads directory *)

Lemma split_on_nonempty sep s : split_on sep s <> [].
Proof.
  destruct s as [| x t]; [discriminate |]. cbn [split_on].
  destruct (x =? sep)%N; [discriminate |].
  destruct (split_on sep t); discriminate.
Qed.

Lemma split_on_head sep c rest :
  c <> sep -> exists p ps, split_on sep (c :: rest) = (c :: p) :: ps.
Proof.
  intros Hne. cbn [split_on].
  destruct (N.eqb_spec c sep) as [-> | _]; [congruence |].
  destruct (split_on sep rest) as [| p ps]; [now exists [], [] | now exists p, ps].
Qed.

Lemma split_on_plain sep s : ~ In sep s -> split_on sep s = [s].
Proof.
  induction s as [| x t IH]; intros Hno; [reflexivity |].
  cbn [split_on]. destruct (N.eqb_spec x sep) as [-> | _].
  - exfalso. apply Hno. now left.
  - rewrite IH; [reflexivity |]. intros Hin. apply Hno. now right.
Qed.

Lemma split_on_last sep body c :
  c <> sep -> exists ps q, split_on sep (body ++ [c]) = ps ++ [q ++ [c]].
Proof.
  intros Hne. induction body as [| x t (ps & q & IH)].
  - cbn [app split_on]. destruct (N.eqb_spec c sep) as [-> | _]; [congruence |].
    now exists [], [].
  - cbn [app split_on]. rewrite IH.
    destruct (x =? sep)%N.
    + now exists ([] :: ps), q.
    + destruct ps as [| p ps'].
      * now exists [], (x :: q).
      * now exists ((x :: p) :: ps'), q.
Qed.

Lemma join_last sep parts part c :
  last (join sep (parts ++ [part ++ [c]])) = Some c.
Proof.
  induction parts as [| p ps IH].
  - cbn [app join]. apply last_snoc.
  - cbn [app]. destruct (ps ++ [part ++ [c]]) as [| p' rest] eqn:Hrest.
    + now destruct ps.
    + change (join sep (p :: p' :: rest)) with (p ++ sep ++ join sep (p' :: rest)).
      rewrite !last_app, IH. reflexivity.
Qed.

Lemma path_parts_last body c :
  c <> 47%N -> c <> 46%N ->
  exists ps q, path_parts (body ++ [c]) = ps ++ [q ++ [c]].
Proof.
  intros H47 H46. unfold path_parts.
  destruct (split_on_last 47%N body c H47) as (ps & q & ->).
  rewrite List.filter_app. exists (List.filter
    (fun p => negb (Str.eqb p []) && negb (Str.eqb p (u "."))) ps), q.
  f_equal. cbn [List.filter].
  replace (Str.eqb (q ++ [c]) []) with false
    by (symmetry; apply bool_decide_eq_false; now destruct q).
  replace (Str.eqb (q ++ [c]) (u ".")) with false; [reflexivity |].
  symmetry. apply bool_decide_eq_false. intros Heq.
  change (u ".") with [46%N] in Heq.
  destruct q as [| a [| b q']]; cbn [app] in Heq; try discriminate.
  injection Heq as ->. congruence.
Qed.

(** A file name keeps its last character in the directory. *)
Lemma in_downloads_last body c :
  c <> 47%N -> c <> 46%N -> last (in_downloads (body ++ [c])) = Some c.
Proof.
  intros H47 H46. unfold in_downloads.
  destruct (path_parts_last body c H47 H46) as (ps & q & ->).
  assert (Hj : last (join (u "/") (ps ++ [q ++ [c]])) = Some c)
    by apply join_last.
  repeat match goal with
  | |- context [if ?b then _ else _] => destruct b
  end; try (rewrite last_app, Hj; reflexivity).
  change (DOWNLOADS_DIR :: ps ++ [q ++ [c]])
    with ((DOWNLOADS_DIR :: ps) ++ [q ++ [c]]).
  apply join_last.
Qed.

(** A file name that starts with a character other than a slash and a
    dot stays behind the directory, first character first. *)
Lemma in_downloads_head c rest :
  c <> 47%N -> c <> 46%N ->
  exists tail, in_downloads (c :: rest) = DOWNLOADS_DIR ++ u "/" ++ c :: tail.
Proof.
  intros H47 H46. unfold in_downloads.
  assert (Hs : forall p, startswith (47%N :: p) (c :: rest) = false).
  { intros p. cbn [startswith].
    destruct (N.eqb_spec 47 c) as [<- | _]; [congruence | reflexivity]. }
  change (u "///") with (47%N :: u "//"). rewrite Hs.
  change (u "//") with (47%N :: u "/"). rewrite Hs.
  change (u "/") with (47%N :: []) at 1. rewrite Hs.
  unfold path_parts.
  destruct (split_on_head 47%N c rest H47) as (p & ps & ->).
  cbn [List.filter].
  replace (Str.eqb (c :: p) []) with false
    by (symmetry; now apply bool_decide_eq_false).
  replace (Str.eqb (c :: p) (u ".")) with false.
  2:{ symmetry. apply bool_decide_eq_false. intros Heq.
      change (u ".") with [46%N] in Heq. injection Heq as -> _. congruence. }
  cbn [negb andb].
  match goal with
  | |- context [List.filter ?f ps] => set (kept := List.filter f ps)
  end.
  change (join (47%N :: []) (DOWNLOADS_DIR :: (c :: p) :: kept))
    with (DOWNLOADS_DIR ++ 47%N :: join (47%N :: []) ((c :: p) :: kept)).
  destruct kept as [| k ks].
  - now exists p.
  - change (join (47%N :: []) ((c :: p) :: k :: ks))
      with ((c :: p) ++ 47%N :: join (47%N :: []) (k :: ks)).
    now eexists.
Qed.

(** A file name without slash is appended to the directory as it is. *)
Lemma in_downloads_plain name :
  ~ In 47%N name -> name <> [] -> name <> u "." ->
  in_downloads name = DOWNLOADS_DIR ++ u "/" ++ name.
Proof.
  intros Hno Hne Hdot. unfold in_downloads.
  destruct name as [| c rest]; [congruence |].
  assert (Hc : c <> 47%N) by (intros ->; apply Hno; now left).
  assert (Hs : forall p, startswith (47%N :: p) (c :: rest) = false).
  { intros p. cbn [startswith].
    destruct (N.eqb_spec 47 c) as [<- | _]; [congruence | reflexivity]. }
  change (u "///") with (47%N :: u "//"). rewrite Hs.
  change (u "//") with (47%N :: u "/"). rewrite Hs.
  change (u "/") with (47%N :: []) at 1. rewrite Hs.
  unfold path_parts. rewrite (split_on_plain 47%N _ Hno).
  cbn [List.filter].
  replace (Str.eqb (c :: rest) []) with false
    by (symmetry; now apply bool_decide_eq_false).
  replace (Str.eqb (c :: rest) (u ".")) with false
    by (symmetry; now apply bool_decide_eq_false).
  reflexivity.
Qed.

(** Two file names that differ in their first character give two paths. *)
Lemma in_downloads_differ c rest c' rest' :
  c <> 47%N -> c <> 46%N -> c' <> 47%N -> c' <> 46%N -> c <> c' ->
  in_downloads (c :: rest) <> in_downloads (c' :: rest').
Proof.
  intros H47 H46 H47' H46' Hne.
  destruct (in_downloads_head c rest H47 H46) as (t & ->).
  destruct (in_downloads_head c' rest' H47' H46') as (t' & ->).
  intros Heq. apply app_inv_head in Heq. injection Heq as Heq _. congruence.
Qed.

Lemma excerpt_path_last vid st et : last (excerpt_path vid st et) = Some 116%N.
Proof.
  unfold excerpt_path.
  change SUBTITLES_SUFFIX with (u "_subtitles.tx" ++ [116%N]).
  rewrite app_assoc. apply in_downloads_last; discriminate.
Qed.

Lemma clip_path_last vid st et : last (clip_path vid st et) = Some 52%N.
Proof.
  unfold clip_path. change (u ".mp4") with (u ".mp" ++ [52%N]).
  rewrite app_assoc. apply in_downloads_last; discriminate.
Qed.

Lemma temp_path_last vid : last (temp_path vid) = Some 52%N.
Proof.
  unfold temp_path. change (u ".mp4") with (u ".mp" ++ [52%N]).
  rewrite !app_assoc. apply in_downloads_last; discriminate.
Qed.

(** * Theorems *)

(** ** Time codec *)

Section TimeCodecFacts.

Lemma digit_char_cases v : 0 <= v < 10 ->
  v = 0 \/ v = 1 \/ v = 2 \/ v = 3 \/ v = 4 \/ v = 5 \/ v = 6 \/ v = 7 \/ v = 8 \/ v = 9.
Proof. lia. Qed.

Ltac each_digit H :=
  apply digit_char_cases in H;
  repeat (destruct H as [H | H]); subst; reflexivity.

Lemma ascii_digit_value c v : ascii_digit c v -> digit_value c = Some (Z.to_N v).
Proof. intros [Hv ->]. each_digit Hv. Qed.

Lemma ascii_digit_is_digit c v : ascii_digit c v -> is_digit c = true.
Proof. intros Hc. unfold is_digit. now rewrite (ascii_digit_value c v Hc). Qed.

Lemma ascii_digit_not_space c v : ascii_digit c v -> is_space c = false.
Proof. intros [Hv ->]. each_digit Hv. Qed.

Lemma ascii_digit_not_colon c v : ascii_digit c v -> (c =? 58)%N = false.
Proof. intros [Hv ->]. each_digit Hv. Qed.

Lemma pad2_two_digits n : 0 <= n < 100 ->
  pad2 n = [digit_char (n / 10); digit_char (n mod 10)].
Proof.
  intros Hn.
  assert (Hall : forallb (fun k => bool_decide
            (pad2 (Z.of_nat k)
             = [digit_char (Z.of_nat k / 10); digit_char (Z.of_nat k mod 10)]))
            (seq 0 100) = true) by (vm_compute; reflexivity).
  rewrite forallb_forall in Hall.
  specialize (Hall (Z.to_nat n)).
  rewrite Z2Nat.id in Hall by lia.
  eapply bool_decide_eq_true, Hall, in_seq. lia.
Qed.

Lemma two_digits_ascii a b va vb r :
  ascii_digit a va -> ascii_digit b vb -> two_digits (a :: b :: r) = Some ([a; b], r).
Proof.
  intros Ha Hb. unfold two_digits.
  now rewrite (ascii_digit_is_digit _ _ Ha), (ascii_digit_is_digit _ _ Hb).
Qed.

Lemma int_of_two_digits a b va vb :
  ascii_digit a va -> ascii_digit b vb -> int_of_digits [a; b] = Some (10 * va + vb).
Proof.
  intros Ha Hb. unfold int_of_digits, digits_value.
  rewrite (ascii_digit_value _ _ Ha), (ascii_digit_value _ _ Hb).
  destruct Ha as [Ha _], Hb as [Hb _]. f_equal. rewrite !Z2N.id by lia. lia.
Qed.

Lemma ascii_digit_char v : 0 <= v < 10 -> ascii_digit (digit_char v) v.
Proof. now split. Qed.

Lemma strip_canonical a b c d e f va vf :
  ascii_digit a va -> ascii_digit f vf -> strip (canonical a b c d e f) = canonical a b c d e f.
Proof.
  intros Ha Hf. unfold strip, rstrip, canonical.
  cbn [lstrip]. rewrite (ascii_digit_not_space _ _ Ha).
  cbn [rev app lstrip]. rewrite (ascii_digit_not_space _ _ Hf). reflexivity.
Qed.

Lemma time_pattern_canonical a b c d e f va vb vc vd ve vf :
  ascii_digit a va -> ascii_digit b vb -> ascii_digit c vc ->
  ascii_digit d vd -> ascii_digit e ve -> ascii_digit f vf ->
  time_pattern_match (canonical a b c d e f) = Some ([a; b], [c; d], [e; f]).
Proof.
  intros Ha Hb Hc Hd He Hf. unfold time_pattern_match, canonical, hour_digits.
  rewrite (ascii_digit_is_digit _ _ Ha), (ascii_digit_is_digit _ _ Hb).
  cbn [first_match opt_colon N.eqb Pos.eqb].
  unfold match_minutes at 1. rewrite (two_digits_ascii _ _ _ _ _ Hc Hd).
  cbn [first_match opt_colon N.eqb Pos.eqb].
  unfold match_seconds at 1. rewrite (two_digits_ascii _ _ _ _ _ He Hf).
  reflexivity.
Qed.

Lemma split_canonical a b c d e f va vb vc vd ve vf :
  ascii_digit a va -> ascii_digit b vb -> ascii_digit c vc ->
  ascii_digit d vd -> ascii_digit e ve -> ascii_digit f vf ->
  split_on 58%N (canonical a b c d e f) = [[a; b]; [c; d]; [e; f]].
Proof.
  intros Ha Hb Hc Hd He Hf. unfold canonical. cbn [split_on].
  rewrite (ascii_digit_not_colon _ _ Ha), (ascii_digit_not_colon _ _ Hb),
    (ascii_digit_not_colon _ _ Hc), (ascii_digit_not_colon _ _ Hd),
    (ascii_digit_not_colon _ _ He), (ascii_digit_not_colon _ _ Hf).
  reflexivity.
Qed.

Lemma parse_canonical a b c d e f va vb vc vd ve vf :
  ascii_digit a va -> ascii_digit b vb -> ascii_digit c vc ->
  ascii_digit d vd -> ascii_digit e ve -> ascii_digit f vf ->
  parse_timecode (canonical a b c d e f)
  = Some (canonical a b c d e f,
          (10 * va + vb) * 3600 + (10 * vc + vd) * 60 + (10 * ve + vf)).
Proof.
  intros Ha Hb Hc Hd He Hf. unfold parse_timecode.
  rewrite (strip_canonical _ _ _ _ _ _ _ _ Ha Hf).
  rewrite (time_pattern_canonical _ _ _ _ _ _ _ _ _ _ _ _ Ha Hb Hc Hd He Hf).
  unfold normalize_match. rewrite (int_of_two_digits _ _ _ _ Ha Hb).
  assert (Hpad : pad2 (10 * va + vb) = [a; b]).
  { destruct Ha as [Ha ->], Hb as [Hb ->]. rewrite pad2_two_digits by lia.
    replace ((10 * va + vb) / 10) with va by (Z.div_mod_to_equations; lia).
    replace ((10 * va + vb) mod 10) with vb by (Z.div_mod_to_equations; lia).
    reflexivity. }
  rewrite Hpad.
  change ([a; b] ++ u ":" ++ [c; d] ++ u ":" ++ [e; f]) with (canonical a b c d e f).
  unfold time_to_seconds.
  rewrite (split_canonical _ _ _ _ _ _ _ _ _ _ _ _ Ha Hb Hc Hd He Hf).
  rewrite (int_of_two_digits _ _ _ _ Ha Hb), (int_of_two_digits _ _ _ _ Hc Hd),
    (int_of_two_digits _ _ _ _ He Hf).
  reflexivity.
Qed.

Lemma total_seconds_small s : Z.abs s < 2 ^ 53 -> total_seconds (PInt s) = Some s.
Proof.
  intros Hs. unfold total_seconds, float_of_int.
  destruct (Z.abs s <? 2 ^ 53) eqn:E; [| apply Z.ltb_ge in E; lia].
  cbn [int_of_float inject_Z Qnum Qden]. now rewrite Z.quot_1_r.
Qed.

Lemma render_time_canonical s : 0 <= s < 360000 ->
  render_time s
  = 91%N :: canonical (digit_char (s / 3600 / 10)) (digit_char ((s / 3600) mod 10))
              (digit_char ((s mod 3600) / 60 / 10)) (digit_char (((s mod 3600) / 60) mod 10))
              (digit_char ((s mod 60) / 10)) (digit_char ((s mod 60) mod 10)) ++ [93%N].
Proof.
  intros Hs. unfold render_time.
  rewrite !pad2_two_digits by (Z.div_mod_to_equations; lia).
  reflexivity.
Qed.

Lemma strip_brackets_canonical a b c d e f va vf :
  ascii_digit a va -> ascii_digit f vf ->
  strip_brackets (91%N :: canonical a b c d e f ++ [93%N]) = canonical a b c d e f.
Proof.
  intros [Ha ->] [Hf ->]. unfold strip_brackets, canonical.
  apply digit_char_cases in Ha, Hf.
  repeat (destruct Ha as [Ha | Ha]); subst; repeat (destruct Hf as [Hf | Hf]); subst; reflexivity.
Qed.

(** Below one hundred hours the reader accepts what [format_time] writes,
    keeps the text and gives the seconds back. *)
Lemma roundtrip_below_100h (s : Z) :
  0 <= s < 360000 ->
  parse_timecode (strip_brackets (format_time (PInt s)))
  = Some (strip_brackets (format_time (PInt s)), s).
Proof.
  intros Hs.
  unfold format_time.
  rewrite total_seconds_small by lia.
  rewrite render_time_canonical by lia.
  set (h := s / 3600). set (m := (s mod 3600) / 60). set (x := s mod 60).
  assert (Hh : 0 <= h < 100) by (subst h; Z.div_mod_to_equations; lia).
  assert (Hm : 0 <= m < 60) by (subst m; Z.div_mod_to_equations; lia).
  assert (Hx : 0 <= x < 60) by (subst x; Z.div_mod_to_equations; lia).
  assert (D1 : ascii_digit (digit_char (h / 10)) (h / 10))
    by (apply ascii_digit_char; Z.div_mod_to_equations; lia).
  assert (D2 : ascii_digit (digit_char (h mod 10)) (h mod 10))
    by (apply ascii_digit_char; Z.div_mod_to_equations; lia).
  assert (D3 : ascii_digit (digit_char (m / 10)) (m / 10))
    by (apply ascii_digit_char; Z.div_mod_to_equations; lia).
  assert (D4 : ascii_digit (digit_char (m mod 10)) (m mod 10))
    by (apply ascii_digit_char; Z.div_mod_to_equations; lia).
  assert (D5 : ascii_digit (digit_char (x / 10)) (x / 10))
    by (apply ascii_digit_char; Z.div_mod_to_equations; lia).
  assert (D6 : ascii_digit (digit_char (x mod 10)) (x mod 10))
    by (apply ascii_digit_char; Z.div_mod_to_equations; lia).
  rewrite (strip_brackets_canonical _ _ _ _ _ _ _ _ D1 D6).
  rewrite (parse_canonical _ _ _ _ _ _ _ _ _ _ _ _ D1 D2 D3 D4 D5 D6).
  do 2 f_equal. subst h m x. Z.div_mod_to_equations. lia.
Qed.

End TimeCodecFacts.

(** ** extract_video_id *)

Section VideoIdFacts.
Context `{External}.

(** An exception in the body of [extract_video_id] ends in None. *)
Lemma video_id_exception (url : str) :
  video_id_of url = None -> extract_video_id url = None.
Proof. unfold extract_video_id. now intros ->. Qed.

(** C10: [extract_video_id] is a total function into an id or None (its
    handler catches every exception of the body), and it returns None
    when urlparse raises, when the hostname is none of www.youtube.com,
    youtube.com and youtu.be, and when the hostname is one of the two
    youtube.com names but the path is neither /watch nor under /live/ or
    /shorts/. *)
Theorem extract_video_id_rejects (url : str) :
  rejected_url url -> extract_video_id url = None.
Proof.
  intros [Hraise | p Hp Hwww Hyt Hbe | p Hp Hhost Hwatch Hlive Hshorts];
    unfold extract_video_id, video_id_of; rewrite Hraise || rewrite Hp.
  - reflexivity.
  - rewrite !bool_decide_eq_false_2 by assumption. reflexivity.
  - assert (Hyes : bool_decide (hostname p = Some (u "www.youtube.com"))
                   || bool_decide (hostname p = Some (u "youtube.com")) = true).
    { destruct Hhost as [-> | ->]; reflexivity. }
    rewrite Hyes. unfold Str.eqb.
    rewrite bool_decide_eq_false_2 by assumption.
    rewrite Hlive, Hshorts. reflexivity.
Qed.

End VideoIdFacts.

(** A URL of another host, and a youtube.com URL of another path. *)
Lemma extract_video_id_rejects_samples :
  let W := sample_world None None Downloaded (fun _ => 0) in
  extract_video_id other_host_url = None
  /\ extract_video_id embed_url = None.
Proof.
  intros W. split.
  - apply (extract_video_id_rejects other_host_url).
    eapply ForeignHost; [reflexivity | discriminate ..].
  - apply (extract_video_id_rejects embed_url).
    eapply OtherPath;
      [reflexivity | left; reflexivity | discriminate | reflexivity ..].
Defined.

(** The three forms that give an id. *)
Lemma extract_video_id_sample :
  let W := sample_world None None Downloaded (fun _ => 0) in
  extract_video_id youtu_be_url = Some (u "abc").
Proof. reflexivity. Qed.

(** ** Score normalization *)

Lemma round_half_even_bounds q lo hi :
  Qle_bool (inject_Z lo) q = true -> Qle_bool q (inject_Z hi) = true ->
  lo <= round_half_even q <= hi.
Proof.
  destruct q as [n d]. unfold Qle_bool, round_half_even, inject_Z. cbn [Qnum Qden].
  rewrite !Z.leb_le. intros Hlo Hhi.
  assert (Hd : 0 < Z.pos d) by lia.
  pose proof (Z.div_mod n (Z.pos d)) as Hdm.
  pose proof (Z.mod_pos_bound n (Z.pos d) Hd) as Hr.
  set (f := n / Z.pos d) in *. set (r := n mod Z.pos d) in *.
  assert (Hn : n = Z.pos d * f + r) by lia. clear Hdm.
  assert (Hf1 : lo <= f) by nia.
  assert (Hf2 : f <= hi) by nia.
  assert (Htop : f = hi -> r = 0) by nia.
  destruct (2 * r <? Z.pos d) eqn:E1; [lia |].
  apply Z.ltb_ge in E1.
  assert (f < hi) by (destruct (Z.eq_dec f hi) as [e | e]; [specialize (Htop e); lia | lia]).
  destruct (Z.pos d <? 2 * r); [lia |].
  destruct (Z.even f); lia.
Qed.

Lemma round_half_even_int z : round_half_even (inject_Z z) = z.
Proof.
  unfold round_half_even, inject_Z. cbn [Qnum Qden].
  rewrite Z.div_1_r, Z.mod_1_r. reflexivity.
Qed.

Lemma clamp_cases x :
  (exists q, x = Finite q /\ clamp x = x
             /\ Qle_bool (inject_Z 1) q = true /\ Qle_bool q (inject_Z 10) = true)
  \/ clamp x = of_Z 1 \/ clamp x = of_Z 10.
Proof.
  destruct x as [[n d] | | |];
    [| right; right; reflexivity | right; left; reflexivity
     | right; right; reflexivity].
  unfold clamp, py_min, py_max, fle, flt, of_Z, Qle_bool, inject_Z.
  cbn [Qnum Qden].
  destruct (Z.leb_spec (1 * Z.pos d) (n * 1)) as [H1 | H1];
    destruct (Z.leb_spec (n * 1) (10 * Z.pos d)) as [H2 | H2]; cbn [andb negb].
  - left. exists (n # d). unfold Qle_bool. cbn [Qnum Qden inject_Z].
    repeat split; apply Z.leb_le; assumption.
  - right. right.
    destruct (Z.leb_spec (10 * Z.pos d) (n * 1)); [| lia]. cbn [negb].
    reflexivity.
  - right. left.
    destruct (Z.leb_spec (10 * Z.pos d) (n * 1)); [lia |]. cbn [negb Qnum Qden].
    destruct (Z.leb_spec (n * 1) (1 * Z.pos d)); [| lia]. reflexivity.
  - lia.
Qed.

Section ScoreFacts.
Context `{External}.

Lemma normalize_score_coerced v x :
  py_float v = Coerced x -> exists n, normalize_score v = Some n /\ 1 <= n <= 10.
Proof.
  intros Hv. unfold normalize_score. rewrite Hv.
  destruct (clamp_cases x) as [(q & -> & -> & H1 & H10) | [-> | ->]].
  - exists (round_half_even q). split; [reflexivity |].
    now apply round_half_even_bounds.
  - exists 1. split; [reflexivity | lia].
  - exists 10. split; [reflexivity | lia].
Qed.

Lemma normalize_score_rejected v : py_float v = Rejected -> normalize_score v = Some 5.
Proof. intros Hv. unfold normalize_score. now rewrite Hv. Qed.

Lemma normalize_score_range v n : normalize_score v = Some n -> 1 <= n <= 10.
Proof.
  intros Hn. destruct (py_float v) as [x | |] eqn:Hv.
  - destruct (normalize_score_coerced v x Hv) as (m & Hm & Hr). congruence.
  - rewrite (normalize_score_rejected v Hv) in Hn. injection Hn as <-. lia.
  - unfold normalize_score in Hn. rewrite Hv in Hn. discriminate.
Qed.

Lemma normalize_score_15 : normalize_score (JInt 15) = Some 10.
Proof. reflexivity. Qed.

Lemma normalize_score_0 : normalize_score (JInt 0) = Some 1.
Proof. reflexivity. Qed.

Lemma normalize_score_abc : float_of_str (u "abc") = None -> normalize_score (JStr (u "abc")) = Some 5.
Proof. intros Habc. apply normalize_score_rejected. cbn [py_float]. now rewrite Habc. Qed.

Lemma normalize_score_ties : normalize_score (JFloat (Finite (5 # 2))) = Some 2
  /\ normalize_score (JFloat (Finite (7 # 2))) = Some 4.
Proof. split; reflexivity. Qed.

Lemma normalize_score_special : normalize_score (JFloat NaN) = Some 10
  /\ normalize_score (JFloat PosInf) = Some 10 /\ normalize_score (JFloat NegInf) = Some 1.
Proof. repeat split; reflexivity. Qed.

(** A score that raises sends the segment to the outer handler. *)
Lemma process_dict_score_error (video_id subtitle_path : str)
    (all_subtitles : list str) (count : nat) (d : files)
    (o : list (str * json)) :
  has_required o = true ->
  normalize_score (default JNull (obj_get o (u "impact"))) = None ->
  process_dict video_id subtitle_path all_subtitles count d o
  = (Skip SegmentError, d).
Proof.
  intros Hreq Hscore. unfold process_dict.
  rewrite Hreq. cbn [negb]. rewrite Hscore. reflexivity.
Qed.

(** C9, the input on which the code leaves the claim: an integer score too
    large for a float.  [float] raises OverflowError, which the handler
    of the score loop (ValueError, TypeError) does not catch: no score is
    substituted, the exception reaches the outer handler and the whole
    segment is skipped, whatever its other fields are. *)
Theorem score_overflow_skips_segment (video_id subtitle_path : str)
    (all_subtitles : list str) (count : nat) (d : files) :
  float_of_int (10 ^ 400) = None
  /\ normalize_score (JInt (10 ^ 400)) = None
  /\ process_segment video_id subtitle_path all_subtitles count d
       (candidate (u "00:00:00") (u "00:00:15") (JInt (10 ^ 400)))
     = (Skip SegmentError, d).
Proof.
  assert (Hbig : float_of_int (10 ^ 400) = None) by (vm_compute; reflexivity).
  assert (Hscore : normalize_score (JInt (10 ^ 400)) = None).
  { unfold normalize_score, py_float. now rewrite Hbig. }
  split; [exact Hbig |]. split; [exact Hscore |].
  unfold process_segment, candidate.
  apply process_dict_score_error; [reflexivity | exact Hscore].
Qed.

End ScoreFacts.

(** ** Caption cleaning and the transcript loops *)

Section TranscriptFacts.

(** [format_time] never gives the empty string. *)
Lemma format_time_nonempty x : exists c t, format_time x = c :: t.
Proof.
  unfold format_time. destruct (total_seconds x); [| now eexists _, _].
  unfold render_time. now eexists _, _.
Qed.

(** A run of entries of one time, followed by nothing or by another
    time, is one group. *)
Lemma groups_run t xs l :
  xs <> [] ->
  match l with (t', _) :: _ => t <> t' | [] => True end ->
  groups (map (pair t) xs ++ l) = (t, xs) :: groups l.
Proof.
  intros Hxs Hl. induction xs as [| x xs IH]; [congruence |].
  destruct xs as [| y ys].
  - cbn [map app groups]. destruct l as [| [t' x'] l'].
    + reflexivity.
    + destruct (groups ((t', x') :: l')) as [| [t2 xs2] gs] eqn:E.
      * cbn in E. destruct (groups l') as [| [? ?] ?]; [discriminate | destruct (bool_decide _); discriminate].
      * assert (t2 = t').
        { cbn in E. destruct (groups l') as [| [? ?] ?]; [congruence | destruct (bool_decide _); congruence]. }
        subst t2. rewrite bool_decide_eq_false_2 by assumption. reflexivity.
  - cbn [map app]. cbn [map app] in IH.
    change (groups ((t, x) :: (t, y) :: map (pair t) ys ++ l))
      with (match groups ((t, y) :: map (pair t) ys ++ l) with
            | (t', xs) :: gs => if bool_decide (t = t') then (t, x :: xs) :: gs else (t, [x]) :: (t', xs) :: gs
            | [] => [(t, [x])] end).
    rewrite IH by congruence. rewrite bool_decide_eq_true_2 by reflexivity. reflexivity.
Qed.

(** The last flush writes the group that is being gathered. *)
Lemma flush_pending st :
  merge_inv st -> flush st = formatted_subtitles st ++ map render_group (groups (pending st)).
Proof.
  unfold merge_inv, flush, pending. destruct (current_time st) as [t |].
  - intros [Ht Hx]. destruct t as [| c t]; [congruence |].
    destruct (current_text st) as [| x xs] eqn:E; [congruence |].
    rewrite <- (app_nil_r (map _ (x :: xs))).
    rewrite groups_run by (congruence || exact I). reflexivity.
  - intros _. cbn [map groups]. now rewrite app_nil_r.
Qed.

(** The invariant of the first loop. *)
Lemma merge_loop items : forall st,
  merge_inv st ->
  flush (fold_left merge_step items st)
  = formatted_subtitles st ++ map render_group (groups (pending st ++ kept items)).
Proof.
  induction items as [| item items IH]; intros st Hst.
  - cbn [fold_left kept]. rewrite app_nil_r. now apply flush_pending.
  - cbn [fold_left kept].
    unfold merge_step at 2.
    destruct (clean_text (item_text item)) as [| c x] eqn:Ex.
    + now apply IH.
    + destruct (bool_decide_reflect (current_time st = Some (format_time (item_start item)))) as [Heq | Hne].
      * rewrite IH.
        -- cbn [formatted_subtitles]. f_equal. f_equal. f_equal.
           unfold pending. cbn [current_time current_text]. rewrite Heq.
           rewrite map_app, <- app_assoc. reflexivity.
        -- unfold merge_inv in *. cbn [current_time current_text]. rewrite Heq in *.
           split; [tauto |]. now destruct (current_text st).
      * rewrite IH.
        -- cbn [formatted_subtitles]. rewrite flush_pending by assumption.
           rewrite <- app_assoc. f_equal. rewrite <- map_app. f_equal.
           unfold pending at 2. cbn [current_time current_text map app].
           unfold pending, merge_inv in *.
           destruct (current_time st) as [t |].
           ++ rewrite (groups_run t (current_text st)
                         ((format_time (item_start item), c :: x) :: kept items));
                [| tauto | congruence].
              rewrite <- (app_nil_r (map (pair t) (current_text st))).
              rewrite (groups_run t (current_text st) []); [| tauto | exact I].
              reflexivity.
           ++ reflexivity.
        -- unfold merge_inv. cbn [current_time current_text].
           destruct (format_time_nonempty (item_start item)) as (c0 & t0 & ->). split; congruence.
Qed.

(** The first loop, as a whole: the kept items, gathered by runs of equal
    time, one line per run. *)
Lemma normalize_api_groups (transcript : list caption_item) :
  normalize_api transcript = map render_group (groups (kept transcript)).
Proof. unfold normalize_api. rewrite merge_loop; [reflexivity | reflexivity]. Qed.

(** What [groups] is: it only cuts the list, *)
Lemma groups_flatten (l : list (str * str)) :
  flat_map (fun g => map (pair (fst g)) (snd g)) (groups l) = l.
Proof.
  induction l as [| [t x] l IH]; [reflexivity |].
  cbn [groups]. destruct (groups l) as [| [t' xs] gs].
  - cbn in IH. subst l. reflexivity.
  - destruct (bool_decide_reflect (t = t')) as [<- | Hne].
    + cbn [flat_map fst snd map app] in *. now rewrite IH.
    + cbn [flat_map fst snd map app] in *. now rewrite IH.
Qed.

(** no group is empty, *)
Lemma groups_nonempty (l : list (str * str)) :
  Forall (fun g => snd g <> []) (groups l).
Proof.
  induction l as [| [t x] l IH]; [constructor |].
  cbn [groups]. destruct (groups l) as [| [t' xs] gs].
  - repeat constructor. discriminate.
  - inversion IH; subst. destruct (bool_decide (t = t')).
    + constructor; [discriminate | assumption].
    + constructor; [discriminate |]. now constructor.
Qed.

(** and two groups in a row differ in their time. *)
Lemma groups_adjacent (l : list (str * str)) (i : nat) (g g' : str * list str) :
  groups l !! i = Some g -> groups l !! S i = Some g' -> fst g <> fst g'.
Proof.
  revert i g g'. induction l as [| [t x] l IH]; intros i g g'; [discriminate |].
  cbn [groups]. destruct (groups l) as [| [t' xs] gs].
  - destruct i; discriminate.
  - destruct (bool_decide_reflect (t = t')) as [<- | Hne].
    + destruct i as [| i].
      * cbn. intros [= <-] Hg'. cbn [fst].
        apply (IH 0%nat (t, xs) g'); [reflexivity | exact Hg'].
      * cbn. intros Hg Hg'. now apply (IH (S i)).
    + destruct i as [| i].
      * cbn. intros [= <-] [= <-]. exact Hne.
      * intros Hg Hg'. now apply (IH i).
Qed.

(** Two items in a row with the same time and a text each: one line,
    the two texts joined by one space, in the order of the input. *)
Lemma normalize_api_pair (a b : caption_item) (x y : str) :
  format_time (item_start a) = format_time (item_start b) ->
  clean_text (item_text a) = x -> clean_text (item_text b) = y ->
  x <> [] -> y <> [] ->
  normalize_api [a; b]
  = [format_time (item_start a) ++ u " " ++ x ++ u " " ++ y].
Proof.
  intros Ht Hx Hy Hx0 Hy0. rewrite normalize_api_groups.
  cbn [kept]. rewrite Hx, Hy, <- Ht.
  destruct x as [| c x]; [congruence |]. destruct y as [| c' y]; [congruence |].
  cbn [groups]. rewrite bool_decide_eq_true_2 by reflexivity.
  reflexivity.
Qed.

(** An item whose cleaned text is empty leaves no trace. *)
Lemma normalize_api_drops_empty (before after : list caption_item)
    (item : caption_item) :
  clean_text (item_text item) = [] ->
  normalize_api (before ++ item :: after) = normalize_api (before ++ after).
Proof.
  intros Hempty. rewrite !normalize_api_groups. do 2 f_equal.
  induction before as [| b before IH]; cbn [app kept].
  - now rewrite Hempty.
  - now rewrite IH.
Qed.

(** The second loop: one line per kept item, nothing gathered. *)
Lemma normalize_track_length (transcript : list track_item) :
  length (normalize_track transcript)
  = length (filter (fun item => clean_text (default [] (track_text item)) <> [])
              transcript).
Proof.
  induction transcript as [| item rest IH]; [reflexivity |].
  cbn [normalize_track]. rewrite filter_cons.
  destruct (clean_text (default [] (track_text item))) as [| c t].
  - rewrite decide_False by congruence. exact IH.
  - rewrite decide_True by congruence. cbn [length]. now rewrite IH.
Qed.

(** *** What [clean_text] does guarantee *)

Lemma replace_single c s :
  replace [c] [] s = List.filter (fun x => negb (c =? x)%N) s.
Proof.
  unfold replace. induction s as [| x s IH]; [reflexivity |].
  cbn [replace_from startswith List.filter length Nat.pred app].
  rewrite andb_true_r. destruct (c =? x)%N; cbn [negb]; now rewrite IH.
Qed.

Lemma drop_zero_width_filter s :
  drop_zero_width s
  = List.filter (fun x => negb (BOM =? x)%N)
      (List.filter (fun x => negb (ZWSP =? x)%N) s).
Proof. unfold drop_zero_width. now rewrite !replace_single. Qed.

Lemma lstrip_In x s : In x (lstrip s) -> In x s.
Proof.
  induction s as [| c s IH]; [easy |]. cbn [lstrip].
  destruct (is_space c); [right; now apply IH | easy].
Qed.

Lemma strip_In x s : In x (strip s) -> In x s.
Proof.
  unfold strip, rstrip. intros Hx. apply lstrip_In.
  apply in_rev in Hx. apply lstrip_In in Hx. now apply in_rev in Hx.
Qed.

(** No zero-width space and no byte order mark is left. *)
Lemma clean_text_no_zero_width (text : str) :
  ~ In ZWSP (clean_text text) /\ ~ In BOM (clean_text text).
Proof.
  unfold clean_text. split; intros Hx; apply strip_In in Hx;
    rewrite drop_zero_width_filter in Hx; apply filter_In in Hx as [Hx Hb].
  - apply filter_In in Hx as [_ Hz]. discriminate.
  - discriminate.
Qed.

Lemma lstrip_idem s : lstrip (lstrip s) = lstrip s.
Proof.
  induction s as [| c s IH]; [reflexivity |]. cbn [lstrip].
  destruct (is_space c) eqn:Hc; [exact IH |]. cbn [lstrip]. now rewrite Hc.
Qed.

Lemma lstrip_snoc l c : is_space c = false -> exists l', lstrip (l ++ [c]) = l' ++ [c].
Proof.
  intros Hc. induction l as [| x l IH]; cbn [app lstrip].
  - rewrite Hc. now exists [].
  - destruct (is_space x); [exact IH | now exists (x :: l)].
Qed.

Lemma lstrip_length s : (length (lstrip s) <= length s)%nat.
Proof.
  induction s as [| c s IH]; [reflexivity |]. cbn [lstrip].
  destruct (is_space c); cbn [length]; lia.
Qed.

Lemma lstrip_fixed_head c t : lstrip (c :: t) = c :: t -> is_space c = false.
Proof.
  cbn [lstrip]. destruct (is_space c); [| reflexivity].
  intros Heq. pose proof (lstrip_length t) as Hlen.
  rewrite Heq in Hlen. cbn [length] in Hlen. lia.
Qed.

Lemma strip_stripped s : stripped (strip s).
Proof.
  unfold stripped, strip. split.
  - pose proof (lstrip_idem s) as Hfix. destruct (lstrip s) as [| c t]; [reflexivity |].
    apply lstrip_fixed_head in Hfix. unfold rstrip. cbn [rev].
    destruct (lstrip_snoc (rev t) c Hfix) as [l' ->].
    rewrite rev_app_distr. cbn [rev app lstrip]. now rewrite Hfix.
  - unfold rstrip. rewrite rev_involutive, lstrip_idem. reflexivity.
Qed.

(** The result is stripped. *)
Lemma clean_text_stripped (text : str) : stripped (clean_text text).
Proof. apply strip_stripped. Qed.

(** A stripped text neither starts nor ends with whitespace. *)
Lemma stripped_ends s : stripped s ->
  match s with c :: _ => is_space c = false | [] => True end
  /\ match rev s with c :: _ => is_space c = false | [] => True end.
Proof.
  intros [Hl Hr]. split.
  - destruct s as [| c t]; [exact I | now apply lstrip_fixed_head in Hl].
  - unfold rstrip in Hr. apply (f_equal (@rev N)) in Hr. rewrite rev_involutive in Hr.
    destruct (rev s) as [| c t]; [exact I | now apply lstrip_fixed_head in Hr].
Qed.

Lemma tag_ahead_true_no_gt s : tag_ahead_from true s = negb (no_gt s).
Proof.
  induction s as [| c s IH]; [reflexivity |]. cbn [tag_ahead_from no_gt forallb].
  destruct (c =? 62)%N; cbn [negb andb]; [reflexivity | exact IH].
Qed.

Lemma tag_ahead_false s :
  tag_ahead s = false <->
  match s with [] => True | c :: t => (c =? 62)%N = true \/ no_gt t = true end.
Proof.
  unfold tag_ahead. destruct s as [| c t]; [easy |]. cbn [tag_ahead_from].
  destruct (c =? 62)%N.
  - split; [now left | reflexivity].
  - rewrite tag_ahead_true_no_gt. destruct (no_gt t); cbn [negb].
    + split; [now right | reflexivity].
    + split; [discriminate | intros [? | ?]; discriminate].
Qed.

Lemma thinned_no_gt s out : thinned s out -> no_gt s = true -> no_gt out = true.
Proof.
  induction 1 as [| c s out _ IH | c s out Hc _ IH | c c' s out Hc Hc' _ IH];
    cbn [no_gt forallb]; rewrite ?andb_true_iff.
  - reflexivity.
  - intros [-> Hs]. split; [reflexivity | now apply IH].
  - intros [_ Hs]. now apply IH.
  - intros [_ Hs]. split; [| now apply IH].
    unfold angle in Hc'. apply orb_false_iff in Hc' as [_ ->]. reflexivity.
Qed.

Lemma thinned_tag_ahead s out : thinned s out -> tag_ahead s = false -> tag_ahead out = false.
Proof.
  intros Hth. rewrite !tag_ahead_false.
  destruct Hth as [| c s out Hth | c s out Hc Hth | c c' s out Hc Hc' Hth].
  - easy.
  - intros [Hgt | Hno]; [now left | right; now apply (thinned_no_gt s)].
  - intros [Hgt | Hno].
    + unfold angle in Hc. rewrite Hgt, orb_true_r in Hc. discriminate.
    + pose proof (thinned_no_gt s out Hth Hno) as Hout.
      destruct out as [| x out]; [exact I |]. cbn [no_gt forallb] in Hout.
      apply andb_true_iff in Hout as [Hx Hout]. right. exact Hout.
  - intros [Hgt | Hno].
    + unfold angle in Hc. rewrite Hgt, orb_true_r in Hc. discriminate.
    + right. now apply (thinned_no_gt s).
Qed.

Lemma thinned_has_tag s out : thinned s out -> has_tag s = false -> has_tag out = false.
Proof.
  induction 1 as [| c s out Hth IH | c s out Hc Hth IH | c c' s out Hc Hc' Hth IH];
    cbn [has_tag]; rewrite ?orb_false_iff.
  - reflexivity.
  - intros [Hhead Hs]. split; [| now apply IH].
    destruct (c =? 60)%N; [| reflexivity]. cbn [andb] in *.
    now apply (thinned_tag_ahead s).
  - intros [_ Hs]. now apply IH.
  - intros [_ Hs]. split; [| now apply IH].
    unfold angle in Hc'. apply orb_false_iff in Hc' as [-> _]. reflexivity.
Qed.

Lemma thinned_refl s : thinned s s.
Proof. induction s; now constructor. Qed.

Lemma thinned_trans a b c : thinned a b -> thinned b c -> thinned a c.
Proof.
  intros Hab. revert c. induction Hab as [| x s out _ IH | x s out Hx _ IH | x x' s out Hx Hx' _ IH];
    intros c Hbc.
  - exact Hbc.
  - inversion Hbc; subst.
    + constructor. now apply IH.
    + apply thinned_drop; [assumption | now apply IH].
    + apply thinned_swap; [assumption | assumption | now apply IH].
  - apply thinned_drop; [assumption | now apply IH].
  - inversion Hbc; subst.
    + apply thinned_swap; [assumption | assumption | now apply IH].
    + apply thinned_drop; [assumption | now apply IH].
    + apply thinned_swap; [assumption | assumption | now apply IH].
Qed.

Lemma thinned_app a a' b b' : thinned a a' -> thinned b b' -> thinned (a ++ b) (a' ++ b').
Proof.
  induction 1 as [| c s out _ IH | c s out Hc _ IH | c c' s out Hc Hc' _ IH];
    intros Hb; cbn [app].
  - exact Hb.
  - constructor. now apply IH.
  - apply thinned_drop; [exact Hc | now apply IH].
  - apply thinned_swap; [exact Hc | exact Hc' | now apply IH].
Qed.

Lemma thinned_rev s out : thinned s out -> thinned (rev s) (rev out).
Proof.
  induction 1 as [| c s out _ IH | c s out Hc _ IH | c c' s out Hc Hc' _ IH]; cbn [rev].
  - constructor.
  - apply thinned_app; [exact IH | apply thinned_refl].
  - rewrite <- (app_nil_r (rev out)). apply thinned_app; [exact IH |].
    apply thinned_drop; [exact Hc | constructor].
  - apply thinned_app; [exact IH |]. apply thinned_swap; [exact Hc | exact Hc' | constructor].
Qed.

Lemma space_not_angle c : is_space c = true -> angle c = false.
Proof.
  intros Hc. unfold angle.
  destruct (N.eqb_spec c 60) as [-> | _]; [discriminate |].
  destruct (N.eqb_spec c 62) as [-> | _]; [discriminate | reflexivity].
Qed.

Lemma thinned_lstrip s : thinned s (lstrip s).
Proof.
  induction s as [| c s IH]; [constructor |]. cbn [lstrip].
  destruct (is_space c) eqn:Hc.
  - apply thinned_drop; [now apply space_not_angle | exact IH].
  - apply thinned_refl.
Qed.

Lemma thinned_strip s : thinned s (strip s).
Proof.
  unfold strip, rstrip. eapply thinned_trans; [apply thinned_lstrip |].
  rewrite <- (rev_involutive (lstrip s)) at 1.
  apply thinned_rev, thinned_lstrip.
Qed.

Lemma thinned_collapse s : forall b, thinned s (collapse_from b s).
Proof.
  induction s as [| c s IH]; intros b; [constructor |]. cbn [collapse_from].
  destruct (is_space c) eqn:Hc.
  - destruct b.
    + apply thinned_drop; [now apply space_not_angle | apply IH].
    + apply thinned_swap; [now apply space_not_angle | reflexivity | apply IH].
  - constructor. apply IH.
Qed.

Lemma thinned_filter (p : N -> bool) s :
  (forall c, p c = false -> angle c = false) -> thinned s (List.filter p s).
Proof.
  intros Hp. induction s as [| c s IH]; [constructor |]. cbn [List.filter].
  destruct (p c) eqn:Hc; [now constructor |].
  apply thinned_drop; [now apply Hp | exact IH].
Qed.

Lemma thinned_drop_zero_width s : thinned s (drop_zero_width s).
Proof.
  rewrite drop_zero_width_filter.
  eapply thinned_trans; apply thinned_filter; intros c Hc;
    apply negb_false_iff, N.eqb_eq in Hc; subst c; reflexivity.
Qed.

Lemma no_gt_tag_ahead b s : no_gt s = true -> tag_ahead_from b s = false.
Proof.
  revert b. induction s as [| c s IH]; intros b; [reflexivity |].
  cbn [no_gt forallb tag_ahead_from]. intros Hs. apply andb_true_iff in Hs as [Hc Hs].
  apply negb_true_iff in Hc. rewrite Hc. now apply IH.
Qed.

Lemma strip_tags_no_gt s : forall b, no_gt s = true -> no_gt (strip_tags_from b s) = true.
Proof.
  induction s as [| c s IH]; intros b; [reflexivity |].
  cbn [no_gt forallb strip_tags_from]. intros Hs.
  apply andb_true_iff in Hs as [Hc Hs]. pose proof Hc as Hc'. apply negb_true_iff in Hc'.
  destruct b.
  - rewrite Hc'. now apply IH.
  - unfold tag_ahead. rewrite (no_gt_tag_ahead false s Hs), andb_false_r.
    cbn [no_gt forallb]. rewrite Hc. now apply IH.
Qed.

Lemma strip_tags_tag_ahead s :
  tag_ahead s = false -> tag_ahead (strip_tags_from false s) = false.
Proof.
  rewrite !tag_ahead_false. destruct s as [| c t]; [easy |].
  cbn [strip_tags_from]. intros [Hgt | Hno].
  - apply N.eqb_eq in Hgt. subst c. cbn [N.eqb Pos.eqb andb]. now left.
  - unfold tag_ahead. rewrite (no_gt_tag_ahead false t Hno), andb_false_r.
    right. now apply strip_tags_no_gt.
Qed.

Lemma strip_tags_has_tag s : forall b, has_tag (strip_tags_from b s) = false.
Proof.
  induction s as [| c s IH]; intros b; [reflexivity |]. cbn [strip_tags_from].
  destruct b.
  - destruct (c =? 62)%N; apply IH.
  - destruct ((c =? 60)%N && tag_ahead s) eqn:Htag; [apply IH |].
    cbn [has_tag]. rewrite IH, orb_false_r.
    destruct (c =? 60)%N; [| reflexivity]. cbn [andb] in *.
    now apply strip_tags_tag_ahead.
Qed.

(** No tag is left: the three later steps only remove or replace code
    points other than the angle brackets. *)
Lemma clean_text_no_tag (text : str) : has_tag (clean_text text) = false.
Proof.
  unfold clean_text.
  apply (thinned_has_tag (strip_tags text)); [| apply strip_tags_has_tag].
  eapply thinned_trans; [apply thinned_collapse |].
  eapply thinned_trans; [apply thinned_drop_zero_width | apply thinned_strip].
Qed.

(** Every line of the first loop is made of texts that are cleaned and
    not empty. *)
Lemma kept_texts (transcript : list caption_item) :
  Forall (fun p => snd p <> []
                   /\ exists item, In item transcript
                                   /\ snd p = clean_text (item_text item))
    (kept transcript).
Proof.
  induction transcript as [| item rest IH]; [constructor |]. cbn [kept].
  assert (Hrest : Forall (fun p => snd p <> []
                    /\ exists it, In it (item :: rest)
                                  /\ snd p = clean_text (item_text it))
                    (kept rest)).
  { eapply Forall_impl; [exact IH |]. intros p (Hne & it & Hin & Heq).
    split; [exact Hne |]. exists it. split; [now right | exact Heq]. }
  destruct (clean_text (item_text item)) as [| c t] eqn:Hc; [exact Hrest |].
  constructor; [| exact Hrest]. cbn [snd]. split; [discriminate |].
  exists item. split; [now left | now rewrite Hc].
Qed.

(** C3, the input on which the code leaves the claim: [clean_text]
    collapses the whitespace before it removes the zero-width characters,
    so a zero-width space between two blanks leaves a run of two spaces
    in the text of the line. *)
Theorem zero_width_leaves_double_space :
  clean_text (u "a " ++ [ZWSP] ++ u " b") = u "a  b"
  /\ normalize_api
       [{| item_start := PFloat (Finite 0);
           item_text := u "a " ++ [ZWSP] ++ u " b" |}]
     = [u "[00:00:00] a  b"].
Proof. split; reflexivity. Qed.

(** C4, the input on which the code leaves the claim: the loop over the
    caption track of yt-dlp appends one line per item and gathers
    nothing, where the loop over the transcript of the API gives one
    line for the same two items. *)
Theorem track_loop_does_not_merge :
  normalize_track
    [{| track_start := Some (PFloat (Finite 5)); track_text := Some (u "a") |};
     {| track_start := Some (PFloat (Finite (11 # 2)));
        track_text := Some (u "b") |}]
  = [u "[00:00:05] a"; u "[00:00:05] b"]
  /\ normalize_api
       [{| item_start := PFloat (Finite 5); item_text := u "a" |};
        {| item_start := PFloat (Finite (11 # 2)); item_text := u "b" |}]
     = [u "[00:00:05] a b"].
Proof. split; reflexivity. Qed.

End TranscriptFacts.

(** ** The segment loop *)

Section SegmentFacts.
Context `{External}.

Lemma strip_field_timecode o k raw :
  strip_field (default JNull (obj_get o k)) = Some raw ->
  exists s, obj_get o k = Some (JStr s) /\ raw = strip s.
Proof.
  destruct (obj_get o k) as [[| | | | s | |] |]; cbn; try discriminate.
  intros [= <-]. now exists s.
Qed.

Lemma field_timecode_steps o k t secs :
  field_timecode o k = Some (t, secs) <->
  exists s g, obj_get o k = Some (JStr s) /\ time_pattern_match (strip s) = Some g
              /\ normalize_match g = Some t /\ time_to_seconds t = Some secs.
Proof.
  unfold field_timecode, parse_timecode. split.
  - destruct (obj_get o k) as [[| | | | s | |] |]; try discriminate.
    destruct (time_pattern_match (strip s)) as [g |] eqn:Hg; [| discriminate].
    destruct (normalize_match g) as [t' |] eqn:Hn; [| discriminate].
    destruct (time_to_seconds t') as [secs' |] eqn:Hs; [| discriminate].
    intros [= <- <-]. now exists s, g.
  - intros (s & g & -> & -> & -> & ->). reflexivity.
Qed.

(** The verdict of a segment does not depend on the working directory. *)
Lemma process_dict_verdict vid path lines n d d' o :
  fst (process_dict vid path lines n d o) = fst (process_dict vid path lines n d' o).
Proof.
  unfold process_dict.
  repeat match goal with
  | |- context [match ?x with _ => _ end] =>
      lazymatch x with
      | context [match _ with _ => _ end] => fail
      | _ => destruct x
      end
  | |- context [if ?x then _ else _] => destruct x
  end; reflexivity.
Qed.

Lemma process_segment_verdict vid path lines n d d' seg :
  fst (process_segment vid path lines n d seg) = fst (process_segment vid path lines n d' seg).
Proof.
  destruct seg; cbn [process_segment]; try reflexivity.
  - destruct (forallb _ _); reflexivity.
  - destruct (forallb _ _); reflexivity.
  - apply process_dict_verdict.
Qed.

(** What an emitted record says about its candidate. *)
Lemma process_dict_emit vid path lines n d o r d' :
  process_dict vid path lines n d o = (Emit r, d') ->
  has_required o = true
  /\ exists ss es,
      field_timecode o (u "start") = Some (start_time r, ss)
      /\ field_timecode o (u "end") = Some (end_time r, es)
      /\ run_ffmpeg (trim_command vid ss (es - ss) (clip_path vid (start_time r) (end_time r))) = 0
      /\ subtitle_file r = excerpt_path vid (start_time r) (end_time r)
      /\ video_file r = clip_path vid (start_time r) (end_time r)
      /\ d' = <[clip_path vid (start_time r) (end_time r) := Video]>
               (<[excerpt_path vid (start_time r) (end_time r) :=
                    Text (join_lines (filter_subtitles_by_time lines (start_time r) (end_time r)))]> d).
Proof.
  unfold process_dict.
  destruct (has_required o); cbn [negb]; [| discriminate].
  destruct (normalize_score _); [| discriminate].
  destruct (normalize_score _); [| discriminate].
  destruct (normalize_score _); [| discriminate].
  destruct (normalize_score _); [| discriminate].
  destruct (strip_field (default JNull (obj_get o (u "start")))) as [raw_start |] eqn:Hs; [| discriminate].
  destruct (strip_field (default JNull (obj_get o (u "end")))) as [raw_end |] eqn:He; [| discriminate].
  destruct (time_pattern_match raw_start) as [gs |] eqn:Hgs; [| discriminate].
  destruct (time_pattern_match raw_end) as [ge |] eqn:Hge; [| discriminate].
  destruct (normalize_match gs) as [st |] eqn:Hns; [| discriminate].
  destruct (normalize_match ge) as [et |] eqn:Hne; [| discriminate].
  destruct (time_to_seconds st) as [ss |] eqn:Hss; [| discriminate].
  destruct (time_to_seconds et) as [es |] eqn:Hes; [| discriminate].
  destruct (can_write _); cbn [negb]; [| discriminate].
  destruct (run_ffmpeg _ =? 0) eqn:Hrun; cbn [negb]; [| discriminate].
  intros [= <- <-]. cbn [start_time end_time subtitle_file video_file].
  split; [reflexivity |]. exists ss, es.
  apply strip_field_timecode in Hs as (s1 & Hs1 & ->).
  apply strip_field_timecode in He as (s2 & Hs2 & ->).
  repeat split.
  - apply field_timecode_steps. now exists s1, gs.
  - apply field_timecode_steps. now exists s2, ge.
  - now apply Z.eqb_eq.
Qed.


Lemma has_required_lookup o field :
  field ∈ required_fields -> obj_get o field = None -> has_required o = false.
Proof.
  intros Hin Hnone. unfold has_required.
  apply not_true_is_false. intros Hall.
  rewrite forallb_forall in Hall.
  specialize (Hall field (proj1 (list_elem_of_In _ _) Hin)).
  apply bool_decide_eq_true in Hall. rewrite Hnone in Hall.
  now destruct Hall.
Qed.

(** A per-segment error ends in a skip. *)
Lemma segment_error_skips vid path lines n d seg :
  segment_error vid seg ->
  exists why, fst (process_segment vid path lines n d seg) = Skip why.
Proof.
  intros Herr.
  destruct (process_segment vid path lines n d seg) as [[why | r] d'] eqn:Hp;
    [now exists why |].
  exfalso. destruct Herr as [o field Hin Hnone | o Hbad | o st et ss es Hs He Hrun];
    cbn [process_segment] in Hp;
    apply process_dict_emit in Hp as (Hreq & ss' & es' & Hs' & He' & Hrun' & _).
  - rewrite (has_required_lookup o field Hin Hnone) in Hreq. discriminate.
  - destruct Hbad as [Hbad | Hbad]; congruence.
  - rewrite Hs in Hs'. rewrite He in He'.
    injection Hs' as Hst Hss. injection He' as Het Hes.
    subst st ss et es. contradiction.
Qed.

Lemma run_loop_app vid path lines a b st :
  run_loop vid path lines (a ++ b) st
  = run_loop vid path lines b (run_loop vid path lines a st).
Proof. apply fold_left_app. Qed.

Lemma loop_step_results vid path lines st st' seg :
  results st = results st' ->
  results (loop_step vid path lines st seg) = results (loop_step vid path lines st' seg).
Proof.
  intros Hr. unfold loop_step. rewrite <- Hr.
  pose proof (process_segment_verdict vid path lines (length (results st))
                (disk st) (disk st') seg) as Hv.
  destruct (process_segment vid path lines (length (results st)) (disk st) seg) as [v1 d1].
  destruct (process_segment vid path lines (length (results st)) (disk st') seg) as [v2 d2].
  cbn [fst] in Hv. subst v2. destruct v1; cbn [results]; congruence.
Qed.

(** The results of the loop do not depend on the working directory. *)
Lemma run_loop_results vid path lines segs : forall st st',
  results st = results st' ->
  results (run_loop vid path lines segs st) = results (run_loop vid path lines segs st').
Proof.
  induction segs as [| seg segs IH]; intros st st' Hr; [exact Hr |].
  cbn [run_loop fold_left]. apply IH. now apply loop_step_results.
Qed.

Lemma loop_step_skip vid path lines st seg why :
  fst (process_segment vid path lines (length (results st)) (disk st) seg) = Skip why ->
  results (loop_step vid path lines st seg) = results st.
Proof.
  unfold loop_step.
  destruct (process_segment _ _ _ _ _ _) as [v d]. cbn [fst]. now intros ->.
Qed.

Lemma loop_step_emitted vid path lines st seg r :
  r ∈ results (loop_step vid path lines st seg) ->
  r ∈ results st
  \/ exists d', process_segment vid path lines (length (results st)) (disk st) seg = (Emit r, d').
Proof.
  unfold loop_step.
  destruct (process_segment _ _ _ _ _ _) as [[why | r'] d'] eqn:Hp; cbn [results].
  - now left.
  - rewrite elem_of_app, list_elem_of_singleton. intros [Hin | ->]; [now left |].
    right. now exists d'.
Qed.

(** Every result of the loop was emitted for one of the segments. *)
Lemma run_loop_emitted vid path lines segs : forall st r,
  r ∈ results (run_loop vid path lines segs st) ->
  r ∈ results st
  \/ exists seg n d d', seg ∈ segs /\ process_segment vid path lines n d seg = (Emit r, d').
Proof.
  induction segs as [| seg segs IH]; intros st r Hr; [now left |].
  cbn [run_loop fold_left] in Hr. apply IH in Hr as [Hr | (seg' & n & d & d' & Hin & Hp)].
  - apply loop_step_emitted in Hr as [Hr | [d' Hp]]; [now left |].
    right. exists seg, (length (results st)), (disk st), d'. split; [constructor | exact Hp].
  - right. exists seg', n, d, d'. split; [now constructor | exact Hp].
Qed.


Lemma field_timecode_seconds o k t secs :
  field_timecode o k = Some (t, secs) -> time_to_seconds t = Some secs.
Proof. intros Hf. apply field_timecode_steps in Hf as (s & g & _ & _ & _ & Hs). exact Hs. Qed.

(** What [extract_segments] returns when it returns a list. *)
Lemma extract_segments_some reply path url d rs :
  fst (extract_segments reply path url d) = Some rs ->
  exists segs vid lines d1,
    json_loads reply = Some (JArr segs) /\ extract_video_id url = Some vid
    /\ read_lines path = Some lines /\ ensure_source vid d = inl d1
    /\ rs = results (loop_from vid path lines segs d1).
Proof.
  unfold extract_segments.
  destruct (json_loads reply) as [[| | | | | [| first others] |] |]; try discriminate.
  destruct (extract_video_id url) as [[| c rest] |]; try discriminate.
  destruct (read_lines path) as [lines |]; [| discriminate].
  destruct (ensure_source (c :: rest) d) as [d1 | d'] eqn:Hsrc; [| discriminate].
  destruct (results (run_loop _ _ _ _ _)) as [| r0 rs0] eqn:Hres; [discriminate |].
  cbn [fst]. intros [= <-].
  exists (first :: others), (c :: rest), lines, d1.
  do 3 (split; [reflexivity |]). split; [exact Hsrc |].
  unfold loop_from. now rewrite Hres.
Qed.

(** C5, as amended: [extract_segments] returns None exactly when the reply
    is no JSON, is not a non-empty array, the video URL gives no id, the
    transcript file cannot be read, the download raises, or no segment is
    left by the loop; and when the reply is no JSON or not a non-empty
    array, the working directory is left as it was. *)
Theorem failure_causes (reply path url : str) (d : files) :
  (fst (extract_segments reply path url d) = None <-> run_failure reply path url d)
  /\ (json_loads reply = None
        \/ (exists v, json_loads reply = Some v /\ forall first others, v <> JArr (first :: others)) ->
      extract_segments reply path url d = (None, d)).
Proof.
  split; [split |].
  - unfold extract_segments.
    destruct (json_loads reply) as [v |] eqn:Hjson; [| intros _; now apply InvalidJson].
    destruct v as [| | | | | [| first others] |];
      try (intros _; eapply InvalidArray; [exact Hjson | discriminate]).
    destruct (extract_video_id url) as [[| c rest] |] eqn:Hvid;
      [intros _; apply InvalidUrl; now right | | intros _; apply InvalidUrl; now left].
    destruct (read_lines path) as [lines |] eqn:Hlines;
      [| intros _; now apply TranscriptUnreadable].
    destruct (ensure_source (c :: rest) d) as [d1 | d'] eqn:Hsrc;
      [| intros _; now apply (DownloadFailed _ _ _ _ (c :: rest) d')].
    destruct (results (run_loop _ _ _ _ _)) as [| r0 rs0] eqn:Hres; [| discriminate].
    intros _. now apply (NoSegmentLeft _ _ _ _ (first :: others) (c :: rest) lines d1).
  - unfold extract_segments.
    intros [Hjson | v Hjson Hv | Hurl | Hlines | vid d' Hvid Hsrc
            | segs vid lines d1 Hjson Hvid Hlines Hsrc Hres].
    + now rewrite Hjson.
    + rewrite Hjson. destruct v as [| | | | | [| first others] |]; try reflexivity.
      now destruct (Hv first others).
    + destruct (json_loads reply) as [[| | | | | [| first others] |] |]; try reflexivity.
      destruct Hurl as [-> | ->]; reflexivity.
    + destruct (json_loads reply) as [[| | | | | [| first others] |] |]; try reflexivity.
      destruct (extract_video_id url) as [[| c rest] |]; try reflexivity.
      now rewrite Hlines.
    + destruct (json_loads reply) as [[| | | | | [| first others] |] |]; try reflexivity.
      rewrite Hvid. destruct vid as [| c rest]; [reflexivity |].
      destruct (read_lines path); [| reflexivity]. now rewrite Hsrc.
    + rewrite Hjson, Hvid, Hlines. destruct segs as [| first others]; [reflexivity |].
      destruct vid as [| c rest]; [reflexivity |].
      rewrite Hsrc. unfold loop_from in Hres. now rewrite Hres.
  - unfold extract_segments. intros [-> | (v & -> & Hv)]; [reflexivity |].
    destruct v as [| | | | | [| first others] |]; try reflexivity.
    now destruct (Hv first others).
Qed.


Lemma excerpt_path_not_temp vid st et vid' : excerpt_path vid st et <> temp_path vid'.
Proof.
  unfold excerpt_path, temp_path, clip_name.
  apply (in_downloads_differ 99%N _ 116%N _); discriminate.
Qed.

Lemma clip_path_not_temp vid st et vid' : clip_path vid st et <> temp_path vid'.
Proof.
  unfold clip_path, temp_path, clip_name.
  apply (in_downloads_differ 99%N _ 116%N _); discriminate.
Qed.

(** A segment leaves the shared file as it is. *)
Lemma process_dict_keeps_temp vid path lines n d o vid' :
  snd (process_dict vid path lines n d o) !! temp_path vid' = d !! temp_path vid'.
Proof.
  unfold process_dict.
  repeat match goal with
  | |- context [match ?x with _ => _ end] =>
      lazymatch x with
      | context [match _ with _ => _ end] => fail
      | _ => destruct x
      end
  | |- context [if ?x then _ else _] => destruct x
  end; cbn [snd]; try reflexivity.
  - apply lookup_insert_ne, excerpt_path_not_temp.
  - rewrite lookup_insert_ne by apply clip_path_not_temp.
    apply lookup_insert_ne, excerpt_path_not_temp.
Qed.

Lemma process_segment_keeps_temp vid path lines n d seg vid' :
  snd (process_segment vid path lines n d seg) !! temp_path vid' = d !! temp_path vid'.
Proof.
  destruct seg; cbn [process_segment]; try reflexivity.
  - destruct (forallb _ _); reflexivity.
  - destruct (forallb _ _); reflexivity.
  - apply process_dict_keeps_temp.
Qed.

Lemma loop_step_keeps_temp vid path lines st seg vid' :
  disk (loop_step vid path lines st seg) !! temp_path vid' = disk st !! temp_path vid'.
Proof.
  unfold loop_step.
  pose proof (process_segment_keeps_temp vid path lines (length (results st)) (disk st) seg vid') as Hk.
  destruct (process_segment _ _ _ _ _ _) as [[why | r] d']; exact Hk.
Qed.

Lemma run_loop_keeps_temp vid path lines segs vid' : forall st,
  disk (run_loop vid path lines segs st) !! temp_path vid' = disk st !! temp_path vid'.
Proof.
  induction segs as [| seg segs IH]; intros st; [reflexivity |].
  cbn [run_loop fold_left]. etransitivity; [apply IH |]. apply loop_step_keeps_temp.
Qed.

Lemma ensure_source_present vid d d1 :
  ensure_source vid d = inl d1 -> is_Some (d1 !! temp_path vid).
Proof.
  unfold ensure_source. destruct (d !! temp_path vid) as [f |] eqn:Hd.
  - intros [= <-]. now rewrite Hd.
  - destruct (download vid) as [| []]; try discriminate.
    intros [= <-]. rewrite lookup_insert_eq. now eexists.
Qed.

(** C7, as amended: when the shared file of the video was not there
    before the run, or the run gets as far as the download step, the file
    is not there after the run, however the run ends (a list, no segment
    left, or a download that raises); and after any number of segments of
    the loop the file that the download step left is still there,
    unchanged. *)
Theorem shared_file_cleanup (reply path url : str) (d : files) (vid : str) :
  extract_video_id url = Some vid ->
  (d !! temp_path vid = None
   \/ exists first others lines,
        json_loads reply = Some (JArr (first :: others)) /\ vid <> []
        /\ read_lines path = Some lines) ->
  snd (extract_segments reply path url d) !! temp_path vid = None
  /\ forall lines d1 done,
       ensure_source vid d = inl d1 ->
       is_Some (d1 !! temp_path vid)
       /\ disk (loop_from vid path lines done d1) !! temp_path vid
          = d1 !! temp_path vid.
Proof.
  intros Hvid Hcase. split.
  - unfold extract_segments. rewrite Hvid.
    destruct (json_loads reply) as [v |] eqn:Hjson.
    2:{ destruct Hcase as [Hd | (f & o & l & Hj & _)]; [exact Hd | discriminate]. }
    destruct v as [| | | | | [| first others] |];
      try (destruct Hcase as [Hd | (f & o & l & Hj & _)]; [exact Hd | discriminate]).
    destruct vid as [| c rest].
    { destruct Hcase as [Hd | (f & o & l & _ & Hne & _)]; [exact Hd | congruence]. }
    destruct (read_lines path) as [lines |] eqn:Hlines.
    2:{ destruct Hcase as [Hd | (f & o & l & _ & _ & Hl)]; [exact Hd | discriminate]. }
    destruct (ensure_source (c :: rest) d) as [d1 | d'].
    + destruct (results _); cbn [snd]; apply lookup_delete_eq.
    + cbn [snd]. apply lookup_delete_eq.
  - intros lines d1 done Hsrc. split.
    + now apply (ensure_source_present vid d).
    + unfold loop_from. now rewrite run_loop_keeps_temp.
Qed.

(** A run that ends before the download step leaves the working
    directory as it was. *)
Lemma early_exit_leaves_disk (reply path url : str) (d : files) :
  json_loads reply = None
  \/ (exists v, json_loads reply = Some v
                /\ forall first others, v <> JArr (first :: others))
  \/ extract_video_id url = None \/ extract_video_id url = Some []
  \/ read_lines path = None ->
  snd (extract_segments reply path url d) = d.
Proof.
  unfold extract_segments.
  intros [-> | [(v & -> & Hv) | [Hurl | [Hurl | Hlines]]]]; [reflexivity | | | |].
  - destruct v as [| | | | | [| first others] |]; try reflexivity.
    now destruct (Hv first others).
  - destruct (json_loads reply) as [[| | | | | [| first others] |] |];
      try reflexivity.
    now rewrite Hurl.
  - destruct (json_loads reply) as [[| | | | | [| first others] |] |];
      try reflexivity.
    now rewrite Hurl.
  - destruct (json_loads reply) as [[| | | | | [| first others] |] |];
      try reflexivity.
    destruct (extract_video_id url) as [[| c rest] |]; try reflexivity.
    now rewrite Hlines.
Qed.

End SegmentFacts.

(** The run of the samples: one candidate, one record. *)
Lemma sample_run_result :
  let W := fair_world sample_reply in
  fst (extract_segments [] sample_subtitle_file youtu_be_url ∅)
  = Some [sample_record].
Proof. vm_compute. reflexivity. Qed.

(** A candidate whose start is its end is emitted as soon as the trim
    command returns 0 for it: the record of C1 with [start < end] is not
    what the loop guarantees. *)
Lemma equal_start_and_end_is_emitted :
  let W := fair_world (JArr [empty_candidate]) in
  exists r,
    fst (extract_segments [] sample_subtitle_file youtu_be_url ∅) = Some [r]
    /\ record_seconds r = Some (10, 10)
    /\ ~ starts_before_end r.
Proof.
  intros W. eexists. split; [vm_compute; reflexivity |].
  split; [vm_compute; reflexivity |].
  intros (s & e & Hse & Hlt). vm_compute in Hse.
  injection Hse as <- <-. lia.
Qed.

(** The empty array: a failure, and nothing written. *)
Lemma failure_causes_empty_array :
  let W := fair_world (JArr []) in
  extract_segments [] sample_subtitle_file youtu_be_url ∅ = (None, ∅).
Proof.
  intros W.
  apply (proj2 (failure_causes [] sample_subtitle_file youtu_be_url ∅)).
  right. exists (JArr []). split; [reflexivity | discriminate].
Defined.

(** A failure that is none of the three of C5: the reply is a non-empty
    array, its segment gets through the loop in whatever working
    directory, and still the run fails, because the download raises. *)
Lemma failure_without_listed_cause :
  let W := offline_world sample_reply in
  fst (extract_segments [] sample_subtitle_file youtu_be_url ∅) = None
  /\ json_loads [] = Some (JArr [good_candidate])
  /\ forall d1 : files,
       results (loop_from (u "abc") sample_subtitle_file sample_transcript
                  [good_candidate] d1) <> [].
Proof.
  intros W. split; [vm_compute; reflexivity |]. split; [reflexivity |].
  intros d1. unfold loop_from.
  rewrite (run_loop_results _ _ _ _ _ {| results := []; disk := ∅ |})
    by reflexivity.
  vm_compute. discriminate.
Qed.

(** A trim command that fails is a per-segment error too. *)
Lemma trim_failure_is_segment_error :
  let W := failing_trim_world JNull in
  segment_error (u "abc") good_candidate.
Proof.
  intros W.
  apply (TrimRejected _ _ (u "00:00:00") (u "00:00:15") 0 15);
    [reflexivity | reflexivity | discriminate].
Qed.

(** The sample run leaves no shared file. *)
Lemma shared_file_cleanup_sample :
  let W := fair_world sample_reply in
  snd (extract_segments [] sample_subtitle_file youtu_be_url ∅)
    !! temp_path (u "abc") = None
  /\ forall lines d1 done,
       ensure_source (u "abc") ∅ = inl d1 ->
       is_Some (d1 !! temp_path (u "abc"))
       /\ disk (loop_from (u "abc") sample_subtitle_file lines done d1)
            !! temp_path (u "abc")
          = d1 !! temp_path (u "abc").
Proof.
  intros W.
  apply (shared_file_cleanup [] sample_subtitle_file youtu_be_url ∅ (u "abc")).
  - reflexivity.
  - left. apply lookup_empty.
Defined.

(** A shared file left by an earlier run, and a reply that is the empty
    array: the run ends before the download step and the file is still
    there afterwards, against C7. *)
Lemma early_exit_keeps_old_file :
  let W := fair_world (JArr []) in
  let d : files := {[ temp_path (u "abc") := Video ]} in
  extract_video_id youtu_be_url = Some (u "abc")
  /\ fst (extract_segments [] sample_subtitle_file youtu_be_url d) = None
  /\ snd (extract_segments [] sample_subtitle_file youtu_be_url d)
       !! temp_path (u "abc") = Some Video.
Proof.
  intros W d. split; [reflexivity |]. split; [reflexivity |].
  cbn [extract_segments json_loads W fair_world sample_world snd].
  apply lookup_singleton_eq.
Qed.

(** ** The subtitle excerpt of a segment *)

Lemma lstrip_app_nonspace l c : is_space c = false -> lstrip (l ++ [c]) <> [].
Proof.
  intros Hc. induction l as [| x l IH]; cbn [app lstrip].
  - now rewrite Hc.
  - destruct (is_space x); [exact IH | discriminate].
Qed.

Lemma strip_nonempty c t : is_space c = false -> strip (c :: t) <> [].
Proof.
  intros Hc. unfold strip, rstrip. cbn [lstrip]. rewrite Hc.
  cbn [rev]. intros Hnil.
  apply (f_equal (@rev N)) in Hnil. rewrite rev_involutive in Hnil.
  now apply (lstrip_app_nonspace (rev t) c Hc).
Qed.

Lemma format_time_below_100h ts : 0 <= ts < 360000 ->
  exists a b c d e f va vb vc vd ve vf,
    ascii_digit a va /\ ascii_digit b vb /\ ascii_digit c vc
    /\ ascii_digit d vd /\ ascii_digit e ve /\ ascii_digit f vf
    /\ format_time (PInt ts) = 91%N :: canonical a b c d e f ++ [93%N]
    /\ (10 * va + vb) * 3600 + (10 * vc + vd) * 60 + (10 * ve + vf) = ts.
Proof.
  intros Hts. unfold format_time.
  rewrite total_seconds_small by lia. rewrite render_time_canonical by lia.
  set (h := ts / 3600). set (m := (ts mod 3600) / 60). set (x := ts mod 60).
  exists (digit_char (h / 10)), (digit_char (h mod 10)), (digit_char (m / 10)),
    (digit_char (m mod 10)), (digit_char (x / 10)), (digit_char (x mod 10)),
    (h / 10), (h mod 10), (m / 10), (m mod 10), (x / 10), (x mod 10).
  repeat (split; [apply ascii_digit_char; subst h m x; Z.div_mod_to_equations; lia |]).
  split; [reflexivity |]. subst h m x. Z.div_mod_to_equations. lia.
Qed.

Lemma line_seconds_transcript l : 0 <= timestamp l < 360000 ->
  line_seconds (transcript_line l) = Some (Some (timestamp l)).
Proof.
  intros Hts. unfold transcript_line.
  destruct (format_time_below_100h _ Hts)
    as (a & b & c & d & e & f & va & vb & vc & vd & ve & vf
        & Ha & Hb & Hc & Hd & He & Hf & -> & Hsum).
  unfold line_seconds, line_match, canonical. cbn [app].
  rewrite (two_digits_ascii _ _ _ _ _ Ha Hb).
  rewrite (two_digits_ascii _ _ _ _ _ Hc Hd).
  rewrite (two_digits_ascii _ _ _ _ _ He Hf).
  change ([a; b] ++ u ":" ++ [c; d] ++ u ":" ++ [e; f]) with (canonical a b c d e f).
  unfold time_to_seconds.
  rewrite (split_canonical _ _ _ _ _ _ _ _ _ _ _ _ Ha Hb Hc Hd He Hf).
  rewrite (int_of_two_digits _ _ _ _ Ha Hb), (int_of_two_digits _ _ _ _ Hc Hd),
    (int_of_two_digits _ _ _ _ He Hf).
  now rewrite Hsum.
Qed.

Lemma transcript_line_not_blank l : 0 <= timestamp l < 360000 -> strip (transcript_line l) <> [].
Proof.
  intros Hts. unfold transcript_line.
  destruct (format_time_below_100h _ Hts)
    as (a & b & c & d & e & f & va & vb & vc & vd & ve & vf & _ & _ & _ & _ & _ & _ & -> & _).
  cbn [app]. now apply strip_nonempty.
Qed.

Lemma filter_loop_transcript ss es tls : forall acc,
  Forall (fun l => 0 <= timestamp l < 360000) tls ->
  filter_loop ss es (map transcript_line tls) acc
  = Some (acc ++ map transcript_line (List.filter (in_segment ss es) tls)).
Proof.
  induction tls as [| l tls IH]; intros acc Hall.
  - cbn [map filter_loop List.filter]. now rewrite app_nil_r.
  - inversion Hall as [| ? ? Hl Hrest]; subst.
    cbn [map filter_loop List.filter].
    destruct (strip (transcript_line l)) eqn:Hblank;
      [now apply transcript_line_not_blank in Hblank |].
    rewrite (line_seconds_transcript l Hl).
    change ((ss <=? timestamp l) && (timestamp l <=? es)) with (in_segment ss es l).
    destruct (in_segment ss es l).
    + rewrite IH by assumption. cbn [map]. now rewrite <- app_assoc.
    + now apply IH.
Qed.

Lemma filter_transcript tls st et ss es :
  Forall (fun l => 0 <= timestamp l < 360000) tls ->
  time_to_seconds st = Some ss -> time_to_seconds et = Some es ->
  filter_subtitles_by_time (map transcript_line tls) st et
  = map transcript_line (List.filter (in_segment ss es) tls).
Proof.
  intros Hall Hs He. unfold filter_subtitles_by_time. rewrite Hs, He.
  now rewrite filter_loop_transcript.
Qed.

Lemma excerpt_path_not_clip vid st et : clip_path vid st et <> excerpt_path vid st et.
Proof.
  intros Heq. apply (f_equal last) in Heq.
  rewrite clip_path_last, excerpt_path_last in Heq. discriminate.
Qed.

Section ExcerptFacts.
Context `{External}.

(** C8, as amended: for a transcript whose lines all lie below one hundred
    hours, the excerpt file written for a segment holds exactly the lines
    whose timestamp lies in the closed interval from the seconds of its
    start to the seconds of its end, in the order of the transcript,
    joined by newlines. *)
Theorem excerpt_is_interval (vid path : str) (tls : list timed_line)
    (n : nat) (d : files) (o : list (str * json)) (r : clip_record)
    (d' : files) :
  Forall (fun l => 0 <= timestamp l < 360000) tls ->
  process_dict vid path (map transcript_line tls) n d o = (Emit r, d') ->
  exists ss es,
    field_timecode o (u "start") = Some (start_time r, ss)
    /\ field_timecode o (u "end") = Some (end_time r, es)
    /\ d' !! subtitle_file r
       = Some (Text (join_lines
                  (map transcript_line (List.filter (in_segment ss es) tls)))).
Proof.
  intros Hall Hp.
  apply process_dict_emit in Hp as (_ & ss & es & Hs & He & _ & Hfile & _ & ->).
  exists ss, es. split; [exact Hs |]. split; [exact He |].
  rewrite Hfile, lookup_insert_ne by apply excerpt_path_not_clip.
  rewrite lookup_insert_eq. do 3 f_equal.
  apply filter_transcript; [exact Hall | |]; eapply field_timecode_seconds; eassumption.
Qed.
End ExcerptFacts.

(** The transcript of the samples is the one of its timed lines. *)
Lemma sample_transcript_lines :
  map transcript_line sample_timed_lines = sample_transcript.
Proof. reflexivity. Qed.

(** The excerpt of the sample segment: both lines of the transcript. *)
Lemma excerpt_is_interval_sample :
  let W := fair_world sample_reply in
  let d' : files :=
    snd (process_dict (u "abc") sample_subtitle_file
           (map transcript_line sample_timed_lines) 0 ∅
           (match good_candidate with JObj o => o | _ => [] end)) in
  exists ss es,
    field_timecode (match good_candidate with JObj o => o | _ => [] end)
      (u "start") = Some (start_time sample_record, ss)
    /\ field_timecode (match good_candidate with JObj o => o | _ => [] end)
         (u "end") = Some (end_time sample_record, es)
    /\ d' !! subtitle_file sample_record
       = Some (Text (join_lines
                  (map transcript_line
                     (List.filter (in_segment ss es) sample_timed_lines)))).
Proof.
  intros W d'.
  apply (excerpt_is_interval (u "abc") sample_subtitle_file sample_timed_lines
           0 ∅ _ sample_record d').
  - repeat constructor; cbn; lia.
  - vm_compute. reflexivity.
Defined.

(** Both endpoints belong to the interval. *)
Lemma excerpt_endpoints :
  filter_subtitles_by_time sample_transcript (u "00:00:05") (u "00:00:10")
  = sample_transcript
  /\ filter_subtitles_by_time sample_transcript (u "00:00:06") (u "00:00:09")
     = [].
Proof. split; reflexivity. Qed.

(** A line at one hundred hours is written with an hour of three digits,
    which the pattern of [filter_subtitles_by_time], with its two digits,
    does not match: the line is left out of the excerpt of a segment
    whose interval contains its timestamp, against C8. *)
Lemma excerpt_misses_line_at_100_hours :
  let W := fair_world (JArr [late_candidate]) in
  let written :=
    process_segment (u "abc") sample_subtitle_file
      (map transcript_line late_lines) 0 ∅ late_candidate in
  map transcript_line late_lines = [u "[100:00:00] late"]
  /\ parse_timecode (u "99:00:00") = Some (u "99:00:00", 356400)
  /\ parse_timecode (u "99:60:00") = Some (u "99:60:00", 360000)
  /\ List.filter (in_segment 356400 360000) late_lines = late_lines
  /\ filter_subtitles_by_time (map transcript_line late_lines)
       (u "99:00:00") (u "99:60:00") = []
  /\ exists r, fst written = Emit r
       /\ snd written !! subtitle_file r = Some (Text [])
       /\ snd written !! subtitle_file r
          <> Some (Text (join_lines
                     (map transcript_line
                        (List.filter (in_segment 356400 360000) late_lines)))).
Proof.
  intros W written.
  do 5 (split; [vm_compute; reflexivity |]).
  eexists. split; [vm_compute; reflexivity |].
  split; [vm_compute; reflexivity |].
  vm_compute. discriminate.
Qed.

(** ** More on timecodes *)

Lemma digit_in_lt runs c d : digit_in runs c = Some d -> (d < 10)%N.
Proof.
  induction runs as [| [b n] runs IH]; cbn [digit_in]; [discriminate |].
  destruct ((b <=? c)%N && (c <? b + n)%N); [| exact IH].
  intros [= <-]. apply N.mod_lt. discriminate.
Qed.

Lemma digit_value_lt c d : digit_value c = Some d -> (d < 10)%N.
Proof. apply digit_in_lt. Qed.

Lemma is_digit_value c : is_digit c = true -> exists d, digit_value c = Some d /\ (d < 10)%N.
Proof.
  unfold is_digit. destruct (digit_value c) as [d |] eqn:Hd; [| discriminate].
  intros _. exists d. split; [reflexivity | now apply (digit_value_lt c)].
Qed.

Lemma is_digit_not_colon c : is_digit c = true -> (c =? 58)%N = false.
Proof.
  intros Hc. destruct (N.eqb_spec c 58) as [-> | _]; [| reflexivity].
  vm_compute in Hc. discriminate.
Qed.

Lemma is_space_cases c : is_space c = true ->
  In c [9; 10; 11; 12; 13; 28; 29; 30; 31; 32; 133; 160; 5760; 8192; 8193; 8194;
        8195; 8196; 8197; 8198; 8199; 8200; 8201; 8202; 8232; 8233; 8239; 8287;
        12288]%N.
Proof.
  unfold is_space.
  rewrite !orb_true_iff, !andb_true_iff, !N.leb_le, !N.eqb_eq.
  intros Hc. cbn [In]. lia.
Qed.

Lemma is_digit_not_space c : is_digit c = true -> is_space c = false.
Proof.
  intros Hd. destruct (is_space c) eqn:Hs; [| reflexivity].
  apply is_space_cases in Hs.
  assert (Hall : forallb (fun x => negb (is_digit x))
            [9; 10; 11; 12; 13; 28; 29; 30; 31; 32; 133; 160; 5760; 8192; 8193; 8194;
             8195; 8196; 8197; 8198; 8199; 8200; 8201; 8202; 8232; 8233; 8239; 8287;
             12288]%N = true) by (vm_compute; reflexivity).
  rewrite forallb_forall in Hall. specialize (Hall c Hs).
  rewrite Hd in Hall. discriminate.
Qed.

Lemma two_digits_inv s g r :
  two_digits s = Some (g, r) ->
  exists a b, s = a :: b :: r /\ g = [a; b] /\ is_digit a = true /\ is_digit b = true.
Proof.
  unfold two_digits. destruct s as [| a [| b r']]; try discriminate.
  destruct (is_digit a) eqn:Ha; [| discriminate].
  destruct (is_digit b) eqn:Hb; [| discriminate].
  cbn [andb]. intros [= <- <-]. now exists a, b.
Qed.

Lemma two_digits_digits a b r :
  is_digit a = true -> is_digit b = true -> two_digits (a :: b :: r) = Some ([a; b], r).
Proof. intros Ha Hb. unfold two_digits. now rewrite Ha, Hb. Qed.

Lemma first_match_inv {A B : Type} (f : A -> option B) l y :
  first_match f l = Some y -> exists x, In x l /\ f x = Some y.
Proof.
  induction l as [| x l IH]; cbn [first_match]; [discriminate |].
  destruct (f x) as [y' |] eqn:Hx.
  - intros [= <-]. exists x. split; [now left | exact Hx].
  - intros Hl. destruct (IH Hl) as (x' & Hin & Hx'). exists x'. split; [now right | exact Hx'].
Qed.

Lemma match_seconds_inv s g3 : match_seconds s = Some g3 -> two_digit_group g3.
Proof.
  unfold match_seconds. destruct (two_digits s) as [[g r] |] eqn:Hs; [| discriminate].
  destruct (at_end r); [| discriminate]. intros [= <-].
  apply two_digits_inv in Hs as (a & b & _ & -> & Ha & Hb). now exists a, b.
Qed.

Lemma match_minutes_inv s g2 g3 :
  match_minutes s = Some (g2, g3) -> two_digit_group g2 /\ two_digit_group g3.
Proof.
  unfold match_minutes. destruct (two_digits s) as [[g r] |] eqn:Hs; [| discriminate].
  intros Hm. apply first_match_inv in Hm as (r' & _ & Hr').
  destruct (match_seconds r') as [g' |] eqn:Hsec; [| discriminate].
  injection Hr' as <- <-. split.
  - apply two_digits_inv in Hs as (a & b & _ & -> & Ha & Hb). now exists a, b.
  - now apply match_seconds_inv in Hsec.
Qed.

Lemma hour_digits_inv s g r : In (g, r) (hour_digits s) -> hour_group g.
Proof.
  unfold hour_digits. destruct s as [| a [| b r']].
  - easy.
  - destruct (is_digit a) eqn:Ha; [| easy].
    intros [[= <- <-] | []]. left. now exists a.
  - destruct (is_digit a) eqn:Ha; [| easy].
    destruct (is_digit b) eqn:Hb.
    + intros [[= <- <-] | [[= <- <-] | []]].
      * right. now exists a, b.
      * left. now exists a.
    + intros [[= <- <-] | []]. left. now exists a.
Qed.

(** What the timecode pattern captures. *)
Lemma time_pattern_groups s g1 g2 g3 :
  time_pattern_match s = Some (g1, g2, g3) ->
  hour_group g1 /\ two_digit_group g2 /\ two_digit_group g3.
Proof.
  unfold time_pattern_match. intros Hm.
  apply first_match_inv in Hm as ([g r] & Hin & Hm).
  apply first_match_inv in Hm as (r' & _ & Hm).
  destruct (match_minutes r') as [[g2' g3'] |] eqn:Hmin; [| discriminate].
  injection Hm as <- <- <-.
  split; [now apply (hour_digits_inv s g r) | now apply (match_minutes_inv r')].
Qed.

Lemma two_digit_group_value g :
  two_digit_group g -> exists v, int_of_digits g = Some v /\ 0 <= v < 100.
Proof.
  intros (a & b & -> & Ha & Hb).
  apply is_digit_value in Ha as (da & Ha & Hda). apply is_digit_value in Hb as (db & Hb & Hdb).
  unfold int_of_digits, digits_value. rewrite Ha, Hb.
  eexists. split; [reflexivity | lia].
Qed.

Lemma hour_group_value g :
  hour_group g -> exists v, int_of_digits g = Some v /\ 0 <= v < 100.
Proof.
  intros [(a & -> & Ha) | Hg]; [| now apply two_digit_group_value].
  apply is_digit_value in Ha as (da & Ha & Hda).
  unfold int_of_digits, digits_value. rewrite Ha.
  eexists. split; [reflexivity | lia].
Qed.

Lemma digit_char_is_ascii v : 0 <= v < 10 -> ascii_digit (digit_char v) v.
Proof. now split. Qed.

(** The seconds of a text of the shape of [canonical]. *)
Lemma time_to_seconds_canonical a b c d e f h m s :
  (a =? 58)%N = false -> (b =? 58)%N = false -> (c =? 58)%N = false ->
  (d =? 58)%N = false -> (e =? 58)%N = false -> (f =? 58)%N = false ->
  int_of_digits [a; b] = Some h -> int_of_digits [c; d] = Some m ->
  int_of_digits [e; f] = Some s ->
  time_to_seconds (canonical a b c d e f) = Some (h * 3600 + m * 60 + s).
Proof.
  intros Ha Hb Hc Hd He Hf Hh Hm Hs. unfold time_to_seconds.
  assert (Hsplit : split_on 58%N (canonical a b c d e f) = [[a; b]; [c; d]; [e; f]]).
  { unfold canonical. cbn [split_on]. rewrite Ha, Hb, Hc, Hd, He, Hf. reflexivity. }
  rewrite Hsplit. now rewrite Hh, Hm, Hs.
Qed.

(** What a match normalizes to. *)
Lemma normalize_match_shape g1 g2 g3 :
  hour_group g1 -> two_digit_group g2 -> two_digit_group g3 ->
  exists a b c d e f h m s,
    normalize_match (g1, g2, g3) = Some (canonical a b c d e f)
    /\ int_of_digits g1 = Some h /\ 0 <= h < 100
    /\ ascii_digit a (h / 10) /\ ascii_digit b (h mod 10)
    /\ g2 = [c; d] /\ is_digit c = true /\ is_digit d = true
    /\ g3 = [e; f] /\ is_digit e = true /\ is_digit f = true
    /\ int_of_digits [c; d] = Some m /\ 0 <= m < 100
    /\ int_of_digits [e; f] = Some s /\ 0 <= s < 100.
Proof.
  intros H1 H2 H3.
  destruct (hour_group_value g1 H1) as (h & Hh & Hhr).
  destruct (two_digit_group_value g2 H2) as (m & Hm & Hmr).
  destruct (two_digit_group_value g3 H3) as (s & Hs & Hsr).
  destruct H2 as (c & d & -> & Hc & Hd). destruct H3 as (e & f & -> & He & Hf).
  exists (digit_char (h / 10)), (digit_char (h mod 10)), c, d, e, f, h, m, s.
  unfold normalize_match. rewrite Hh, pad2_two_digits by lia.
  split; [reflexivity |]. split; [reflexivity |]. split; [exact Hhr |].
  split; [apply digit_char_is_ascii; Z.div_mod_to_equations; lia |].
  split; [apply digit_char_is_ascii; Z.div_mod_to_equations; lia |].
  repeat (split; [first [reflexivity | assumption] |]). assumption.
Qed.

Lemma parse_of_match raw g1 g2 g3 :
  time_pattern_match (strip raw) = Some (g1, g2, g3) ->
  exists a b c d e f h m s,
    parse_timecode raw = Some (canonical a b c d e f, h * 3600 + m * 60 + s)
    /\ 0 <= h < 100 /\ 0 <= m < 100 /\ 0 <= s < 100
    /\ ascii_digit a (h / 10) /\ ascii_digit b (h mod 10)
    /\ is_digit c = true /\ is_digit d = true
    /\ is_digit e = true /\ is_digit f = true
    /\ int_of_digits [c; d] = Some m /\ int_of_digits [e; f] = Some s.
Proof.
  intros Hg. pose proof (time_pattern_groups _ _ _ _ Hg) as (H1 & H2 & H3).
  destruct (normalize_match_shape g1 g2 g3 H1 H2 H3)
    as (a & b & c & d & e & f & h & m & s & Hn & Hh & Hhr & Ha & Hb
        & -> & Hc & Hd & -> & He & Hf & Hm & Hmr & Hs & Hsr).
  exists a, b, c, d, e, f, h, m, s.
  unfold parse_timecode. rewrite Hg, Hn.
  rewrite (time_to_seconds_canonical a b c d e f h m s);
    try (apply is_digit_not_colon; first [assumption | eapply ascii_digit_is_digit; eassumption]).
  - repeat (split; [first [reflexivity | assumption] |]). assumption.
  - rewrite (int_of_two_digits _ _ _ _ Ha Hb). f_equal. Z.div_mod_to_equations. lia.
  - exact Hm.
  - exact Hs.
Qed.

(** X1: Whatever text of a [start] or [end] field is accepted, the timecode
    kept for it has eight characters, stands for at most 99:99:99 in
    seconds, and is accepted again unchanged with the same seconds. *)
Theorem timecode_normal_form raw t secs :
  parse_timecode raw = Some (t, secs) ->
  length t = 8%nat /\ 0 <= secs <= MAX_TIMECODE_SECONDS
  /\ parse_timecode t = Some (t, secs).
Proof.
  intros Hp.
  destruct (time_pattern_match (strip raw)) as [[[g1 g2] g3] |] eqn:Hg.
  2:{ unfold parse_timecode in Hp. rewrite Hg in Hp. discriminate. }
  destruct (parse_of_match raw g1 g2 g3 Hg)
    as (a & b & c & d & e & f & h & m & s & Hp' & Hhr & Hmr & Hsr & Ha & Hb
        & Hc & Hd & He & Hf & Hm & Hs).
  rewrite Hp in Hp'. injection Hp' as -> ->.
  split; [reflexivity |]. split; [unfold MAX_TIMECODE_SECONDS; lia |].
  assert (Hpat : time_pattern_match (strip (canonical a b c d e f))
                 = Some ([a; b], [c; d], [e; f])).
  { assert (Hstrip : strip (canonical a b c d e f) = canonical a b c d e f).
    { unfold strip, rstrip, canonical. cbn [lstrip].
      rewrite (ascii_digit_not_space _ _ Ha). cbn [rev app lstrip].
      rewrite (is_digit_not_space f Hf). reflexivity. }
    rewrite Hstrip. unfold time_pattern_match, canonical, hour_digits.
    rewrite (ascii_digit_is_digit _ _ Ha), (ascii_digit_is_digit _ _ Hb).
    cbn [first_match opt_colon N.eqb Pos.eqb].
    unfold match_minutes at 1. rewrite (two_digits_digits c d _ Hc Hd).
    cbn [first_match opt_colon N.eqb Pos.eqb].
    unfold match_seconds at 1. rewrite (two_digits_digits e f _ He Hf).
    reflexivity. }
  unfold parse_timecode. rewrite Hpat.
  unfold normalize_match. rewrite (int_of_two_digits _ _ _ _ Ha Hb).
  assert (Hpad : pad2 (10 * (h / 10) + h mod 10) = [a; b]).
  { destruct Ha as [Hav ->], Hb as [Hbv ->]. rewrite pad2_two_digits by lia.
    replace ((10 * (h / 10) + h mod 10) / 10) with (h / 10) by (Z.div_mod_to_equations; lia).
    replace ((10 * (h / 10) + h mod 10) mod 10) with (h mod 10) by (Z.div_mod_to_equations; lia).
    reflexivity. }
  rewrite Hpad.
  change ([a; b] ++ u ":" ++ [c; d] ++ u ":" ++ [e; f]) with (canonical a b c d e f).
  rewrite (time_to_seconds_canonical a b c d e f (10 * (h / 10) + h mod 10) m s);
    try (apply is_digit_not_colon; first [assumption | eapply ascii_digit_is_digit; eassumption]).
  - do 2 f_equal. Z.div_mod_to_equations. lia.
  - apply (int_of_two_digits _ _ _ _ Ha Hb).
  - exact Hm.
  - exact Hs.
Qed.

(** X2: A timecode field is refused exactly when its stripped text does not
    match the pattern: after a match the conversions of the three groups
    to integers never fail, whatever decimal digits they hold. *)
Theorem parse_fails_only_on_mismatch raw :
  parse_timecode raw = None <-> time_pattern_match (strip raw) = None.
Proof.
  split.
  - intros Hp. destruct (time_pattern_match (strip raw)) as [[[g1 g2] g3] |] eqn:Hg; [| reflexivity].
    destruct (parse_of_match raw g1 g2 g3 Hg) as (a & b & c & d & e & f & h & m & s & Hp' & _).
    congruence.
  - intros Hg. unfold parse_timecode. now rewrite Hg.
Qed.

Lemma strip_digit_ends a l z :
  is_digit a = true -> is_digit z = true -> strip (a :: l ++ [z]) = a :: l ++ [z].
Proof.
  intros Ha Hz. unfold strip, rstrip. cbn [lstrip].
  rewrite (is_digit_not_space a Ha). cbn [rev]. rewrite rev_app_distr. cbn [rev app lstrip].
  rewrite (is_digit_not_space z Hz). cbn [rev]. rewrite rev_app_distr, rev_involutive.
  reflexivity.
Qed.

Lemma match_minutes_plain c d e f :
  forallb is_digit [c; d; e; f] = true ->
  match_minutes [c; d; e; f] = Some ([c; d], [e; f])
  /\ match_minutes [c; d; 58%N; e; f] = Some ([c; d], [e; f])
  /\ match_minutes [d; e; f] = None.
Proof.
  cbn [forallb]. rewrite !andb_true_iff. intros (Hc & Hd & He & Hf & _).
  pose proof (is_digit_not_colon e He) as Ne. pose proof (is_digit_not_colon f Hf) as Nf.
  unfold match_minutes. rewrite !(two_digits_digits c d _ Hc Hd), (two_digits_digits d e _ Hd He).
  cbn [opt_colon N.eqb Pos.eqb]. rewrite Ne, Nf. cbn [first_match].
  unfold match_seconds. rewrite !(two_digits_digits e f _ He Hf). cbn [at_end two_digits].
  repeat split; reflexivity.
Qed.

(** X3: The colons of a timecode field are optional: six digits read as the
    same timecode with both colons, and five digits as a one-digit hour
    with both colons. *)
Theorem colons_are_optional a b c d e f :
  forallb is_digit [a; b; c; d; e; f] = true ->
  parse_timecode [a; b; c; d; e; f] = parse_timecode (canonical a b c d e f)
  /\ parse_timecode [a; c; d; e; f] = parse_timecode [a; 58%N; c; d; 58%N; e; f].
Proof.
  intros Hall. pose proof Hall as Hall'. cbn [forallb] in Hall'.
  rewrite !andb_true_iff in Hall'. destruct Hall' as (Ha & Hb & Hc & Hd & He & Hf & _).
  assert (Hdig : forallb is_digit [c; d; e; f] = true).
  { cbn [forallb]. now rewrite Hc, Hd, He, Hf. }
  destruct (match_minutes_plain c d e f Hdig) as (M4 & M5 & M3).
  pose proof (is_digit_not_colon c Hc) as Nc. pose proof (is_digit_not_colon d Hd) as Nd.
  assert (Hcolon : is_digit 58%N = false) by (vm_compute; reflexivity).
  unfold parse_timecode, canonical. split.
  - change [a; b; c; d; e; f] with (a :: [b; c; d; e] ++ [f]).
    change [a; b; 58%N; c; d; 58%N; e; f] with (a :: [b; 58%N; c; d; 58%N; e] ++ [f]).
    rewrite !strip_digit_ends by assumption. cbn [app].
    unfold time_pattern_match, hour_digits. rewrite Ha, Hb.
    cbn [first_match opt_colon N.eqb Pos.eqb]. rewrite Nc.
    cbn [first_match]. now rewrite M4, M5.
  - change [a; c; d; e; f] with (a :: [c; d; e] ++ [f]).
    change [a; 58%N; c; d; 58%N; e; f] with (a :: [58%N; c; d; 58%N; e] ++ [f]).
    rewrite !strip_digit_ends by assumption. cbn [app].
    unfold time_pattern_match, hour_digits. rewrite Ha, Hc, Hcolon.
    cbn [first_match opt_colon N.eqb Pos.eqb]. rewrite Nd, Nc.
    cbn [first_match]. now rewrite M3, M4, M5.
Qed.

(** The timecode of the text [ 1:02:03 ] with its blanks. *)
Lemma timecode_normal_form_sample :
  length (u "01:02:03") = 8%nat /\ 0 <= 3723 <= MAX_TIMECODE_SECONDS
  /\ parse_timecode (u "01:02:03") = Some (u "01:02:03", 3723).
Proof.
  apply (timecode_normal_form (u " 1:02:03 ") (u "01:02:03") 3723).
  vm_compute. reflexivity.
Defined.

(** Six digits and five digits without colons. *)
Lemma colons_are_optional_sample :
  parse_timecode (u "123456") = parse_timecode (u "12:34:56")
  /\ parse_timecode (u "13456") = parse_timecode (u "1:34:56").
Proof.
  apply (colons_are_optional 49%N 50%N 51%N 52%N 53%N 54%N).
  vm_compute. reflexivity.
Defined.

(** * The round trip of the time codec *)

Lemma parse_timecode_bound raw t secs :
  parse_timecode raw = Some (t, secs) -> 0 <= secs <= MAX_TIMECODE_SECONDS.
Proof.
  intros Hp.
  destruct (time_pattern_match (strip raw)) as [[[g1 g2] g3] |] eqn:Hg.
  2:{ unfold parse_timecode in Hp. rewrite Hg in Hp. discriminate. }
  destruct (parse_of_match raw g1 g2 g3 Hg)
    as (a & b & c & d & e & f & h & m & s & Hp' & Hhr & Hmr & Hsr & _).
  rewrite Hp in Hp'. injection Hp' as _ ->.
  unfold MAX_TIMECODE_SECONDS. lia.
Qed.

Lemma hundredth_hour_rejected :
  forallb (fun k =>
             match timecode_seconds
                     (strip_brackets
                        (format_time (PInt (360000 + Z.of_nat k)))) with
             | None => true
             | Some _ => false
             end) (seq 0 2440) = true.
Proof. vm_compute. reflexivity. Qed.

Lemma roundtrip_only_below_100h s :
  timecode_seconds (strip_brackets (format_time (PInt s))) = Some s ->
  0 <= s < 360000.
Proof.
  intros Hs.
  assert (Hb : 0 <= s <= MAX_TIMECODE_SECONDS).
  { unfold timecode_seconds in Hs.
    destruct (parse_timecode (strip_brackets (format_time (PInt s))))
      as [[t secs] |] eqn:Hp; [| discriminate].
    cbn in Hs. injection Hs as ->. eapply parse_timecode_bound. exact Hp. }
  unfold MAX_TIMECODE_SECONDS in Hb.
  destruct (Z_lt_ge_dec s 360000) as [Hlt | Hge]; [lia |].
  exfalso.
  pose proof hundredth_hour_rejected as Hall.
  rewrite forallb_forall in Hall.
  specialize (Hall (Z.to_nat (s - 360000))).
  replace (360000 + Z.of_nat (Z.to_nat (s - 360000))) with s in Hall by lia.
  rewrite Hs in Hall.
  assert (Hin : In (Z.to_nat (s - 360000)) (seq 0 2440)) by (apply in_seq; lia).
  specialize (Hall Hin). discriminate.
Qed.

(** C2, as amended: for a whole number of seconds [s], the timecode
    reader of [extract_segments], applied to the output of [format_time]
    without its brackets, gives [s] back exactly when [s] lies below one
    hundred hours and is not negative; there the reader also keeps the
    text as it is.  From one hundred hours on the round trip fails for
    every [s]. *)
Theorem format_parse_roundtrip (s : Z) :
  (0 <= s < 360000 ->
   parse_timecode (strip_brackets (format_time (PInt s)))
   = Some (strip_brackets (format_time (PInt s)), s))
  /\ (timecode_seconds (strip_brackets (format_time (PInt s))) = Some s
      <-> 0 <= s < 360000).
Proof.
  split; [apply roundtrip_below_100h |]. split.
  - apply roundtrip_only_below_100h.
  - intros Hs. unfold timecode_seconds.
    now rewrite (roundtrip_below_100h s Hs).
Qed.

(** The round trip at one hour, two minutes and three seconds. *)
Lemma format_parse_roundtrip_3723 :
  parse_timecode (strip_brackets (format_time (PInt 3723)))
  = Some (strip_brackets (format_time (PInt 3723)), 3723)
  /\ timecode_seconds (strip_brackets (format_time (PInt 3723))) = Some 3723.
Proof.
  destruct (format_parse_roundtrip 3723) as [Hparse Hseconds].
  split; [apply Hparse; lia | apply Hseconds; lia].
Defined.

(** At one hundred hours [format_time] writes three digits for the hour,
    which the pattern of the reader, with its one or two digits, rejects:
    the round trip of C2 fails there. *)
Lemma roundtrip_fails_at_100_hours :
  0 <= 360000
  /\ format_time (PInt 360000) = u "[100:00:00]"
  /\ timecode_seconds (strip_brackets (format_time (PInt 360000))) <> Some 360000.
Proof.
  split; [lia |]. split; [reflexivity |].
  vm_compute. discriminate.
Qed.

(** Beyond the range of the floats [format_time] falls back to zero,
    which the reader accepts: the round trip fails there with a value,
    not with a rejection. *)
Lemma roundtrip_beyond_floats :
  format_time (PInt (10 ^ 400)) = u "[00:00:00]"
  /\ timecode_seconds (strip_brackets (format_time (PInt (10 ^ 400)))) = Some 0.
Proof. split; vm_compute; reflexivity. Qed.

(** ** More on the records of a run *)

Section MoreSegmentFacts.
Context `{External}.

(** The fields of an emitted record that come from the scores, the
    reason and the title of its candidate. *)
Lemma process_dict_emit_fields vid path lines n d o r d' :
  process_dict vid path lines n d o = (Emit r, d') ->
  normalize_score (default JNull (obj_get o (u "impact"))) = Some (impact r)
  /\ normalize_score (default JNull (obj_get o (u "uniqueness"))) = Some (uniqueness r)
  /\ normalize_score (default JNull (obj_get o (u "timeliness"))) = Some (timeliness r)
  /\ normalize_score (default JNull (obj_get o (u "entertainment"))) = Some (entertainment r)
  /\ reason r = reason_of (default JNull (obj_get o (u "reason")))
  /\ title r = default (JStr (TITLE_PREFIX ++ of_int (Z.of_nat n + 1))) (obj_get o (u "title"))
  /\ video_title r = title_of_file path.
Proof.
  unfold process_dict.
  destruct (has_required o); cbn [negb]; [| discriminate].
  destruct (normalize_score (default JNull (obj_get o (u "impact")))); [| discriminate].
  destruct (normalize_score (default JNull (obj_get o (u "uniqueness")))); [| discriminate].
  destruct (normalize_score (default JNull (obj_get o (u "timeliness")))); [| discriminate].
  destruct (normalize_score (default JNull (obj_get o (u "entertainment")))); [| discriminate].
  destruct (strip_field _); [| discriminate].
  destruct (strip_field _); [| discriminate].
  destruct (time_pattern_match _); [| discriminate].
  destruct (time_pattern_match _); [| discriminate].
  destruct (normalize_match _); [| discriminate].
  destruct (normalize_match _); [| discriminate].
  destruct (time_to_seconds _); [| discriminate].
  destruct (time_to_seconds _); [| discriminate].
  destruct (negb (can_write _)); [discriminate |].
  destruct (negb _); [discriminate |].
  intros [= <- <-]. cbn. repeat split; reflexivity.
Qed.

Lemma process_segment_emit vid path lines n d seg r d' :
  process_segment vid path lines n d seg = (Emit r, d') ->
  exists o, seg = JObj o /\ process_dict vid path lines n d o = (Emit r, d').
Proof.
  destruct seg as [| | | | | items | o]; cbn [process_segment];
    try discriminate; try (destruct (forallb _ _); discriminate).
  intros Hp. now exists o.
Qed.

Lemma reason_of_length v : (10 <= length (reason_of v))%nat.
Proof.
  unfold reason_of. destruct (10 <=? length (strip (py_str v)))%nat eqn:E.
  - now apply Nat.leb_le.
  - cbn. lia.
Qed.

(** X4: In every record that [extract_segments] returns the four scores lie
    between 1 and 10, the reason has at least ten characters, and the
    video title is the name of the transcript file without its suffix. *)
Theorem records_are_well_formed reply path url d rs r :
  fst (extract_segments reply path url d) = Some rs -> r ∈ rs ->
  1 <= impact r <= 10 /\ 1 <= uniqueness r <= 10
  /\ 1 <= timeliness r <= 10 /\ 1 <= entertainment r <= 10
  /\ (10 <= length (reason r))%nat
  /\ video_title r = title_of_file path.
Proof.
  intros Hrun Hr.
  apply extract_segments_some in Hrun as (segs & vid & lines & d1 & _ & _ & _ & _ & ->).
  apply run_loop_emitted in Hr as [Hr | (seg & n & d0 & d' & _ & Hp)].
  { cbn [results] in Hr. now apply elem_of_nil in Hr. }
  apply process_segment_emit in Hp as (o & _ & Hp).
  apply process_dict_emit_fields in Hp as (H1 & H2 & H3 & H4 & -> & _ & ->).
  apply normalize_score_range in H1, H2, H3, H4.
  repeat split; try lia; try reflexivity. apply reason_of_length.
Qed.

(** The loop only appends, at most one record per segment. *)
Lemma run_loop_extends vid path lines segs : forall st,
  exists new,
    results (run_loop vid path lines segs st) = results st ++ new
    /\ (length new <= length segs)%nat
    /\ forall r, r ∈ new ->
         exists seg n d0 d', seg ∈ segs
           /\ process_segment vid path lines n d0 seg = (Emit r, d').
Proof.
  induction segs as [| seg segs IH]; intros st.
  - exists []. cbn. rewrite app_nil_r. repeat split; [lia |].
    intros r Hr. now apply elem_of_nil in Hr.
  - cbn [run_loop fold_left].
    destruct (IH (loop_step vid path lines st seg)) as (new & Hnew & Hlen & Hfrom).
    fold (run_loop vid path lines segs (loop_step vid path lines st seg)).
    unfold run_loop in Hnew |- *. rewrite Hnew. unfold loop_step.
    destruct (process_segment vid path lines (length (results st)) (disk st) seg)
      as [[why | r0] d0] eqn:Hp; cbn [results].
    + exists new. split; [reflexivity |]. split; [cbn [length]; lia |].
      intros r Hr. destruct (Hfrom r Hr) as (seg' & n & dd & d' & Hin & Hp').
      exists seg', n, dd, d'. split; [now constructor | exact Hp'].
    + exists (r0 :: new). split; [now rewrite <- app_assoc |].
      split; [cbn [length]; lia |].
      intros r Hr. apply elem_of_cons in Hr as [-> | Hr].
      * exists seg, (length (results st)), (disk st), d0. split; [constructor | exact Hp].
      * destruct (Hfrom r Hr) as (seg' & n & dd & d' & Hin & Hp').
        exists seg', n, dd, d'. split; [now constructor | exact Hp'].
Qed.

(** X5: The loop over the candidates only appends: the records after a longer
    array start with the records after its beginning, at most one record
    is added per later candidate, and each added record is the one the
    body of the loop emits for one of the later candidates. *)
Theorem results_follow_the_array vid path lines (earlier later : list json) d :
  exists new,
    results (loop_from vid path lines (earlier ++ later) d)
    = results (loop_from vid path lines earlier d) ++ new
    /\ (length new <= length later)%nat
    /\ forall r, r ∈ new ->
         exists seg n d0 d', seg ∈ later
           /\ process_segment vid path lines n d0 seg = (Emit r, d').
Proof.
  unfold loop_from. rewrite run_loop_app. apply run_loop_extends.
Qed.

(** X6: A list that [extract_segments] returns is never empty, and is no
    longer than the array of the reply. *)
Theorem returned_list_is_never_empty reply path url d rs :
  fst (extract_segments reply path url d) = Some rs ->
  rs <> []
  /\ exists segs, json_loads reply = Some (JArr segs)
                  /\ (length rs <= length segs)%nat.
Proof.
  intros Hrun. split.
  - unfold extract_segments in Hrun.
    destruct (json_loads reply) as [[| | | | | [| first others] |] |]; try discriminate.
    destruct (extract_video_id url) as [[| c rest] |]; try discriminate.
    destruct (read_lines path) as [lines |]; [| discriminate].
    destruct (ensure_source (c :: rest) d) as [d1 | d']; [| discriminate].
    destruct (results _) as [| r0 rs0]; [discriminate |].
    cbn [fst] in Hrun. injection Hrun as <-. discriminate.
  - apply extract_segments_some in Hrun as (segs & vid & lines & d1 & Hjson & _ & _ & _ & ->).
    exists segs. split; [exact Hjson |].
    destruct (run_loop_extends vid path lines segs {| results := []; disk := d1 |})
      as (new & Hnew & Hlen & _).
    unfold loop_from. rewrite Hnew. cbn [results app]. exact Hlen.
Qed.

End MoreSegmentFacts.

(** The record of the sample run. *)
Lemma records_are_well_formed_sample :
  let W := fair_world sample_reply in
  1 <= impact sample_record <= 10 /\ 1 <= uniqueness sample_record <= 10
  /\ 1 <= timeliness sample_record <= 10
  /\ 1 <= entertainment sample_record <= 10
  /\ (10 <= length (reason sample_record))%nat
  /\ video_title sample_record = title_of_file sample_subtitle_file.
Proof.
  intros W.
  apply (records_are_well_formed [] sample_subtitle_file youtu_be_url ∅
           [sample_record] sample_record).
  - vm_compute. reflexivity.
  - apply list_elem_of_here.
Defined.

(** The list of the sample run. *)
Lemma returned_list_is_never_empty_sample :
  let W := fair_world sample_reply in
  [sample_record] <> []
  /\ exists segs, json_loads [] = Some (JArr segs)
                  /\ (length [sample_record] <= length segs)%nat.
Proof.
  intros W.
  apply (returned_list_is_never_empty [] sample_subtitle_file youtu_be_url ∅
           [sample_record]).
  vm_compute. reflexivity.
Defined.

(** ** More on the files of a run *)

Lemma clip_path_not_excerpt vid st et vid' st' et' :
  clip_path vid st et <> excerpt_path vid' st' et'.
Proof.
  intros Heq. apply (f_equal last) in Heq.
  rewrite clip_path_last, excerpt_path_last in Heq. discriminate.
Qed.

Section RunFileFacts.
Context `{External}.

Lemma insert_excerpt_keeps (vid st et c0 : str) (d0 : gmap str file) (k : str) :
  (last k = Some 116%N -> (exists c, d0 !! k = Some (Text c)) ->
   exists c, <[excerpt_path vid st et := Text c0]> d0 !! k = Some (Text c))
  /\ (last k = Some 52%N -> d0 !! k = Some Video ->
      <[excerpt_path vid st et := Text c0]> d0 !! k = Some Video).
Proof.
  destruct (decide (excerpt_path vid st et = k)) as [<- | Hne].
  - split.
    + intros _ _. rewrite lookup_insert_eq. now eexists.
    + rewrite excerpt_path_last. discriminate.
  - rewrite lookup_insert_ne by exact Hne. tauto.
Qed.

Lemma insert_clip_keeps (vid st et : str) (d0 : gmap str file) (k : str) :
  (last k = Some 116%N -> (exists c, d0 !! k = Some (Text c)) ->
   exists c, <[clip_path vid st et := Video]> d0 !! k = Some (Text c))
  /\ (last k = Some 52%N -> d0 !! k = Some Video ->
      <[clip_path vid st et := Video]> d0 !! k = Some Video).
Proof.
  destruct (decide (clip_path vid st et = k)) as [<- | Hne].
  - split.
    + rewrite clip_path_last. discriminate.
    + intros _ _. apply lookup_insert_eq.
  - rewrite lookup_insert_ne by exact Hne. tauto.
Qed.

(** A segment overwrites excerpts by texts and clips by videos, and
    removes nothing. *)
Lemma process_dict_keeps_files vid path lines n d o k :
  (last k = Some 116%N -> (exists c, d !! k = Some (Text c)) ->
   exists c, snd (process_dict vid path lines n d o) !! k = Some (Text c))
  /\ (last k = Some 52%N -> d !! k = Some Video ->
      snd (process_dict vid path lines n d o) !! k = Some Video).
Proof.
  unfold process_dict.
  repeat match goal with
  | |- context [match ?x with _ => _ end] =>
      lazymatch x with
      | context [match _ with _ => _ end] => fail
      | _ => destruct x
      end
  | |- context [if ?x then _ else _] => destruct x
  end; cbn [snd]; try tauto.
  - apply insert_excerpt_keeps.
  - split.
    + intros Hk Hd. apply insert_clip_keeps; [exact Hk |].
      now apply insert_excerpt_keeps.
    + intros Hk Hd. apply insert_clip_keeps; [exact Hk |].
      now apply insert_excerpt_keeps.
Qed.

Lemma process_segment_keeps_files vid path lines n d seg k :
  (last k = Some 116%N -> (exists c, d !! k = Some (Text c)) ->
   exists c, snd (process_segment vid path lines n d seg) !! k = Some (Text c))
  /\ (last k = Some 52%N -> d !! k = Some Video ->
      snd (process_segment vid path lines n d seg) !! k = Some Video).
Proof.
  destruct seg; cbn [process_segment]; try (cbn [snd]; tauto).
  - destruct (forallb _ _); cbn [snd]; tauto.
  - destruct (forallb _ _); cbn [snd]; tauto.
  - apply process_dict_keeps_files.
Qed.

Lemma files_in_place_step vid path lines st seg r :
  files_in_place vid (disk st) r ->
  files_in_place vid (disk (loop_step vid path lines st seg)) r.
Proof.
  intros (Hs & Hv & Htext & Hvideo). unfold files_in_place.
  split; [exact Hs |]. split; [exact Hv |].
  pose proof (process_segment_keeps_files vid path lines (length (results st))
                (disk st) seg (subtitle_file r)) as [Kt _].
  pose proof (process_segment_keeps_files vid path lines (length (results st))
                (disk st) seg (video_file r)) as [_ Kv].
  rewrite Hs in Kt at 1. rewrite Hv in Kv at 1.
  specialize (Kt (excerpt_path_last _ _ _) Htext).
  specialize (Kv (clip_path_last _ _ _) Hvideo).
  unfold loop_step.
  destruct (process_segment _ _ _ _ _ _) as [[why | r'] d']; cbn [disk snd] in *;
    split; assumption.
Qed.

(** The invariant of the loop: the files of every record so far are in
    place. *)
Lemma run_loop_files vid path lines segs : forall st,
  (forall r, r ∈ results st -> files_in_place vid (disk st) r) ->
  forall r, r ∈ results (run_loop vid path lines segs st) ->
    files_in_place vid (disk (run_loop vid path lines segs st)) r.
Proof.
  induction segs as [| seg segs IH]; intros st Hst; [exact Hst |].
  cbn [run_loop fold_left]. apply IH. intros r Hr.
  apply loop_step_emitted in Hr as [Hr | [d' Hp]].
  - now apply files_in_place_step, Hst.
  - unfold loop_step. rewrite Hp. cbn [disk].
    apply process_segment_emit in Hp as (o & _ & Hp).
    apply process_dict_emit in Hp as (_ & ss & es & _ & _ & _ & Hs & Hv & ->).
    unfold files_in_place. split; [exact Hs |]. split; [exact Hv |]. split.
    + rewrite Hs, lookup_insert_ne by apply clip_path_not_excerpt.
      rewrite lookup_insert_eq. now eexists.
    + rewrite Hv. apply lookup_insert_eq.
Qed.

(** X7: After a run that returns records, the two files of every record are
    in the working directory under the names built from the video id and
    the two timecodes: the excerpt as a text file, the clip as a video. *)
Theorem files_of_records_exist reply path url d rs r :
  fst (extract_segments reply path url d) = Some rs -> r ∈ rs ->
  exists vid,
    extract_video_id url = Some vid
    /\ files_in_place vid (snd (extract_segments reply path url d)) r.
Proof.
  unfold extract_segments.
  destruct (json_loads reply) as [[| | | | | [| first others] |] |]; try discriminate.
  destruct (extract_video_id url) as [[| c rest] |]; try discriminate.
  destruct (read_lines path) as [lines |]; [| discriminate].
  destruct (ensure_source (c :: rest) d) as [d1 | d'']; [| discriminate].
  destruct (results _) as [| r0 rs0] eqn:Hres; [discriminate |].
  cbn [fst snd]. intros [= <-] Hr. exists (c :: rest). split; [reflexivity |].
  rewrite <- Hres in Hr.
  apply (run_loop_files (c :: rest)) in Hr.
  2:{ intros r' Hr'. cbn [results] in Hr'. now apply elem_of_nil in Hr'. }
  destruct Hr as (Hs & Hv & [content Htext] & Hvideo).
  unfold files_in_place. split; [exact Hs |]. split; [exact Hv |]. split.
  - exists content. rewrite lookup_delete_ne; [exact Htext |].
    rewrite Hs. intros Heq. symmetry in Heq. now apply excerpt_path_not_temp in Heq.
  - rewrite lookup_delete_ne; [exact Hvideo |].
    rewrite Hv. intros Heq. symmetry in Heq. now apply clip_path_not_temp in Heq.
Qed.


Lemma loop_step_titles vid path lines all st seg :
  seg ∈ all -> titles_numbered all (results st) ->
  titles_numbered all (results (loop_step vid path lines st seg)).
Proof.
  intros Hin Hst i r. unfold loop_step.
  destruct (process_segment _ _ _ _ _ _) as [[why | r'] d'] eqn:Hp; cbn [results].
  - apply Hst.
  - rewrite lookup_snoc_Some. intros [[_ Hi] | [-> <-]]; [now apply Hst |].
    apply process_segment_emit in Hp as (o & -> & Hp).
    apply process_dict_emit_fields in Hp as (_ & _ & _ & _ & _ & Ht & _).
    destruct (obj_get o (u "title")) as [t |] eqn:Hot; cbn [default from_option] in Ht.
    + right. exists o. split; [exact Hin | now rewrite Ht].
    + left. exact Ht.
Qed.

Lemma run_loop_titles vid path lines all segs : forall st,
  (forall seg, seg ∈ segs -> seg ∈ all) ->
  titles_numbered all (results st) ->
  titles_numbered all (results (run_loop vid path lines segs st)).
Proof.
  induction segs as [| seg segs IH]; intros st Hsub Hst; [exact Hst |].
  cbn [run_loop fold_left]. apply IH.
  - intros s Hs. apply Hsub. now constructor.
  - apply loop_step_titles; [apply Hsub; constructor | exact Hst].
Qed.

(** X8: The title of the record at position [i] of the returned list is the
    title of a candidate of the reply, or the default title numbered
    [i + 1]: the default counts the records emitted, not the candidates. *)
Theorem default_titles_count_records reply path url d rs :
  fst (extract_segments reply path url d) = Some rs ->
  exists segs, json_loads reply = Some (JArr segs) /\ titles_numbered segs rs.
Proof.
  intros Hrun.
  apply extract_segments_some in Hrun as (segs & vid & lines & d1 & Hjson & _ & _ & _ & ->).
  exists segs. split; [exact Hjson |].
  unfold loop_from. apply run_loop_titles; [tauto |].
  intros i r Hi. cbn [results] in Hi. rewrite lookup_nil in Hi. discriminate.
Qed.

(** The loop and the guards before it never call the downloader. *)
Lemma run_loop_with_download (W : External) fetch vid path lines segs st :
  run_loop (H := with_download W fetch) vid path lines segs st
  = run_loop (H := W) vid path lines segs st.
Proof. reflexivity. Qed.

(** X9: When the shared video file is already in the working directory the
    downloader is not used: the run is the same whatever the download
    would do. *)
Theorem present_file_is_reused (W : External) fetch reply path url d vid f :
  extract_video_id (H := W) url = Some vid ->
  d !! temp_path vid = Some f ->
  extract_segments (H := with_download W fetch) reply path url d
  = extract_segments (H := W) reply path url d.
Proof.
  intros Hvid Hd. unfold extract_segments.
  change (json_loads (External := with_download W fetch) reply) with (json_loads (External := W) reply).
  destruct (json_loads reply) as [[| | | | | [| first others] |] |]; try reflexivity.
  change (extract_video_id (H := with_download W fetch) url) with (extract_video_id (H := W) url).
  rewrite Hvid. destruct vid as [| c rest]; [reflexivity |].
  change (read_lines (External := with_download W fetch) path) with (read_lines (External := W) path).
  destruct (read_lines path) as [lines |]; [| reflexivity].
  unfold ensure_source. rewrite Hd.
  rewrite run_loop_with_download. reflexivity.
Qed.

(** X10: A download that raises ends the run with None and leaves the working
    directory as it was, also when the download left a partial file. *)
Theorem failed_download_leaves_directory reply path url d first others vid lines left :
  json_loads reply = Some (JArr (first :: others)) ->
  extract_video_id url = Some vid -> vid <> [] ->
  read_lines path = Some lines ->
  d !! temp_path vid = None ->
  download vid = DownloadError left ->
  extract_segments reply path url d = (None, d).
Proof.
  intros Hjson Hvid Hne Hlines Hd Hdl. unfold extract_segments.
  rewrite Hjson, Hvid. destruct vid as [| c rest]; [congruence |].
  rewrite Hlines. unfold ensure_source. rewrite Hd, Hdl.
  destruct left.
  - now rewrite delete_insert_id.
  - now rewrite delete_id.
Qed.

(** X11: A candidate that gets as far as the trim command (its excerpt
    file could be written) and whose trim command fails gives no record,
    but its excerpt file has been written before and stays in the
    working directory. *)
Theorem failed_trim_leaves_excerpt vid path lines n d o st ss et es :
  has_required o = true ->
  normalize_score (default JNull (obj_get o (u "impact"))) <> None ->
  normalize_score (default JNull (obj_get o (u "uniqueness"))) <> None ->
  normalize_score (default JNull (obj_get o (u "timeliness"))) <> None ->
  normalize_score (default JNull (obj_get o (u "entertainment"))) <> None ->
  field_timecode o (u "start") = Some (st, ss) ->
  field_timecode o (u "end") = Some (et, es) ->
  can_write (excerpt_path vid st et) = true ->
  run_ffmpeg (trim_command vid ss (es - ss) (clip_path vid st et)) <> 0 ->
  process_dict vid path lines n d o
  = (Skip TrimFailed,
     <[excerpt_path vid st et :=
         Text (join_lines (filter_subtitles_by_time lines st et))]> d).
Proof.
  intros Hreq H1 H2 H3 H4 Hs He Hwrite Hrun.
  apply field_timecode_steps in Hs as (s1 & g1 & Hs1 & Hg1 & Hn1 & Ht1).
  apply field_timecode_steps in He as (s2 & g2 & Hs2 & Hg2 & Hn2 & Ht2).
  unfold process_dict. rewrite Hreq. cbn [negb].
  destruct (normalize_score (default JNull (obj_get o (u "impact")))); [| congruence].
  destruct (normalize_score (default JNull (obj_get o (u "uniqueness")))); [| congruence].
  destruct (normalize_score (default JNull (obj_get o (u "timeliness")))); [| congruence].
  destruct (normalize_score (default JNull (obj_get o (u "entertainment")))); [| congruence].
  rewrite Hs1, Hs2. cbn [from_option strip_field id].
  rewrite Hg1, Hg2, Hn1, Hn2, Ht1, Ht2, Hwrite. cbn [negb].
  apply Z.eqb_neq in Hrun. rewrite Hrun. reflexivity.
Qed.

End RunFileFacts.

(** The two files of the record of the sample run. *)
Lemma files_of_records_exist_sample :
  let W := fair_world sample_reply in
  exists vid,
    extract_video_id youtu_be_url = Some vid
    /\ files_in_place vid
         (snd (extract_segments [] sample_subtitle_file youtu_be_url ∅))
         sample_record.
Proof.
  intros W.
  apply (files_of_records_exist [] sample_subtitle_file youtu_be_url ∅
           [sample_record] sample_record).
  - vm_compute. reflexivity.
  - apply list_elem_of_here.
Defined.

(** The title of the record of the sample run. *)
Lemma default_titles_count_records_sample :
  let W := fair_world sample_reply in
  exists segs, json_loads [] = Some (JArr segs)
               /\ titles_numbered segs [sample_record].
Proof.
  intros W.
  apply (default_titles_count_records [] sample_subtitle_file youtu_be_url ∅
           [sample_record]).
  vm_compute. reflexivity.
Defined.

(** The sample run with the shared file in place and a downloader that
    fails. *)
Lemma present_file_is_reused_sample :
  let W := fair_world sample_reply in
  let d : files := {[ temp_path (u "abc") := Video ]} in
  extract_segments (H := with_download W (fun _ => DownloadError false))
    [] sample_subtitle_file youtu_be_url d
  = extract_segments (H := W) [] sample_subtitle_file youtu_be_url d.
Proof.
  intros W d.
  apply (present_file_is_reused W (fun _ => DownloadError false) []
           sample_subtitle_file youtu_be_url d (u "abc") Video).
  - reflexivity.
  - apply lookup_singleton_eq.
Defined.

(** The sample run without network. *)
Lemma failed_download_leaves_directory_sample :
  let W := offline_world sample_reply in
  extract_segments [] sample_subtitle_file youtu_be_url ∅ = (None, ∅).
Proof.
  intros W.
  apply (failed_download_leaves_directory [] sample_subtitle_file youtu_be_url
           ∅ good_candidate [] (u "abc") sample_transcript false).
  - reflexivity.
  - reflexivity.
  - discriminate.
  - reflexivity.
  - apply lookup_empty.
  - reflexivity.
Defined.

(** The sample candidate with a trim command that fails. *)
Lemma failed_trim_leaves_excerpt_sample :
  let W := failing_trim_world JNull in
  let o := match good_candidate with JObj o => o | _ => [] end in
  process_dict (u "abc") sample_subtitle_file sample_transcript 0 ∅ o
  = (Skip TrimFailed,
     <[excerpt_path (u "abc") (u "00:00:00") (u "00:00:15") :=
         Text (join_lines (filter_subtitles_by_time sample_transcript
                             (u "00:00:00") (u "00:00:15")))]> ∅).
Proof.
  intros W o.
  apply (failed_trim_leaves_excerpt (u "abc") sample_subtitle_file
           sample_transcript 0 ∅ o (u "00:00:00") 0 (u "00:00:15") 15).
  - reflexivity.
  - vm_compute. discriminate.
  - vm_compute. discriminate.
  - vm_compute. discriminate.
  - vm_compute. discriminate.
  - vm_compute. reflexivity.
  - vm_compute. reflexivity.
  - reflexivity.
  - vm_compute. discriminate.
Defined.

(** ** More on cleaning, excerpts, timestamps and ids *)

(** clean_text: whitespace *)
Lemma collapse_plain_space s : forall b c,
  In c (collapse_from b s) -> is_space c = true -> c = 32%N.
Proof.
  induction s as [| x s IH]; intros b c; [easy |]. cbn [collapse_from].
  destruct (is_space x) eqn:Hx.
  - destruct b.
    + apply IH.
    + intros [<- | Hin] Hc; [reflexivity | now apply (IH true)].
  - intros [<- | Hin] Hc; [congruence | now apply (IH false)].
Qed.

Lemma clean_text_plain_space text c :
  In c (clean_text text) -> is_space c = true -> c = 32%N.
Proof.
  unfold clean_text. intros Hc Hs. apply strip_In in Hc.
  rewrite drop_zero_width_filter in Hc.
  apply filter_In in Hc as [Hc _]. apply filter_In in Hc as [Hc _].
  now apply (collapse_plain_space (strip_tags text) false c).
Qed.

(** X12: What [clean_text] returns has no white space at either end, no white
    space other than U+0020, no tag left (no [<] followed by a character
    other than [>] and later a [>]), and neither U+200B nor U+FEFF. *)
Theorem clean_text_is_clean (text : str) :
  stripped (clean_text text)
  /\ (forall c, In c (clean_text text) -> is_space c = true -> c = 32%N)
  /\ has_tag (clean_text text) = false
  /\ ~ In ZWSP (clean_text text) /\ ~ In BOM (clean_text text).
Proof.
  split; [apply clean_text_stripped |].
  split; [apply clean_text_plain_space |].
  split; [apply clean_text_no_tag | apply clean_text_no_zero_width].
Qed.

(** X13: The loop over the transcript of the API writes one line per run of
    consecutive kept items with the same timestamp: the lines are the
    rendered groups, the groups cut the kept items without reordering or
    loss, no group is empty and neighbouring groups differ in their
    timestamp. *)
Theorem api_loop_gathers_runs (transcript : list caption_item) :
  normalize_api transcript = map render_group (groups (kept transcript))
  /\ flat_map (fun g => map (pair (fst g)) (snd g)) (groups (kept transcript))
     = kept transcript
  /\ Forall (fun g => snd g <> []) (groups (kept transcript))
  /\ forall i g g', groups (kept transcript) !! i = Some g ->
       groups (kept transcript) !! S i = Some g' -> fst g <> fst g'.
Proof.
  split; [apply normalize_api_groups |]. split; [apply groups_flatten |].
  split; [apply groups_nonempty |]. intros i g g'. apply groups_adjacent.
Qed.

(** filter_subtitles_by_time on any lines *)
Lemma line_match_groups line h m s :
  line_match line = Some (h, m, s) ->
  two_digit_group h /\ two_digit_group m /\ two_digit_group s
  /\ exists rest, line = 91%N :: rest.
Proof.
  unfold line_match. destruct line as [| c0 r0]; [discriminate |].
  destruct (N.eqb_spec c0 91) as [-> | Hne].
  2:{ destruct c0 as [| p]; [discriminate |].
      repeat (destruct p as [p | p |]; try discriminate); congruence. }
  destruct (two_digits r0) as [[gh rh] |] eqn:Hh; [| discriminate].
  destruct rh as [| c1 r1]; [discriminate |].
  destruct (N.eqb_spec c1 58) as [-> | Hne1].
  2:{ destruct c1 as [| p]; [discriminate |].
      repeat (destruct p as [p | p |]; try discriminate); congruence. }
  destruct (two_digits r1) as [[gm rm] |] eqn:Hm; [| discriminate].
  destruct rm as [| c2 r2]; [discriminate |].
  destruct (N.eqb_spec c2 58) as [-> | Hne2].
  2:{ destruct c2 as [| p]; [discriminate |].
      repeat (destruct p as [p | p |]; try discriminate); congruence. }
  destruct (two_digits r2) as [[gs rs] |] eqn:Hs; [| discriminate].
  destruct rs as [| c3 r3]; [discriminate |].
  destruct (N.eqb_spec c3 93) as [-> | Hne3].
  2:{ destruct c3 as [| p]; [discriminate |].
      repeat (destruct p as [p | p |]; try discriminate); congruence. }
  intros [= <- <- <-].
  apply two_digits_inv in Hh as (a & b & _ & -> & Ha & Hb).
  apply two_digits_inv in Hm as (c & d & _ & -> & Hc & Hd).
  apply two_digits_inv in Hs as (e & f & _ & -> & He & Hf).
  split; [now exists a, b |]. split; [now exists c, d |]. split; [now exists e, f |].
  now eexists.
Qed.

Lemma line_seconds_defined line :
  line_seconds line = None
  \/ exists v, line_seconds line = Some (Some v) /\ strip line <> [].
Proof.
  unfold line_seconds. destruct (line_match line) as [[[h m] s] |] eqn:Hl; [| now left].
  right. apply line_match_groups in Hl as (Hh & Hm & Hs & rest & ->).
  destruct (two_digit_group_value h Hh) as (vh & Vh & _).
  destruct (two_digit_group_value m Hm) as (vm & Vm & _).
  destruct (two_digit_group_value s Hs) as (vs & Vs & _).
  destruct Hh as (a & b & -> & Ha & Hb). destruct Hm as (c & d & -> & Hc & Hd).
  destruct Hs as (e & f & -> & He & Hf).
  exists (vh * 3600 + vm * 60 + vs). split; [| now apply strip_nonempty].
  change ([a; b] ++ u ":" ++ [c; d] ++ u ":" ++ [e; f]) with (canonical a b c d e f).
  now rewrite (time_to_seconds_canonical a b c d e f vh vm vs)
    by (first [now apply is_digit_not_colon | assumption]).
Qed.

Lemma filter_loop_selection ss es lines : forall acc,
  filter_loop ss es lines acc = Some (acc ++ List.filter (selected ss es) lines).
Proof.
  induction lines as [| line lines IH]; intros acc.
  - cbn [filter_loop List.filter]. now rewrite app_nil_r.
  - cbn [filter_loop List.filter]. unfold selected at 1.
    destruct (line_seconds_defined line) as [Hnone | (v & Hv & Hblank)].
    + rewrite Hnone. destruct (strip line); apply IH.
    + rewrite Hv. destruct (strip line) as [| c t]; [congruence |].
      destruct ((ss <=? v) && (v <=? es)).
      * rewrite IH. now rewrite <- app_assoc.
      * apply IH.
Qed.

Lemma selected_empty_interval ss es line : es < ss -> selected ss es line = false.
Proof.
  intros Hlt. unfold selected. destruct (line_seconds line) as [[t |] |]; try reflexivity.
  destruct (Z.leb_spec ss t); destruct (Z.leb_spec t es); try reflexivity. lia.
Qed.

Lemma parse_timecode_seconds raw t secs :
  parse_timecode raw = Some (t, secs) -> time_to_seconds t = Some secs.
Proof.
  unfold parse_timecode.
  destruct (time_pattern_match (strip raw)) as [g |]; [| discriminate].
  destruct (normalize_match g) as [t' |]; [| discriminate].
  destruct (time_to_seconds t') as [secs' |] eqn:Hs; [| discriminate].
  now intros [= <- <-].
Qed.

(** X14: For the two timecodes that [extract_segments] passes to it, those
    of an accepted start and an accepted end, [filter_subtitles_by_time]
    is the filter of the lines by the test of its loop: it keeps the
    order, adds nothing, and is empty when the end lies before the
    start. *)
Theorem excerpt_is_ordered_selection lines raw_start raw_end st et ss es :
  parse_timecode raw_start = Some (st, ss) ->
  parse_timecode raw_end = Some (et, es) ->
  filter_subtitles_by_time lines st et = List.filter (selected ss es) lines
  /\ sublist (filter_subtitles_by_time lines st et) lines
  /\ (es < ss -> filter_subtitles_by_time lines st et = []).
Proof.
  intros Hs He.
  apply parse_timecode_seconds in Hs, He.
  assert (Heq : filter_subtitles_by_time lines st et = List.filter (selected ss es) lines).
  { unfold filter_subtitles_by_time. rewrite Hs, He. now rewrite filter_loop_selection. }
  split; [exact Heq |]. rewrite Heq. split.
  - clear. induction lines as [| l lines IH]; cbn [List.filter]; [constructor |].
    destruct (selected ss es l); now constructor.
  - intros Hlt. clear Heq. induction lines as [| l lines IH]; cbn [List.filter]; [reflexivity |].
    now rewrite selected_empty_interval.
Qed.

(** format_time and whole seconds *)
Lemma ascii_digit_inj c v v' : ascii_digit c v -> ascii_digit c v' -> v = v'.
Proof.
  intros [Hv ->] [Hv' Heq]. unfold digit_char in Heq.
  assert (Z.to_N v = Z.to_N v') by lia. lia.
Qed.

Lemma format_time_injective a b :
  0 <= a < 360000 -> 0 <= b < 360000 ->
  format_time (PInt a) = format_time (PInt b) -> a = b.
Proof.
  intros Ha Hb Heq.
  destruct (format_time_below_100h a Ha)
    as (a1 & a2 & a3 & a4 & a5 & a6 & v1 & v2 & v3 & v4 & v5 & v6
        & D1 & D2 & D3 & D4 & D5 & D6 & Efa & <-).
  destruct (format_time_below_100h b Hb)
    as (b1 & b2 & b3 & b4 & b5 & b6 & w1 & w2 & w3 & w4 & w5 & w6
        & E1 & E2 & E3 & E4 & E5 & E6 & Efb & <-).
  rewrite Efa, Efb in Heq. unfold canonical in Heq. cbn [app] in Heq.
  injection Heq as -> -> -> -> -> ->.
  rewrite (ascii_digit_inj _ _ _ D1 E1), (ascii_digit_inj _ _ _ D2 E2),
    (ascii_digit_inj _ _ _ D3 E3), (ascii_digit_inj _ _ _ D4 E4),
    (ascii_digit_inj _ _ _ D5 E5), (ascii_digit_inj _ _ _ D6 E6).
  reflexivity.
Qed.

Lemma format_time_float x t :
  int_of_float x = Some t -> Z.abs t < 2 ^ 53 ->
  format_time (PFloat x) = format_time (PInt t).
Proof.
  intros Hx Ht. unfold format_time. rewrite (total_seconds_small t Ht).
  cbn [total_seconds]. now rewrite Hx.
Qed.

(** X15: Below one hundred hours two start values get the same timestamp
    exactly when they truncate to the same whole second. *)
Theorem same_timestamp_same_second x y a b :
  int_of_float x = Some a -> int_of_float y = Some b ->
  0 <= a < 360000 -> 0 <= b < 360000 ->
  (format_time (PFloat x) = format_time (PFloat y) <-> a = b).
Proof.
  intros Hx Hy Ha Hb.
  rewrite (format_time_float x a Hx), (format_time_float y b Hy) by lia.
  split; [now apply format_time_injective | now intros ->].
Qed.

(** extract_video_id: ids taken from the path *)
Lemma split_on_parts c s : Forall (fun p => ~ In c p) (split_on c s).
Proof.
  induction s as [| x s IH]; cbn [split_on]; [repeat constructor; easy |].
  destruct (N.eqb_spec x c) as [-> | Hne].
  - constructor; [easy | exact IH].
  - destruct (split_on c s) as [| p ps]; [repeat constructor; intros [? | []]; congruence |].
    inversion IH; subst. constructor; [| assumption].
    intros [? | ?]; [congruence | contradiction].
Qed.

Lemma last_part_no_separator c s : ~ In c (last_part c s).
Proof.
  unfold last_part. pose proof (split_on_parts c s) as Hall.
  rewrite List.Forall_forall in Hall.
  destruct (rev (split_on c s)) as [| p ps] eqn:Hr; [easy |].
  apply Hall. apply (proj2 (in_rev (split_on c s) p)). rewrite Hr. now left.
Qed.

Section PathIds.
Context `{External}.

(** X16: For a live or shorts URL of the two YouTube hosts the id is the part
    of the path after its last slash, and holds no slash. *)
Theorem path_id_has_no_slash url p :
  urlparse url = Some p ->
  hostname p = Some (u "www.youtube.com") \/ hostname p = Some (u "youtube.com") ->
  path p <> u "/watch" ->
  startswith (u "/live/") (path p) = true \/ startswith (u "/shorts/") (path p) = true ->
  extract_video_id url = Some (last_part 47%N (path p))
  /\ ~ In 47%N (last_part 47%N (path p)).
Proof.
  intros Hp Hhost Hwatch Hprefix. split; [| apply last_part_no_separator].
  unfold extract_video_id, video_id_of. rewrite Hp.
  assert (Hyes : bool_decide (hostname p = Some (u "www.youtube.com"))
                 || bool_decide (hostname p = Some (u "youtube.com")) = true).
  { destruct Hhost as [-> | ->]; reflexivity. }
  rewrite Hyes. unfold Str.eqb. rewrite bool_decide_eq_false_2 by assumption.
  assert (Hor : startswith (u "/live/") (path p) || startswith (u "/shorts/") (path p) = true).
  { destruct Hprefix as [-> | ->]; [reflexivity | apply orb_true_r]. }
  now rewrite Hor.
Qed.
End PathIds.

(** The excerpt of the first fifteen seconds of the sample transcript,
    for a start written with a blank and an end written without colons. *)
Lemma excerpt_is_ordered_selection_sample :
  filter_subtitles_by_time sample_transcript (u "00:00:00") (u "00:00:15")
  = List.filter (selected 0 15) sample_transcript
  /\ sublist (filter_subtitles_by_time sample_transcript (u "00:00:00")
                (u "00:00:15")) sample_transcript
  /\ (15 < 0 ->
      filter_subtitles_by_time sample_transcript (u "00:00:00") (u "00:00:15")
      = []).
Proof.
  apply (excerpt_is_ordered_selection sample_transcript (u " 0:00:00")
           (u "000015") (u "00:00:00") (u "00:00:15") 0 15).
  - vm_compute. reflexivity.
  - vm_compute. reflexivity.
Defined.

(** Two starts within the sixth second. *)
Lemma same_timestamp_same_second_sample :
  format_time (PFloat (Finite (11 # 2))) = format_time (PFloat (Finite (21 # 4)))
  <-> 5 = 5.
Proof.
  apply (same_timestamp_same_second (Finite (11 # 2)) (Finite (21 # 4)) 5 5).
  - reflexivity.
  - reflexivity.
  - lia.
  - lia.
Defined.

(** The id of a live URL. *)
Lemma path_id_has_no_slash_sample :
  let W := live_world in
  extract_video_id live_url = Some (last_part 47%N (path live_parsed))
  /\ ~ In 47%N (last_part 47%N (path live_parsed)).
Proof.
  intros W. apply (path_id_has_no_slash live_url live_parsed).
  - reflexivity.
  - left. reflexivity.
  - vm_compute. discriminate.
  - left. reflexivity.
Defined.

(** ** The subtitle sources *)

Section ResolverFacts.
Context `{Sources}.

Lemma try_languages_first vid before lang after t : forall errors,
  (forall l, In l before -> language_fails vid l) ->
  get_transcript vid lang = Fetched t ->
  try_languages vid (before ++ lang :: after) errors = inl t.
Proof.
  induction before as [| l before IH]; intros errors Hfail Hlang; cbn [app try_languages].
  - now rewrite Hlang.
  - pose proof (Hfail l (or_introl eq_refl)) as Hl. unfold language_fails in Hl.
    destruct (get_transcript vid l) as [t' | m | m].
    + now destruct (Hl t').
    + apply IH; [| exact Hlang]. intros l' Hin. apply Hfail. now right.
    + apply IH; [| exact Hlang]. intros l' Hin. apply Hfail. now right.
Qed.

Lemma try_languages_fail vid langs : forall errors,
  (forall l, In l langs -> language_fails vid l) ->
  try_languages vid langs errors = inr (errors ++ map (diagnostic vid) langs).
Proof.
  induction langs as [| l langs IH]; intros errors Hfail; cbn [try_languages map].
  - now rewrite app_nil_r.
  - pose proof (Hfail l (or_introl eq_refl)) as Hl. unfold language_fails in Hl.
    unfold diagnostic at 1.
    destruct (get_transcript vid l) as [t' | m | m].
    + now destruct (Hl t').
    + rewrite IH by (intros l' Hin; apply Hfail; now right). now rewrite <- app_assoc.
    + rewrite IH by (intros l' Hin; apply Hfail; now right). now rewrite <- app_assoc.
Qed.

Lemma try_languages_inr vid langs : forall errors errors',
  try_languages vid langs errors = inr errors' ->
  forall l, In l langs -> language_fails vid l.
Proof.
  induction langs as [| l langs IH]; intros errors errors' Htry l' Hin; [easy |].
  cbn [try_languages] in Htry.
  destruct (get_transcript vid l) as [t' | m | m] eqn:Hl; [discriminate | |];
    (destruct Hin as [<- | Hin];
     [intros t Ht; congruence | eapply IH; eassumption]).
Qed.

(** X17: The first method returns the transcript of the first language, in the
    order ja, ja-JP, en, whose call returns, and no error message. *)
Theorem api_first_returning_language vid before lang after t :
  LANG_PRIORITY = before ++ lang :: after ->
  (forall l, In l before -> language_fails vid l) ->
  get_transcript vid lang = Fetched t ->
  get_subtitles_from_youtube_transcript_api vid = (Some t, None).
Proof.
  intros Hsplit Hfail Hlang. unfold get_subtitles_from_youtube_transcript_api.
  rewrite Hsplit. now rewrite (try_languages_first vid before lang after t).
Qed.

(** X18: The first method returns no transcript exactly when the calls for all
    three languages fail, and its message then lists the diagnostics of
    the three languages in order, separated by semicolons. *)
Theorem api_fails_when_all_languages_fail vid :
  (fst (get_subtitles_from_youtube_transcript_api vid) = None
   <-> forall l, In l LANG_PRIORITY -> language_fails vid l)
  /\ ((forall l, In l LANG_PRIORITY -> language_fails vid l) ->
      get_subtitles_from_youtube_transcript_api vid
      = (None, Some (FETCH_FAILED
                     ++ join (u "; ") (map (diagnostic vid) LANG_PRIORITY)))).
Proof.
  assert (Hfail : (forall l, In l LANG_PRIORITY -> language_fails vid l) ->
            get_subtitles_from_youtube_transcript_api vid
            = (None, Some (FETCH_FAILED
                           ++ join (u "; ") (map (diagnostic vid) LANG_PRIORITY)))).
  { intros Hall. unfold get_subtitles_from_youtube_transcript_api.
    now rewrite (try_languages_fail vid LANG_PRIORITY [] Hall). }
  split; [| exact Hfail]. split.
  - unfold get_subtitles_from_youtube_transcript_api.
    destruct (try_languages vid LANG_PRIORITY []) as [t | errors] eqn:Htry; [discriminate |].
    intros _. now apply (try_languages_inr vid LANG_PRIORITY [] errors).
  - intros Hall. now rewrite (Hfail Hall).
Qed.

Lemma first_track_found authored automatic before lang after t :
  (forall l, In l before -> obj_get authored l = None /\ obj_get automatic l = None) ->
  obj_get authored lang = Some t
    \/ (obj_get authored lang = None /\ obj_get automatic lang = Some t) ->
  first_track authored automatic (before ++ lang :: after) = Some t.
Proof.
  intros Hbefore Hlang. induction before as [| l before IH]; cbn [app first_track].
  - destruct Hlang as [-> | [-> ->]]; reflexivity.
  - destruct (Hbefore l (or_introl eq_refl)) as [-> ->].
    apply IH. intros l' Hin. apply Hbefore. now right.
Qed.

Lemma first_track_none authored automatic langs :
  first_track authored automatic langs = None <->
  forall l, In l langs -> obj_get authored l = None /\ obj_get automatic l = None.
Proof.
  induction langs as [| l langs IH]; cbn [first_track]; [easy |].
  destruct (obj_get authored l) as [t |] eqn:Ha.
  - split; [discriminate |]. intros Hall. destruct (Hall l (or_introl eq_refl)) as [Hx _].
    congruence.
  - destruct (obj_get automatic l) as [t |] eqn:Hb.
    + split; [discriminate |]. intros Hall. destruct (Hall l (or_introl eq_refl)) as [_ Hx].
      congruence.
    + rewrite IH. split.
      * intros Hall l' [<- | Hin]; [now split | now apply Hall].
      * intros Hall l' Hin. apply Hall. now right.
Qed.

(** X19: The second method returns the track of the first language, in the
    order ja, ja-JP, en, that has one, and within a language the authored
    subtitles before the automatic captions. *)
Theorem track_of_first_language vid info before lang after t :
  caption_tracks vid = inr info ->
  LANG_PRIORITY = before ++ lang :: after ->
  (forall l, In l before -> no_track info l) ->
  obj_get (default [] (subtitles info)) lang = Some t
    \/ (obj_get (default [] (subtitles info)) lang = None
        /\ obj_get (default [] (automatic_captions info)) lang = Some t) ->
  get_subtitles_from_yt_dlp vid = (Some t, None).
Proof.
  intros Hinfo Hsplit Hbefore Hlang. unfold get_subtitles_from_yt_dlp.
  rewrite Hinfo, Hsplit.
  now rewrite (first_track_found _ _ before lang after t Hbefore Hlang).
Qed.

(** X20: The second method passes the message of a failed lookup on, and
    otherwise returns no track exactly when none of the three languages
    has one of either kind, with the fixed message. *)
Theorem track_missing_or_error vid :
  match caption_tracks vid with
  | inl message => get_subtitles_from_yt_dlp vid = (None, Some message)
  | inr info =>
      (fst (get_subtitles_from_yt_dlp vid) = None
       <-> forall l, In l LANG_PRIORITY -> no_track info l)
      /\ ((forall l, In l LANG_PRIORITY -> no_track info l) ->
          get_subtitles_from_yt_dlp vid = (None, Some TRACK_NOT_FOUND))
  end.
Proof.
  unfold get_subtitles_from_yt_dlp.
  destruct (caption_tracks vid) as [message | info]; [reflexivity |].
  destruct (first_track _ _ LANG_PRIORITY) as [t |] eqn:Hft.
  - assert (Hno : ~ forall l, In l LANG_PRIORITY -> no_track info l).
    { intros Hall. pose proof (proj2 (first_track_none _ _ _) Hall). congruence. }
    split; [split; [discriminate | tauto] | tauto].
  - pose proof (proj1 (first_track_none _ _ _) Hft) as Hnone.
    split; [split; [intros _; exact Hnone | reflexivity] | reflexivity].
Qed.

End ResolverFacts.

(** Sources with an English transcript only. *)
Lemma api_first_returning_language_sample :
  let S := sample_sources in
  get_subtitles_from_youtube_transcript_api (u "abc")
  = (Some sample_items, None).
Proof.
  intros S.
  apply (api_first_returning_language (u "abc") [u "ja"; u "ja-JP"] (u "en")
           [] sample_items).
  - reflexivity.
  - intros l [<- | [<- | []]] t; vm_compute; discriminate.
  - reflexivity.
Defined.

(** Sources with automatic English captions only. *)
Lemma track_of_first_language_sample :
  let S := sample_sources in
  get_subtitles_from_yt_dlp (u "abc") = (Some sample_track, None).
Proof.
  intros S.
  apply (track_of_first_language (u "abc") sample_info [u "ja"; u "ja-JP"]
           (u "en") [] sample_track).
  - reflexivity.
  - reflexivity.
  - intros l [<- | [<- | []]]; split; reflexivity.
  - right. split; reflexivity.
Defined.

(** * Saving the transcript *)
(** safe_title *)
Lemma safe_title_chars t : forall c, In c (safe_title t) -> forbidden c = false.
Proof.
  unfold safe_title. intros c Hc. apply in_map_iff in Hc as (x & <- & _).
  destruct (forbidden x) eqn:Hx; [reflexivity | exact Hx].
Qed.

Lemma safe_title_fixed t :
  (forall c, In c t -> forbidden c = false) -> safe_title t = t.
Proof.
  unfold safe_title. induction t as [| x t IH]; intros Hall; [reflexivity |].
  cbn [map]. rewrite (Hall x (or_introl eq_refl)). f_equal.
  apply IH. intros c Hc. apply Hall. now right.
Qed.

Lemma last_part_after c before name :
  ~ In c name -> last_part c (before ++ c :: name) = name.
Proof.
  intros Hname. unfold last_part.
  assert (Hsplit : forall s, ~ In c s -> split_on c s = [s]).
  { induction s as [| x s IH]; intros Hs; [reflexivity |]. cbn [split_on].
    destruct (N.eqb_spec x c) as [-> | Hne]; [exfalso; apply Hs; now left |].
    rewrite IH by (intros Hin; apply Hs; now right). reflexivity. }
  assert (Hlast : forall b, exists p ps, split_on c (b ++ c :: name) = (p :: ps) ++ [name]).
  { induction b as [| x b IH]; cbn [app split_on].
    - rewrite N.eqb_refl, (Hsplit name Hname). now exists [], [].
    - destruct IH as (p & ps & Hparts). rewrite Hparts.
      destruct (x =? c)%N.
      + now exists [], (p :: ps).
      + now exists (x :: p), ps. }
  destruct (Hlast before) as (p & ps & ->). rewrite rev_app_distr. reflexivity.
Qed.

Lemma suffix_no_straddle s :
  s <> [] ->
  startswith SUBTITLES_SUFFIX (s ++ SUBTITLES_SUFFIX) = true ->
  startswith SUBTITLES_SUFFIX s = true.
Proof.
  let x := eval vm_compute in SUBTITLES_SUFFIX in change SUBTITLES_SUFFIX with x.
  intros Hne.
  do 14 (destruct s as [| ? s];
         [first [congruence
                | cbn [app startswith N.eqb Pos.eqb andb];
                  rewrite ?andb_false_r; discriminate] |]).
  cbn [app startswith]. intros Hs. exact Hs.
Qed.

Lemma replace_suffix_removed s :
  contains SUBTITLES_SUFFIX s = false ->
  replace SUBTITLES_SUFFIX [] (s ++ SUBTITLES_SUFFIX) = s.
Proof.
  unfold replace. induction s as [| x s IH]; intros Hs.
  - vm_compute. reflexivity.
  - cbn [contains] in Hs. apply orb_false_iff in Hs as [Hhead Htail].
    change ((x :: s) ++ SUBTITLES_SUFFIX) with (x :: (s ++ SUBTITLES_SUFFIX)).
    cbn [replace_from].
    change (x :: (s ++ SUBTITLES_SUFFIX)) with ((x :: s) ++ SUBTITLES_SUFFIX).
    destruct (startswith SUBTITLES_SUFFIX ((x :: s) ++ SUBTITLES_SUFFIX)) eqn:Hst.
    + apply suffix_no_straddle in Hst; [congruence | discriminate].
    + f_equal. now apply IH.
Qed.

Lemma subtitle_output_plain video_title :
  ~ In 47%N (safe_title video_title ++ SUBTITLES_SUFFIX)
  /\ subtitle_output video_title
     = DOWNLOADS_DIR ++ 47%N :: (safe_title video_title ++ SUBTITLES_SUFFIX).
Proof.
  assert (Hslash : ~ In 47%N (safe_title video_title ++ SUBTITLES_SUFFIX)).
  { intros Hin. apply in_app_iff in Hin as [Hin | Hin].
    - apply safe_title_chars in Hin. discriminate.
    - vm_compute in Hin. intuition discriminate. }
  split; [exact Hslash |].
  unfold subtitle_output. rewrite (in_downloads_plain _ Hslash); [reflexivity | |].
  - destruct (safe_title video_title); discriminate.
  - intros Heq. apply (f_equal (@length N)) in Heq.
    rewrite length_app in Heq. cbn in Heq. lia.
Qed.

(** X21: The title that [extract_segments] reads off the name of the
    transcript file is the safe title under which
    [download_video_and_subtitles] saved it, as long as the safe title
    does not contain the suffix of the file name itself. *)
Theorem title_survives_the_file_name video_title :
  contains SUBTITLES_SUFFIX (safe_title video_title) = false ->
  title_of_file (subtitle_output video_title) = safe_title video_title.
Proof.
  intros Hs. unfold title_of_file.
  destruct (subtitle_output_plain video_title) as [Hslash ->].
  rewrite (last_part_after 47%N _ _ Hslash).
  now apply replace_suffix_removed.
Qed.

(** X22: The safe title has the length of the title and none of the nine
    characters of the class, making it safe changes nothing more, and the
    transcript file lies directly in the downloads directory under the
    safe title and the suffix. *)
Theorem safe_title_is_a_file_name video_title :
  length (safe_title video_title) = length video_title
  /\ (forall c, In c (safe_title video_title) -> forbidden c = false)
  /\ safe_title (safe_title video_title) = safe_title video_title
  /\ last_part 47%N (subtitle_output video_title)
     = safe_title video_title ++ SUBTITLES_SUFFIX.
Proof.
  split; [apply length_map |]. split; [apply safe_title_chars |].
  split; [apply safe_title_fixed, safe_title_chars |].
  destruct (subtitle_output_plain video_title) as [Hslash ->].
  now apply last_part_after.
Qed.


(** * Reading the transcript back *)

Lemma splitlines_plain l : forall cur s,
  (forall c, In c l -> is_line_break c = false) ->
  splitlines_from false cur (l ++ s) = splitlines_from false (cur ++ l) s.
Proof.
  induction l as [| c l IH]; intros cur s Hl.
  - now rewrite app_nil_r.
  - cbn [app splitlines_from andb].
    rewrite (Hl c (or_introl eq_refl)).
    rewrite IH by (intros c' Hc'; apply Hl; now right).
    now rewrite <- app_assoc.
Qed.

Lemma splitlines_block lines : forall s,
  lines <> [] -> Forall one_line lines ->
  splitlines_from false [] (join [10%N] lines ++ 10%N :: s)
  = lines ++ splitlines_from false [] s.
Proof.
  induction lines as [| p [| q r] IH]; intros s Hne Hall; [congruence | |].
  - inversion Hall as [| ? ? [_ Hp] _]; subst.
    cbn [join]. rewrite splitlines_plain by exact Hp. reflexivity.
  - inversion Hall as [| ? ? [_ Hp] Hrest]; subst.
    change (join [10%N] (p :: q :: r)) with (p ++ [10%N] ++ join [10%N] (q :: r)).
    rewrite <- !app_assoc. rewrite splitlines_plain by exact Hp.
    cbn [app splitlines_from andb is_line_break].
    change (is_line_break 10) with true. cbn iota.
    change (10 =? 13)%N with false.
    rewrite IH by (assumption || discriminate). reflexivity.
Qed.

Lemma splitlines_join lines :
  Forall one_line lines -> splitlines (join_lines lines) = lines.
Proof.
  unfold splitlines, join_lines.
  induction lines as [| p [| q r] IH]; intros Hall; [reflexivity | |].
  - inversion Hall as [| ? ? [Hne Hp] _]; subst. cbn [join].
    rewrite <- (app_nil_r p) at 1. rewrite splitlines_plain by exact Hp.
    cbn [app splitlines_from]. destruct p; [congruence | reflexivity].
  - inversion Hall as [| ? ? [_ Hp] Hrest]; subst.
    change (join [10%N] (p :: q :: r)) with (p ++ [10%N] ++ join [10%N] (q :: r)).
    rewrite splitlines_plain by exact Hp.
    cbn [app splitlines_from andb].
    change (is_line_break 10) with true. cbn iota.
    change (10 =? 13)%N with false.
    now rewrite IH.
Qed.

(** The characters of a timestamp and of a cleaned text *)

Lemma chars_of_uint_range d c : In c (chars_of_uint d) -> (48 <= c <= 57)%N.
Proof.
  induction d; cbn [chars_of_uint]; intros Hin;
    try (destruct Hin as [<- | Hin]; [lia | now apply IHd]).
  destruct Hin.
Qed.

Lemma pad2_range z c : In c (pad2 z) -> (45 <= c <= 57)%N.
Proof.
  assert (Hof : forall c', In c' (of_int z) -> (45 <= c' <= 57)%N).
  { intros c'. unfold of_int. destruct (z <? 0).
    - intros [<- | Hin]; [lia |]. apply chars_of_uint_range in Hin. lia.
    - intros Hin. apply chars_of_uint_range in Hin. lia. }
  unfold pad2. destruct ((0 <=? z) && (z <? 10)).
  - intros [<- | Hin]; [lia | now apply Hof].
  - apply Hof.
Qed.

Lemma format_time_range x c : In c (format_time x) -> (45 <= c <= 93)%N.
Proof.
  unfold format_time. destruct (total_seconds x) as [total |].
  - unfold render_time. cbn [u]. intros Hin.
    repeat (apply in_app_iff in Hin as [Hin | Hin]);
      try (apply pad2_range in Hin; lia);
      vm_compute in Hin; intuition lia.
  - intros Hin. vm_compute in Hin. intuition lia.
Qed.

Lemma line_break_is_space c :
  is_line_break c = true -> is_space c = true /\ c <> 32%N.
Proof.
  unfold is_line_break, is_space.
  rewrite !orb_true_iff, !andb_true_iff, !N.leb_le, !N.eqb_eq. lia.
Qed.

Lemma range_no_line_break c : (45 <= c <= 93)%N -> is_line_break c = false.
Proof.
  intros Hc. destruct (is_line_break c) eqn:Hb; [| reflexivity].
  unfold is_line_break in Hb.
  rewrite !orb_true_iff, !andb_true_iff, !N.leb_le, !N.eqb_eq in Hb. lia.
Qed.

Lemma clean_text_no_line_break text c :
  In c (clean_text text) -> is_line_break c = false.
Proof.
  intros Hc. destruct (is_line_break c) eqn:Hb; [| reflexivity].
  apply line_break_is_space in Hb as [Hs Hne].
  now apply (clean_text_plain_space text) in Hs.
Qed.

Lemma join_In sep parts c :
  In c (join sep parts) -> In c sep \/ exists p, In p parts /\ In c p.
Proof.
  induction parts as [| p [| q r] IH]; [intros [] | |].
  - cbn [join]. intros Hin. right. exists p. split; [now left | exact Hin].
  - change (join sep (p :: q :: r)) with (p ++ sep ++ join sep (q :: r)).
    intros Hin. apply in_app_iff in Hin as [Hin | Hin].
    + right. exists p. split; [now left | exact Hin].
    + apply in_app_iff in Hin as [Hin | Hin]; [now left |].
      destruct (IH Hin) as [Hsep | (p' & Hp' & Hc)]; [now left |].
      right. exists p'. split; [now right | exact Hc].
Qed.

Lemma timed_text_one_line x text :
  clean_text text <> [] ->
  one_line (format_time x ++ u " " ++ clean_text text).
Proof.
  intros Hne. split.
  - destruct (format_time_nonempty x) as (c & t & ->). discriminate.
  - intros c Hin. apply in_app_iff in Hin as [Hin | Hin].
    + apply range_no_line_break. now apply (format_time_range x).
    + apply in_app_iff in Hin as [Hin | Hin].
      * vm_compute in Hin. destruct Hin as [<- | []]. reflexivity.
      * now apply (clean_text_no_line_break text).
Qed.

Lemma normalize_track_one_line transcript :
  Forall one_line (normalize_track transcript).
Proof.
  induction transcript as [| item rest IH]; [constructor |].
  cbn [normalize_track].
  destruct (clean_text (default [] (track_text item))) as [| c t] eqn:Htext;
    [exact IH |].
  constructor; [| exact IH]. rewrite <- Htext.
  apply timed_text_one_line. rewrite Htext. discriminate.
Qed.

Lemma kept_sources transcript :
  Forall (fun p => exists item,
            fst p = format_time (item_start item)
            /\ snd p = clean_text (item_text item))
    (kept transcript).
Proof.
  induction transcript as [| item rest IH]; [constructor |]. cbn [kept].
  destruct (clean_text (item_text item)) as [| c t] eqn:Htext; [exact IH |].
  constructor; [| exact IH]. exists item. now rewrite Htext.
Qed.

Lemma groups_members l g x :
  In g (groups l) -> In x (snd g) -> In (fst g, x) l.
Proof.
  intros Hg Hx. rewrite <- (groups_flatten l).
  apply in_flat_map. exists g. split; [exact Hg |]. now apply in_map.
Qed.

Lemma normalize_api_one_line transcript :
  Forall one_line (normalize_api transcript).
Proof.
  rewrite normalize_api_groups. apply List.Forall_forall.
  intros line Hline. apply in_map_iff in Hline as ([t xs] & <- & Hg).
  pose proof (groups_nonempty (kept transcript)) as Hne.
  rewrite List.Forall_forall in Hne. specialize (Hne _ Hg). cbn [snd] in Hne.
  pose proof (kept_sources transcript) as Hsrc.
  rewrite List.Forall_forall in Hsrc.
  assert (Hmem : forall x, In x xs -> exists item,
            t = format_time (item_start item)
            /\ x = clean_text (item_text item)).
  { intros x Hx. apply (Hsrc (t, x)).
    now apply (groups_members _ (t, xs) x). }
  unfold render_group, render_line. cbn [fst snd].
  destruct xs as [| x0 xs0]; [congruence |].
  destruct (Hmem x0 (or_introl eq_refl)) as (item0 & Ht & _).
  split.
  - rewrite Ht. destruct (format_time_nonempty (item_start item0)) as (c & r & ->).
    discriminate.
  - intros c Hin. apply in_app_iff in Hin as [Hin | Hin].
    + apply range_no_line_break. rewrite Ht in Hin.
      now apply (format_time_range (item_start item0)).
    + apply in_app_iff in Hin as [Hin | Hin].
      * vm_compute in Hin. destruct Hin as [<- | []]. reflexivity.
      * apply join_In in Hin as [Hin | (x & Hx & Hc)].
        -- vm_compute in Hin. destruct Hin as [<- | []]. reflexivity.
        -- destruct (Hmem x Hx) as (item & _ & ->).
           now apply (clean_text_no_line_break (item_text item)).
Qed.

Section AcquisitionFacts.
Context `{External} `{Sources}.

Lemma formatted_lines_one_line video_id lines :
  formatted_lines video_id = inl lines -> Forall one_line lines.
Proof.
  unfold formatted_lines.
  destruct (get_subtitles_from_youtube_transcript_api video_id)
    as [[[| item items] |] error1];
  try (intros Heq;
       replace lines with (normalize_api (item :: items)) by congruence;
       apply normalize_api_one_line);
  destruct (get_subtitles_from_yt_dlp video_id)
    as [[[| item2 items2] |] error2];
  try discriminate;
  intros Heq;
  replace lines with (normalize_track (item2 :: items2)) by congruence;
  apply normalize_track_one_line.
Qed.


(** X24: The transcript file that [download_video_and_subtitles] writes, read
    the way [extract_segments] reads it (split at the line boundaries),
    gives back the returned lines: no line is empty or holds a line
    boundary. *)
Theorem saved_transcript_reads_back url d path :
  acq_file (fst (download_video_and_subtitles url d)) = Some path ->
  exists lines,
    acq_subtitles (fst (download_video_and_subtitles url d)) = Some lines
    /\ snd (download_video_and_subtitles url d) !! path
       = Some (Text (join_lines lines))
    /\ splitlines (join_lines lines) = lines.
Proof.
  unfold download_video_and_subtitles.
  destruct (extract_video_id url) as [[| c rest] |]; try discriminate.
  destruct (formatted_lines (c :: rest)) as [[| line lines] | msg] eqn:Hlines;
    try discriminate.
  cbn. intros Heq. injection Heq as <-.
  exists (line :: lines). split; [reflexivity |].
  split; [apply lookup_insert_eq |].
  apply splitlines_join. now apply (formatted_lines_one_line (c :: rest)).
Qed.

End AcquisitionFacts.

(** The title [talk]. *)
Lemma title_survives_the_file_name_sample :
  title_of_file (subtitle_output (u "talk")) = safe_title (u "talk").
Proof.
  apply (title_survives_the_file_name (u "talk")). vm_compute. reflexivity.
Defined.

(** The transcript of the sample sources, saved and read back. *)
Lemma saved_transcript_reads_back_sample :
  let W := fair_world JNull in
  let S := sample_sources in
  exists lines,
    acq_subtitles (fst (download_video_and_subtitles youtu_be_url ∅))
    = Some lines
    /\ snd (download_video_and_subtitles youtu_be_url ∅)
         !! sample_subtitle_file
       = Some (Text (join_lines lines))
    /\ splitlines (join_lines lines) = lines.
Proof.
  intros W S.
  apply (saved_transcript_reads_back youtu_be_url ∅ sample_subtitle_file).
  vm_compute. reflexivity.
Defined.

(** * The port of the server *)

Lemma py_range_nil start stop : stop <= start -> py_range start stop = [].
Proof.
  intros Hle. unfold py_range.
  replace (Z.to_nat (stop - start)) with 0%nat by lia. reflexivity.
Qed.

Lemma py_range_cons start stop : start < stop ->
  py_range start stop = start :: py_range (start + 1) stop.
Proof.
  intros Hlt. unfold py_range.
  replace (Z.to_nat (stop - start)) with (S (Z.to_nat (stop - (start + 1))))
    by lia.
  cbn [seq map]. f_equal; [lia |].
  rewrite <- seq_shift, map_map. apply map_ext. intros i. lia.
Qed.

Section PortFacts.
Variable can_bind : Z -> bool.

Lemma find_available_port_spec (n : nat) : forall start_port max_port,
  Z.to_nat (max_port - start_port) = n ->
  match find_available_port can_bind start_port max_port with
  | Found port =>
      start_port <= port < max_port /\ 0 <= port <= 65535
      /\ can_bind port = true
      /\ forall q, start_port <= q < port -> can_bind q = false
  | NoneAvailable =>
      forall q, start_port <= q < max_port ->
                can_bind q = false /\ 0 <= q <= 65535
  | BindOverflow =>
      exists q, start_port <= q < max_port /\ (q < 0 \/ 65535 < q)
                /\ forall q', start_port <= q' < q -> can_bind q' = false
  end.
Proof.
  unfold find_available_port.
  induction n as [| n IH]; intros start_port max_port Hn.
  - rewrite py_range_nil by lia. cbn [first_free]. intros q Hq. lia.
  - rewrite py_range_cons by lia. cbn [first_free].
    destruct ((start_port <? 0) || (65535 <? start_port)) eqn:Hout.
    + exists start_port. split; [lia |]. split; [lia |]. intros q' Hq'. lia.
    + apply orb_false_iff in Hout as [Hlo Hhi].
      destruct (can_bind start_port) eqn:Hbind.
      * split; [lia |]. split; [lia |]. split; [exact Hbind |].
        intros q Hq. lia.
      * specialize (IH (start_port + 1) max_port ltac:(lia)).
        destruct (first_free can_bind (py_range (start_port + 1) max_port))
          as [port | |].
        -- destruct IH as (Hr & Hv & Hb & Hlow).
           split; [lia |]. split; [exact Hv |]. split; [exact Hb |].
           intros q Hq. destruct (Z.eq_dec q start_port) as [-> | Hne];
             [exact Hbind | apply Hlow; lia].
        -- intros q Hq. destruct (Z.eq_dec q start_port) as [-> | Hne];
             [split; [exact Hbind | lia] | apply IH; lia].
        -- destruct IH as (q & Hr & Hv & Hlow). exists q.
           split; [lia |]. split; [exact Hv |].
           intros q' Hq'. destruct (Z.eq_dec q' start_port) as [-> | Hne];
             [exact Hbind | apply Hlow; lia].
Qed.

(** X25: A port that [find_available_port] returns lies in the range, can be
    bound, and is the lowest such port of the range. *)
Theorem found_port_is_the_lowest_free start_port max_port port :
  find_available_port can_bind start_port max_port = Found port ->
  start_port <= port < max_port
  /\ can_bind port = true
  /\ forall q, start_port <= q < port -> can_bind q = false.
Proof.
  intros Hfound.
  pose proof (find_available_port_spec _ start_port max_port eq_refl) as Hspec.
  rewrite Hfound in Hspec. tauto.
Qed.

(** X26: For a range inside the ports 0 to 65535 the search never raises the
    overflow of bind, and raises RuntimeError exactly when no port of the
    range can be bound. *)
Theorem no_port_only_when_all_taken start_port max_port :
  0 <= start_port -> max_port <= 65536 ->
  find_available_port can_bind start_port max_port <> BindOverflow
  /\ (find_available_port can_bind start_port max_port = NoneAvailable
      <-> forall q, start_port <= q < max_port -> can_bind q = false).
Proof.
  intros Hlo Hhi.
  pose proof (find_available_port_spec _ start_port max_port eq_refl) as Hspec.
  destruct (find_available_port can_bind start_port max_port) as [port | |].
  - split; [discriminate |]. split; [discriminate |].
    intros Hall. destruct Hspec as (Hr & _ & Hb & _).
    rewrite (Hall port Hr) in Hb. discriminate.
  - split; [discriminate |]. split; [| reflexivity].
    intros _ q Hq. now apply Hspec.
  - destruct Hspec as (q & Hr & Hv & _). lia.
Qed.

End PortFacts.

(** * cleanup_port *)

Section CleanupFacts.
Variable terminate : list Z -> Z -> bool.

Lemma scan_connections_log p port conns : forall log,
  exists added,
    fst (scan_connections terminate p port conns log) = log ++ added
    /\ (forall q, In q added -> q = p /\ In (Local port) conns).
Proof.
  induction conns as [| [q |] rest IH]; intros log.
  - exists []. split; [now rewrite app_nil_r | intros q []].
  - cbn [scan_connections]. destruct (Z.eqb_spec q port) as [-> | Hne].
    + destruct (terminate log p).
      * destruct (IH (log ++ [p])) as (added & Heq & Hadd).
        exists (p :: added). split.
        -- rewrite Heq. now rewrite <- app_assoc.
        -- intros q [<- | Hq]; [split; [reflexivity | now left] |].
           destruct (Hadd q Hq) as [-> Hin]. split; [reflexivity | now right].
      * exists []. split; [now rewrite app_nil_r | intros q []].
    + destruct (IH log) as (added & Heq & Hadd).
      exists added. split; [exact Heq |].
      intros q' Hq'. destruct (Hadd q' Hq') as [-> Hin].
      split; [reflexivity | now right].
  - exists []. split; [now rewrite app_nil_r | intros q []].
Qed.

Lemma cleanup_from_log port procs : forall log,
  exists added,
    cleanup_from terminate port procs log = log ++ added
    /\ (forall q, In q added ->
          exists proc, In proc procs /\ pid proc = q
                       /\ holds_port port proc).
Proof.
  induction procs as [| proc rest IH]; intros log.
  - exists []. split; [now rewrite app_nil_r | intros q []].
  - cbn [cleanup_from].
    destruct (proc_connections proc) as [conns |] eqn:Hconns.
    + destruct (scan_connections_log (pid proc) port conns log)
        as (added & Heq & Hadd).
      destruct (scan_connections terminate (pid proc) port conns log)
        as [log' e]. cbn [fst] in Heq. subst log'.
      assert (Hhere : forall q, In q added ->
                exists proc', In proc' (proc :: rest) /\ pid proc' = q
                              /\ holds_port port proc').
      { intros q Hq. destruct (Hadd q Hq) as [-> Hin].
        exists proc. split; [now left |]. split; [reflexivity |].
        exists conns. now split. }
      assert (Hgo : exists added',
                cleanup_from terminate port rest (log ++ added)
                = log ++ added'
                /\ forall q, In q added' ->
                     exists proc', In proc' (proc :: rest) /\ pid proc' = q
                                   /\ holds_port port proc').
      { destruct (IH (log ++ added)) as (more & Heq & Hmore).
        exists (added ++ more). split; [now rewrite Heq, app_assoc |].
        intros q Hq. apply in_app_iff in Hq as [Hq | Hq]; [now apply Hhere |].
        destruct (Hmore q Hq) as (proc' & Hin & Hrest).
        exists proc'. split; [now right | exact Hrest]. }
      destruct e; [exact Hgo | exact Hgo |].
      exists added. split; [reflexivity | exact Hhere].
    + destruct (IH log) as (added & Heq & Hadd).
      exists added. split; [exact Heq |].
      intros q Hq. destruct (Hadd q Hq) as (proc' & Hin & Hrest).
      exists proc'. split; [now right | exact Hrest].
Qed.

(** X27: [cleanup_port] terminates only processes that hold the port: every
    pid it terminates is the pid of a listed process with a connection
    bound to the port. *)
Theorem cleanup_terminates_only_holders port procs p :
  In p (cleanup_port terminate port procs) ->
  exists proc, In proc procs /\ pid proc = p /\ holds_port port proc.
Proof.
  unfold cleanup_port. intros Hin.
  destruct (cleanup_from_log port procs []) as (added & Heq & Hadd).
  rewrite Heq in Hin. now apply Hadd.
Qed.

Lemma scan_connections_complete p port conns : forall log,
  (forall l, terminate l p = true) -> ~ In NoAddress conns ->
  snd (scan_connections terminate p port conns log) = Scanned
  /\ (In (Local port) conns ->
      In p (fst (scan_connections terminate p port conns log))).
Proof.
  intros log Hterm. revert log.
  induction conns as [| [q |] rest IH]; intros log Hno.
  - split; [reflexivity | intros []].
  - assert (Hrest : ~ In NoAddress rest) by (intros Hin; apply Hno; now right).
    cbn [scan_connections]. destruct (Z.eqb_spec q port) as [-> | Hne].
    + rewrite Hterm. split; [now apply IH |]. intros _.
      destruct (scan_connections_log p port rest (log ++ [p]))
        as (added & -> & _).
      apply in_app_iff. left. apply in_app_iff. right. now left.
    + split; [now apply IH |].
      intros [Heq | Hin]; [congruence | now apply IH].
  - exfalso. apply Hno. now left.
Qed.

(** X28: When terminating never fails and no connection lacks its local
    address, [cleanup_port] terminates every process that holds the
    port. *)
Theorem cleanup_reaches_every_holder port procs proc :
  (forall log p, terminate log p = true) ->
  (forall proc' conns, In proc' procs ->
     proc_connections proc' = Some conns -> ~ In NoAddress conns) ->
  In proc procs -> holds_port port proc ->
  In (pid proc) (cleanup_port terminate port procs).
Proof.
  intros Hterm. unfold cleanup_port. generalize (@nil Z) as log.
  induction procs as [| first rest IH]; intros log Haddr Hin Hholds;
    [destruct Hin |].
  cbn [cleanup_from].
  assert (Hrest : forall proc' conns, In proc' rest ->
            proc_connections proc' = Some conns -> ~ In NoAddress conns).
  { intros proc' conns Hin'. apply Haddr. now right. }
  destruct (proc_connections first) as [conns |] eqn:Hconns.
  - destruct (scan_connections_complete (pid first) port conns log
                (fun l => Hterm l (pid first))
                (Haddr first conns (or_introl eq_refl) Hconns))
      as [Hend Hfound].
    destruct (scan_connections terminate (pid first) port conns log)
      as [log' e] eqn:Hscan.
    cbn [fst snd] in Hend, Hfound. subst e.
    destruct Hin as [-> | Hin].
    + destruct Hholds as (conns' & Hc & Hp).
      assert (conns' = conns) by congruence. subst conns'.
      destruct (cleanup_from_log port rest log') as (added & -> & _).
      apply in_app_iff. left. now apply Hfound.
    + now apply IH.
  - destruct Hin as [-> | Hin].
    + destruct Hholds as (conns' & Hc & _). congruence.
    + now apply IH.
Qed.

Lemma scan_connections_aborts p port before after : forall log,
  ~ In (Local port) before ->
  scan_connections terminate p port (before ++ NoAddress :: after) log
  = (log, Aborted).
Proof.
  induction before as [| [q |] rest IH]; intros log Hno; [reflexivity | |].
  - cbn [app scan_connections]. destruct (Z.eqb_spec q port) as [-> | Hne].
    + exfalso. apply Hno. now left.
    + apply IH. intros Hin. apply Hno. now right.
  - reflexivity.
Qed.

(** X29: A connection without local address, met before any connection of its
    process on the port, ends the whole cleanup: the processes listed
    after it are left alone, whether they hold the port or not. *)
Theorem socket_without_address_ends_cleanup port before proc after cs1 cs2 :
  proc_connections proc = Some (cs1 ++ NoAddress :: cs2) ->
  ~ In (Local port) cs1 ->
  cleanup_port terminate port (before ++ proc :: after)
  = cleanup_port terminate port before.
Proof.
  intros Hconns Hno. unfold cleanup_port. generalize (@nil Z) as log.
  induction before as [| first rest IH]; intros log.
  - cbn [app cleanup_from]. rewrite Hconns.
    now rewrite scan_connections_aborts.
  - cbn [app cleanup_from]. destruct (proc_connections first) as [conns |].
    + destruct (scan_connections terminate (pid first) port conns log)
        as [log' e].
      destruct e; [apply IH | apply IH | reflexivity].
    + apply IH.
Qed.

End CleanupFacts.

(** The ports 8000 and 8001 are taken. *)
Lemma found_port_is_the_lowest_free_sample :
  8000 <= 8002 < 9000
  /\ taken_below 8002 8002 = true
  /\ forall q, 8000 <= q < 8002 -> taken_below 8002 q = false.
Proof.
  apply (found_port_is_the_lowest_free (taken_below 8002) 8000 9000 8002).
  vm_compute. reflexivity.
Defined.

(** Every port of the default range is taken. *)
Lemma no_port_only_when_all_taken_sample :
  find_available_port (taken_below 9000) 8000 9000 <> BindOverflow
  /\ (find_available_port (taken_below 9000) 8000 9000 = NoneAvailable
      <-> forall q, 8000 <= q < 9000 -> taken_below 9000 q = false).
Proof.
  apply (no_port_only_when_all_taken (taken_below 9000) 8000 9000); lia.
Defined.

(** The process 13 of the sample processes. *)
Lemma cleanup_terminates_only_holders_sample :
  exists proc, In proc sample_processes /\ pid proc = 13
               /\ holds_port 8000 proc.
Proof.
  apply (cleanup_terminates_only_holders always_terminates 8000
           sample_processes 13).
  vm_compute. tauto.
Defined.

(** The process 13 holds port 8000 behind an unreadable process. *)
Lemma cleanup_reaches_every_holder_sample :
  In 13 (cleanup_port always_terminates 8000 sample_processes).
Proof.
  apply (cleanup_reaches_every_holder always_terminates 8000 sample_processes
           {| pid := 13; proc_connections := Some [Local 22; Local 8000] |}).
  - reflexivity.
  - intros proc' conns [<- | [<- | [<- | []]]] Hc Hin;
      try discriminate; injection Hc as <-;
      repeat (destruct Hin as [Hin | Hin]; [discriminate |]); destruct Hin.
  - right. right. left. reflexivity.
  - exists [Local 22; Local 8000]. split; [reflexivity |]. right. now left.
Defined.

(** A process with a socket without address between two holders of the
    port. *)
Lemma socket_without_address_ends_cleanup_sample :
  cleanup_port always_terminates 8000
    ([{| pid := 11; proc_connections := Some [Local 8000] |}]
       ++ unbound_process
       :: [{| pid := 13; proc_connections := Some [Local 22; Local 8000] |}])
  = cleanup_port always_terminates 8000
      [{| pid := 11; proc_connections := Some [Local 8000] |}].
Proof.
  apply (socket_without_address_ends_cleanup always_terminates 8000 _
           unbound_process _ [Local 22] [Local 8000]).
  - reflexivity.
  - intros [Heq | []]. discriminate.
Defined.

(** * create_gpt_prompt *)

Lemma splitlines_prefix a : forall b cur,
  exists front b' cur', forall s,
    splitlines_from b cur (a ++ s) = front ++ splitlines_from b' cur' s.
Proof.
  induction a as [| c a IH]; intros b cur.
  - exists [], b, cur. reflexivity.
  - cbn [app splitlines_from].
    destruct (b && (c =? 10)%N).
    + destruct (IH false cur) as (front & b' & cur' & Heq).
      exists front, b', cur'. exact Heq.
    + destruct (is_line_break c).
      * destruct (IH (c =? 13)%N []) as (front & b' & cur' & Heq).
        exists (cur :: front), b', cur'. intros s. now rewrite Heq.
      * destruct (IH false (cur ++ [c])) as (front & b' & cur' & Heq).
        exists front, b', cur'. exact Heq.
Qed.

(** X30: In the prompt the lines of a non-empty transcript stand one per line,
    in order and unchanged, between two lines that hold [##] only
    (provided no line is empty or holds a line boundary). *)
Theorem prompt_shows_the_transcript lines video_title :
  lines <> [] -> Forall one_line lines ->
  exists head_lines tail_lines,
    splitlines (create_gpt_prompt lines video_title)
    = head_lines ++ [u "##"] ++ lines ++ [u "##"] ++ tail_lines.
Proof.
  intros Hne Hall. unfold splitlines, create_gpt_prompt.
  assert (Hbefore : exists B, PROMPT_BEFORE_LINES
                              = B ++ [24615; 10; 10; 35; 35; 10]%N).
  { exists (firstn (length PROMPT_BEFORE_LINES - 6) PROMPT_BEFORE_LINES). vm_compute. reflexivity. }
  destruct Hbefore as (B & HB).
  assert (Hafter : exists A, PROMPT_AFTER_LINES = [10; 35; 35; 10]%N ++ A).
  { exists (skipn 4 PROMPT_AFTER_LINES). vm_compute. reflexivity. }
  destruct Hafter as (A & HA).
  rewrite HB, HA.
  replace (PROMPT_HEAD ++ video_title ++ (B ++ [24615; 10; 10; 35; 35; 10]%N)
             ++ join [10%N] lines ++ ([10; 35; 35; 10]%N ++ A) ++ json_format
             ++ PROMPT_TAIL)
    with ((PROMPT_HEAD ++ video_title ++ B)
            ++ [24615; 10; 10; 35; 35; 10]%N
            ++ (join [10%N] lines
                  ++ 10%N :: ([35; 35; 10]%N ++ A ++ json_format ++ PROMPT_TAIL)))
    by (rewrite <- !app_assoc; reflexivity).
  destruct (splitlines_prefix (PROMPT_HEAD ++ video_title ++ B) false [])
    as (front & b' & cur' & Heq).
  rewrite Heq.
  cbn [app splitlines_from].
  change (24615 =? 10)%N with false. rewrite andb_false_r.
  change (is_line_break 24615) with false. cbn iota.
  cbn [andb]. change (is_line_break 10) with true. cbn iota.
  change (10 =? 13)%N with false. change (is_line_break 35) with false.
  cbn iota. cbn [app].
  rewrite (splitlines_block lines _ Hne Hall).
  cbn [app splitlines_from andb].
  change (is_line_break 35) with false. cbn iota.
  change (is_line_break 10) with true. cbn iota. cbn [app].
  exists (front ++ [cur' ++ [24615%N]; []]).
  eexists. rewrite <- !app_assoc. cbn [app u]. reflexivity.
Qed.

Lemma one_line_by_check line :
  line <> [] -> forallb (fun c => negb (is_line_break c)) line = true ->
  one_line line.
Proof.
  intros Hne Hall. split; [exact Hne |]. intros c Hin.
  rewrite forallb_forall in Hall. specialize (Hall c Hin).
  now apply negb_true_iff in Hall.
Qed.

(** The prompt of the sample transcript. *)
Lemma prompt_shows_the_transcript_sample :
  exists head_lines tail_lines,
    splitlines (create_gpt_prompt sample_transcript (u "talk"))
    = head_lines ++ [u "##"] ++ sample_transcript ++ [u "##"] ++ tail_lines.
Proof.
  apply (prompt_shows_the_transcript sample_transcript (u "talk")).
  - discriminate.
  - repeat constructor; apply one_line_by_check;
      first [discriminate | vm_compute; reflexivity].
Defined.

(** * The segment loop goes on *)

Section AcceptedFacts.
Context `{External}.

Lemma normalize_score_defined v :
  py_float v <> Overflow -> exists n, normalize_score v = Some n.
Proof.
  intros Hv. destruct (py_float v) as [x | |] eqn:Hf; [| | congruence].
  - destruct (normalize_score_coerced v x Hf) as (n & Hn & _). now exists n.
  - exists 5. now apply normalize_score_rejected.
Qed.

(** An accepted candidate is emitted, with its two timecodes. *)
Lemma accepted_emits vid path lines n d o st ss et es :
  accepted vid o st ss et es ->
  exists r d',
    process_dict vid path lines n d o = (Emit r, d')
    /\ start_time r = st /\ end_time r = et.
Proof.
  intros (Hreq & Hscores & Hs & He & Hwrite & Hrun).
  apply field_timecode_steps in Hs as (s1 & g1 & Hs1 & Hg1 & Hn1 & Ht1).
  apply field_timecode_steps in He as (s2 & g2 & Hs2 & Hg2 & Hn2 & Ht2).
  destruct (normalize_score_defined (default JNull (obj_get o (u "impact"))))
    as [n1 E1]; [apply Hscores; cbn; tauto |].
  destruct (normalize_score_defined (default JNull (obj_get o (u "uniqueness"))))
    as [n2 E2]; [apply Hscores; cbn; tauto |].
  destruct (normalize_score_defined (default JNull (obj_get o (u "timeliness"))))
    as [n3 E3]; [apply Hscores; cbn; tauto |].
  destruct (normalize_score_defined (default JNull (obj_get o (u "entertainment"))))
    as [n4 E4]; [apply Hscores; cbn; tauto |].
  unfold process_dict. rewrite Hreq. cbn [negb]. rewrite E1, E2, E3, E4.
  rewrite Hs1, Hs2. cbn [from_option strip_field id].
  rewrite Hg1, Hg2, Hn1, Hn2, Ht1, Ht2, Hwrite. cbn [negb].
  rewrite Hrun. cbn [Z.eqb negb].
  eexists _, _. split; [reflexivity |]. split; reflexivity.
Qed.

(** A candidate whose excerpt file cannot be written is skipped before
    the trim command, and nothing is written. *)
Lemma unwritable_excerpt_is_skipped vid path lines n d o st ss et es :
  has_required o = true ->
  (forall field, In field score_fields ->
     py_float (default JNull (obj_get o field)) <> Overflow) ->
  field_timecode o (u "start") = Some (st, ss) ->
  field_timecode o (u "end") = Some (et, es) ->
  can_write (excerpt_path vid st et) = false ->
  process_dict vid path lines n d o = (Skip TimeError, d).
Proof.
  intros Hreq Hscores Hs He Hwrite.
  apply field_timecode_steps in Hs as (s1 & g1 & Hs1 & Hg1 & Hn1 & Ht1).
  apply field_timecode_steps in He as (s2 & g2 & Hs2 & Hg2 & Hn2 & Ht2).
  destruct (normalize_score_defined (default JNull (obj_get o (u "impact"))))
    as [n1 E1]; [apply Hscores; cbn; tauto |].
  destruct (normalize_score_defined (default JNull (obj_get o (u "uniqueness"))))
    as [n2 E2]; [apply Hscores; cbn; tauto |].
  destruct (normalize_score_defined (default JNull (obj_get o (u "timeliness"))))
    as [n3 E3]; [apply Hscores; cbn; tauto |].
  destruct (normalize_score_defined (default JNull (obj_get o (u "entertainment"))))
    as [n4 E4]; [apply Hscores; cbn; tauto |].
  unfold process_dict. rewrite Hreq. cbn [negb]. rewrite E1, E2, E3, E4.
  rewrite Hs1, Hs2. cbn [from_option strip_field id].
  rewrite Hg1, Hg2, Hn1, Hn2, Ht1, Ht2, Hwrite. reflexivity.
Qed.

(** The turn of the loop on an accepted candidate appends its record. *)
Lemma loop_step_accepted vid path lines st0 o st ss et es :
  accepted vid o st ss et es ->
  exists r,
    results (loop_step vid path lines st0 (JObj o)) = results st0 ++ [r]
    /\ start_time r = st /\ end_time r = et.
Proof.
  intros Hacc. unfold loop_step. cbn [process_segment].
  destruct (accepted_emits vid path lines (length (results st0)) (disk st0)
              o st ss et es Hacc) as (r & d' & -> & Hst & Het).
  exists r. cbn [results]. now repeat split.
Qed.

(** The record of an accepted candidate follows the records of the
    segments before it. *)
Lemma run_loop_accepted vid path lines xs o ys st0 st ss et es :
  accepted vid o st ss et es ->
  exists r rest,
    results (run_loop vid path lines (xs ++ JObj o :: ys) st0)
    = results (run_loop vid path lines xs st0) ++ r :: rest
    /\ start_time r = st /\ end_time r = et
    /\ record_seconds r = Some (ss, es).
Proof.
  intros Hacc. rewrite run_loop_app.
  set (st1 := run_loop vid path lines xs st0).
  change (run_loop vid path lines (JObj o :: ys) st1)
    with (run_loop vid path lines ys (loop_step vid path lines st1 (JObj o))).
  destruct (loop_step_accepted vid path lines st1 o st ss et es Hacc)
    as (r & Hr & Hst & Het).
  destruct (run_loop_extends vid path lines ys
              (loop_step vid path lines st1 (JObj o))) as (rest & Hrest & _).
  exists r, rest. rewrite Hrest, Hr, <- app_assoc.
  split; [reflexivity |]. split; [exact Hst |]. split; [exact Het |].
  destruct Hacc as (_ & _ & Hs & He & _).
  unfold record_seconds. rewrite Hst, Het.
  now rewrite (field_timecode_seconds _ _ _ _ Hs), (field_timecode_seconds _ _ _ _ He).
Qed.

(** C6: a segment with a per-segment error (a required field missing,
    a start or end that is no timecode, a trim command that fails) is
    skipped, and the loop over the array gives the results it gives
    without that segment; and the loop goes on after it: the record of
    every accepted candidate that comes later in the array is emitted,
    right after the records of the segments before that candidate, the
    segment with the error adding nothing. *)
Theorem error_skips_only_that_segment (vid path : str) (lines : list str)
    (before after : list json) (bad : json) (st : loop_state) :
  segment_error vid bad ->
  results (run_loop vid path lines (before ++ bad :: after) st)
  = results (run_loop vid path lines (before ++ after) st)
  /\ forall a1 o a2 st' ss et es,
       after = a1 ++ JObj o :: a2 ->
       accepted vid o st' ss et es ->
       exists r rest,
         results (run_loop vid path lines (before ++ bad :: after) st)
         = results (run_loop vid path lines (before ++ a1) st) ++ r :: rest
         /\ start_time r = st' /\ end_time r = et
         /\ record_seconds r = Some (ss, es).
Proof.
  intros Herr.
  assert (Hskip : results (run_loop vid path lines (before ++ bad :: after) st)
                  = results (run_loop vid path lines (before ++ after) st)).
  { rewrite !run_loop_app.
    set (st1 := run_loop vid path lines before st).
    cbn [run_loop fold_left]. apply run_loop_results.
    destruct (segment_error_skips vid path lines (length (results st1))
                (disk st1) bad Herr) as [why Hwhy].
    now apply (loop_step_skip _ _ _ _ _ why). }
  split; [exact Hskip |].
  intros a1 o a2 st' ss et es -> Hacc. rewrite Hskip, app_assoc.
  now apply run_loop_accepted.
Qed.

Lemma process_dict_emit_write vid path lines n d o r d' :
  process_dict vid path lines n d o = (Emit r, d') ->
  can_write (excerpt_path vid (start_time r) (end_time r)) = true.
Proof.
  unfold process_dict.
  destruct (has_required o); cbn [negb]; [| discriminate].
  destruct (normalize_score _); [| discriminate].
  destruct (normalize_score _); [| discriminate].
  destruct (normalize_score _); [| discriminate].
  destruct (normalize_score _); [| discriminate].
  destruct (strip_field _); [| discriminate].
  destruct (strip_field _); [| discriminate].
  destruct (time_pattern_match _); [| discriminate].
  destruct (time_pattern_match _); [| discriminate].
  destruct (normalize_match _); [| discriminate].
  destruct (normalize_match _); [| discriminate].
  destruct (time_to_seconds _); [| discriminate].
  destruct (time_to_seconds _); [| discriminate].
  destruct (can_write _) eqn:Hw; cbn [negb]; [| discriminate].
  destruct (negb _); [discriminate |].
  intros [= <- <-]. exact Hw.
Qed.

Lemma normalize_score_no_overflow v n :
  normalize_score v = Some n -> py_float v <> Overflow.
Proof. unfold normalize_score. intros Hn Hv. rewrite Hv in Hn. discriminate. Qed.

(** An emitted record comes from an accepted candidate. *)
Lemma process_dict_emit_accepted vid path lines n d o r d' :
  process_dict vid path lines n d o = (Emit r, d') ->
  exists ss es,
    accepted vid o (start_time r) ss (end_time r) es
    /\ record_seconds r = Some (ss, es).
Proof.
  intros Hp.
  pose proof (process_dict_emit_write _ _ _ _ _ _ _ _ Hp) as Hw.
  pose proof (process_dict_emit_fields _ _ _ _ _ _ _ _ Hp)
    as (H1 & H2 & H3 & H4 & _).
  apply process_dict_emit in Hp as (Hreq & ss & es & Hs & He & Hrun & _).
  exists ss, es. split.
  - split; [exact Hreq |]. split.
    + intros field [<- | [<- | [<- | [<- | []]]]];
        eapply normalize_score_no_overflow; eassumption.
    + repeat split; assumption.
  - unfold record_seconds.
    now rewrite (field_timecode_seconds _ _ _ _ Hs),
      (field_timecode_seconds _ _ _ _ He).
Qed.

(** C1, as amended: the records that [extract_segments] returns are
    those of the accepted candidates of the array.  Every returned record
    comes from a candidate that has every required field, whose scores
    [float] took without overflow, whose start and end the timecode
    reader accepted (they are the two timecodes of the record), whose
    excerpt file could be written and for which the trim command
    returned 0; and once the run reaches the loop, every such candidate
    of the array has a record in the list returned.  Nothing more is
    checked: the seconds of the start need not be below those of the
    end. *)
Theorem emitted_records_are_validated (reply path url : str) (d : files) :
  (forall rs r,
     fst (extract_segments reply path url d) = Some rs -> r ∈ rs ->
     exists segs vid o ss es,
       json_loads reply = Some (JArr segs)
       /\ extract_video_id url = Some vid
       /\ JObj o ∈ segs
       /\ accepted vid o (start_time r) ss (end_time r) es
       /\ record_seconds r = Some (ss, es))
  /\ (forall segs vid lines d1 o st ss et es,
        json_loads reply = Some (JArr segs) ->
        extract_video_id url = Some vid -> vid <> [] ->
        read_lines path = Some lines ->
        ensure_source vid d = inl d1 ->
        JObj o ∈ segs ->
        accepted vid o st ss et es ->
        exists rs r,
          fst (extract_segments reply path url d) = Some rs /\ r ∈ rs
          /\ start_time r = st /\ end_time r = et
          /\ record_seconds r = Some (ss, es)).
Proof.
  split.
  - intros rs r Hrun Hr.
    apply extract_segments_some in Hrun
      as (segs & vid & lines & d1 & Hjson & Hvid & _ & _ & ->).
    apply run_loop_emitted in Hr as [Hr | (seg & n & d0 & d' & Hin & Hp)].
    + cbn [results] in Hr. now apply elem_of_nil in Hr.
    + apply process_segment_emit in Hp as (o & -> & Hp).
      apply process_dict_emit_accepted in Hp as (ss & es & Hacc & Hsec).
      now exists segs, vid, o, ss, es.
  - intros segs vid lines d1 o st ss et es Hjson Hvid Hne Hlines Hsrc Hin Hacc.
    apply list_elem_of_split in Hin as (xs & ys & ->).
    destruct (run_loop_accepted vid path lines xs o ys
                {| results := []; disk := d1 |} st ss et es Hacc)
      as (r & rest & Hres & Hst & Het & Hsec).
    unfold extract_segments. rewrite Hjson, Hvid, Hlines.
    destruct (xs ++ JObj o :: ys) as [| first others] eqn:Hsegs;
      [now destruct xs |].
    destruct vid as [| c v]; [congruence |].
    rewrite Hsrc. cbn zeta. rewrite Hres.
    destruct (results (run_loop (c :: v) path lines xs
                         {| results := []; disk := d1 |}) ++ r :: rest)
      as [| r0 rs0] eqn:Hall.
    { now destruct (results (run_loop (c :: v) path lines xs
                               {| results := []; disk := d1 |})). }
    exists (r0 :: rs0), r. split; [reflexivity |].
    split; [| now repeat split].
    rewrite <- Hall. apply elem_of_app. right. constructor.
Qed.

End AcceptedFacts.

(** The candidates of the samples are accepted where everything
    succeeds. *)
Lemma sample_candidates_accepted (reply : json) :
  let W := fair_world reply in
  accepted (u "abc") (match good_candidate with JObj o => o | _ => [] end)
    (u "00:00:00") 0 (u "00:00:15") 15
  /\ accepted (u "abc") (match later_candidate with JObj o => o | _ => [] end)
       (u "00:00:10") 10 (u "00:00:20") 20.
Proof.
  intros W. split.
  - split; [reflexivity |]. split.
    + intros field [<- | [<- | [<- | [<- | []]]]]; vm_compute; discriminate.
    + repeat split; reflexivity.
  - split; [reflexivity |]. split.
    + intros field [<- | [<- | [<- | [<- | []]]]]; vm_compute; discriminate.
    + repeat split; reflexivity.
Qed.

(** The record of the sample run and its candidate, both ways. *)
Lemma emitted_records_are_validated_sample :
  let W := fair_world sample_reply in
  (exists segs vid o ss es,
     json_loads [] = Some (JArr segs)
     /\ extract_video_id youtu_be_url = Some vid
     /\ JObj o ∈ segs
     /\ accepted vid o (start_time sample_record) ss (end_time sample_record) es
     /\ record_seconds sample_record = Some (ss, es))
  /\ exists rs r,
       fst (extract_segments [] sample_subtitle_file youtu_be_url ∅) = Some rs
       /\ r ∈ rs /\ start_time r = u "00:00:00" /\ end_time r = u "00:00:15"
       /\ record_seconds r = Some (0, 15).
Proof.
  intros W.
  destruct (emitted_records_are_validated [] sample_subtitle_file
              youtu_be_url ∅) as [Hfrom Hto].
  split.
  - apply (Hfrom [sample_record] sample_record).
    + vm_compute. reflexivity.
    + apply list_elem_of_here.
  - apply (Hto [good_candidate] (u "abc") sample_transcript
             (<[temp_path (u "abc") := Video]> ∅)
             (match good_candidate with JObj o => o | _ => [] end)).
    + reflexivity.
    + reflexivity.
    + discriminate.
    + reflexivity.
    + reflexivity.
    + apply list_elem_of_here.
    + apply (sample_candidates_accepted sample_reply).
Defined.

(** A candidate without its [end] between two good ones: the run gives
    what it gives without it, and the record of the candidate after it
    follows the record of the one before it. *)
Lemma error_skips_sample :
  let W := fair_world JNull in
  let st0 := {| results := []; disk := ∅ |} in
  results (run_loop (u "abc") sample_subtitle_file sample_transcript
             ([good_candidate] ++ candidate_without_end :: [later_candidate])
             st0)
  = results (run_loop (u "abc") sample_subtitle_file sample_transcript
               ([good_candidate] ++ [later_candidate]) st0)
  /\ exists r rest,
       results (run_loop (u "abc") sample_subtitle_file sample_transcript
                  ([good_candidate] ++ candidate_without_end
                     :: [later_candidate]) st0)
       = results (run_loop (u "abc") sample_subtitle_file sample_transcript
                    ([good_candidate] ++ []) st0) ++ r :: rest
       /\ start_time r = u "00:00:10" /\ end_time r = u "00:00:20"
       /\ record_seconds r = Some (10, 20).
Proof.
  intros W st0.
  assert (Herr : segment_error (u "abc") candidate_without_end).
  { apply (FieldMissing _ _ (u "end")); [| reflexivity].
    apply list_elem_of_In. cbn. tauto. }
  destruct (error_skips_only_that_segment (u "abc") sample_subtitle_file
              sample_transcript [good_candidate] [later_candidate]
              candidate_without_end st0 Herr) as [Hskip Hnext].
  split; [exact Hskip |].
  apply (Hnext [] (match later_candidate with JObj o => o | _ => [] end) []).
  - reflexivity.
  - apply (sample_candidates_accepted JNull).
Defined.

(** The sample run with the bad candidate gives two records. *)
Lemma error_skips_sample_records :
  let W := fair_world JNull in
  map (fun r => (start_time r, end_time r))
    (results (run_loop (u "abc") sample_subtitle_file sample_transcript
                ([good_candidate] ++ candidate_without_end
                   :: [later_candidate])
                {| results := []; disk := ∅ |}))
  = [(u "00:00:00", u "00:00:15"); (u "00:00:10", u "00:00:20")].
Proof. vm_compute. reflexivity. Qed.
